(** * vite-admin-panel: derivation logic of the paper-trading dashboard

    Shallow embedding of the pure derivations of
    [src/features/PortfolioAnalyzer.tsx] (which also carries the three
    revisions of the meme scanner), [src/features/TradePanel.tsx] and
    [src/App.tsx].

    A JavaScript [number] is an IEEE 754 binary64 value: it is modelled by
    Rocq's primitive [float], whose operations are the same binary64
    operations (round to nearest, ties to even).  A value of type
    [number | null | undefined] is an [option float]. *)

From Stdlib Require Import Floats ZArith List String Ascii Bool Lia Permutation Sorted.
From Stdlib Require Uint63.
Import ListNotations.

Local Open Scope float_scope.

(** ** JavaScript numbers *)

Module JS.

(** [typeof x === 'number'] on a [number | null | undefined]. *)
Definition isNumber (x : option float) : bool :=
  match x with Some _ => true | None => false end.

(** [isFinite(x)] and [Number.isFinite(x)] on a number. *)
Definition isFinite (x : float) : bool := is_finite x.

(** [Number.isFinite(x)] on a [number | undefined]. *)
Definition isFiniteOpt (x : option float) : bool :=
  match x with Some v => isFinite v | None => false end.

(** Truthiness of a number: [0], [-0] and [NaN] are falsy. *)
Definition truthy (x : float) : bool := negb (is_zero x || is_nan x).

(** Truthiness of a [number | null | undefined]. *)
Definition truthyOpt (x : option float) : bool :=
  match x with Some v => truthy v | None => false end.

(** The relational operators [a >= b], [a > b], [a < b], [a <= b]. *)
Definition ge (a b : float) : bool := b <=? a.
Definition gt (a b : float) : bool := b <? a.
Definition lt (a b : float) : bool := a <? b.
Definition le (a b : float) : bool := a <=? b.

(** [Number(x)] on a [number | undefined]: [Number(undefined)] is [NaN]. *)
Definition Number (x : option float) : float :=
  match x with Some v => v | None => nan end.

(** [x || 0] on a number. *)
Definition orZero (x : float) : float := if truthy x then x else 0.

(** [x ?? d] on a [number | null | undefined]. *)
Definition nullish (x : option float) (d : float) : float :=
  match x with Some v => v | None => d end.

(** [Object.is] on numbers: [NaN] is itself, [0] and [-0] differ. *)
Definition objectIs (a b : float) : bool := Leibniz.eqb a b.

End JS.

(** The float that holds an integer, for integers a binary64 holds
    exactly. *)
Definition Z2F (z : Z) : float :=
  match z with
  | Z0 => 0
  | Zpos _ => of_uint63 (Uint63.of_Z z)
  | Zneg p => - of_uint63 (Uint63.of_Z (Zpos p))
  end.

(** ** HealthScorer: [computeHealthVerdict] *)

Module HealthScorer.

Inductive DexLabel := safe | caution | danger | unknown.

Inductive VerdictLabel := SAFE | RISKY | UNSAFE.

Record HealthVerdict := { label : VerdictLabel; reasons : list string }.

Record HealthParams := {
  volToMc : option float;
  lpLockedPct : option float;
  tx24 : option float;
  priceCh24 : option float;
  dexLabel : option DexLabel;
  ageMin : option float;
  marketCap : option float
}.

(** The two locals the function mutates: [score] and [reasons]. *)
Definition Acc : Type := float * list string.

(** [score += d; reasons.push(r)] *)
Definition up (d : float) (r : string) (st : Acc) : Acc :=
  (fst st + d, snd st ++ [r]).

(** [score -= d; reasons.push(r)] *)
Definition down (d : float) (r : string) (st : Acc) : Acc :=
  (fst st - d, snd st ++ [r]).

(** The literal [0.2] denotes the binary64 nearest to one fifth. *)
Definition c0_2 : float := 0x1.999999999999ap-3.

Definition volRule (v : option float) (st : Acc) : Acc :=
  match v with
  | Some x =>
      if JS.isFinite x then
        if JS.ge x 1 then up 20 "volume/mc strong" st
        else if JS.ge x c0_2 then up 5 "volume/mc moderate" st
        else down 20 "volume/mc weak" st
      else st
  | None => st
  end.

Definition lpRule (v : option float) (st : Acc) : Acc :=
  match v with
  | Some x =>
      if JS.ge x 75 then up 15 "LP locked high" st
      else if JS.lt x 25 then down 15 "LP lock low" st
      else st
  | None => st
  end.

Definition txRule (v : option float) (st : Acc) : Acc :=
  match v with
  | Some x =>
      if JS.isFinite x then
        if JS.ge x 1000 then up 5 "tx active" st
        else if JS.lt x 50 then down 5 "tx low" st
        else st
      else st
  | None => st
  end.

Definition priceRule (v : option float) (st : Acc) : Acc :=
  match v with
  | Some x =>
      if JS.isFinite x then
        let st := if JS.gt x 400 then down 10 "extreme pump" st else st in
        if JS.lt x (-60) then down 10 "dumping" st else st
      else st
  | None => st
  end.

Definition dexRule (l : option DexLabel) (st : Acc) : Acc :=
  let st := match l with Some safe => up 5 "dex risk: safe" st | _ => st end in
  match l with Some danger => down 10 "dex risk: danger" st | _ => st end.

(** The guard of the compound rule, in the order the source tests it:
    [typeof ageMin === 'number' && ageMin > 50 &&
     typeof marketCap === 'number' && isFinite(marketCap) &&
     marketCap < 20_000]. *)
Definition compoundGuard (a m : option float) : bool :=
  match a with
  | Some av =>
      JS.gt av 50 &&
      match m with
      | Some mv => JS.isFinite mv && JS.lt mv 20000
      | None => false
      end
  | None => false
  end.

Definition compoundReason : string := "age>50m & mc<20k".

Definition compoundRule (a m : option float) (st : Acc) : Acc :=
  if compoundGuard a m then down 10 compoundReason st else st.

(** The state before the compound rule is evaluated. *)
Definition beforeCompound (p : HealthParams) : Acc :=
  dexRule (dexLabel p)
    (priceRule (priceCh24 p)
       (txRule (tx24 p)
          (lpRule (lpLockedPct p)
             (volRule (volToMc p) (50, []))))).

(** The state when every rule has run. *)
Definition runRules (p : HealthParams) : Acc :=
  compoundRule (ageMin p) (marketCap p) (beforeCompound p).

Definition labelOf (score : float) : VerdictLabel :=
  if JS.ge score 70 then SAFE
  else if JS.le score 40 then UNSAFE
  else RISKY.

Definition computeHealthVerdict (p : HealthParams) : HealthVerdict :=
  let st := runRules p in
  {| label := labelOf (fst st); reasons := snd st |}.

(** The value of the local [score] when the function returns. *)
Definition finalScore (p : HealthParams) : float := fst (runRules p).

End HealthScorer.

(** ** TradePanel: position PnL and the Buy button *)

Module TradePanel.

Record Position := { qty : float; avgPrice : float }.

(** What the component reads: its props [mint] and [currentPrice], the
    polled state ([data?.positions?.[mint]], [data?.user?.balance]) and the
    amount typed in the USD field. *)
Record Panel := {
  mint : string;
  currentPrice : option float;
  pos : option Position;
  userBalance : option float;
  usd : float
}.

(** [data?.user?.balance ?? 0] *)
Definition balance (v : Panel) : float := JS.nullish (userBalance v) 0.

(** [pos?.qty ?? 0] *)
Definition qtyHeld (v : Panel) : float :=
  match pos v with Some p => qty p | None => 0 end.

(** [pos?.avgPrice ?? 0] *)
Definition avgEntry (v : Panel) : float :=
  match pos v with Some p => avgPrice p | None => 0 end.

(** [if (!currentPrice || !qtyHeld) return 0;
     return (currentPrice - avgPrice) * qtyHeld] *)
Definition pnl (v : Panel) : float :=
  match currentPrice v with
  | Some cp =>
      if negb (JS.truthy cp) || negb (JS.truthy (qtyHeld v)) then 0
      else (cp - avgEntry v) * qtyHeld v
  | None => 0
  end.

(** [currentPrice ?? 0] *)
Definition effPrice (v : Panel) : float := JS.nullish (currentPrice v) 0.

(** The literal [0.35] denotes the binary64 nearest to it. *)
Definition TX_FEE : float := 0x1.6666666666666p-2.

(** [effPrice ? (usd || 0) / effPrice : 0] *)
Definition effectiveQty (v : Panel) : float :=
  if JS.truthy (effPrice v) then JS.orZero (usd v) / effPrice v else 0.

(** [effPrice && effectiveQty ? effPrice * effectiveQty : 0] *)
Definition totalCost (v : Panel) : float :=
  if JS.truthy (effPrice v) && JS.truthy (effectiveQty v)
  then effPrice v * effectiveQty v else 0.

(** [totalCost + (totalCost > 0 ? TX_FEE : 0)] *)
Definition grandTotal (v : Panel) : float :=
  totalCost v + (if JS.gt (totalCost v) 0 then TX_FEE else 0).

(** [!!mint]: a string is truthy when it is not empty. *)
Definition nonEmpty (s : string) : bool :=
  match s with EmptyString => false | _ => true end.

(** [!!mint && effPrice > 0 && effectiveQty > 0 && totalCost <= balance] *)
Definition canBuy (v : Panel) : bool :=
  nonEmpty (mint v) && JS.gt (effPrice v) 0 && JS.gt (effectiveQty v) 0
  && JS.le (totalCost v) (balance v).

(** [qtyHeld > 0 && !!currentPrice] *)
Definition canSell (v : Panel) : bool :=
  JS.gt (qtyHeld v) 0 && JS.truthyOpt (currentPrice v).

End TradePanel.

(** ** MetricDeriver: supply and the sticky display values of the scanner *)

Module MemeScanner.

(** The part of the RugCheck report the scanner reads.  The interface
    declares both fields as numbers; the code guards against their absence,
    so they are optional here. *)
Record RugToken := { tokenSupply : option float; decimals : option float }.

Record RugReport := { token : option RugToken }.

Section Supply.

(** [Math.pow]: the language leaves its result implementation-approximated,
    so it is a parameter of the model. *)
Variable pow : float -> float -> float.

(** [report.token.decimals ?? 0] *)
Definition decimalsOf (t : RugToken) : float := JS.nullish (decimals t) 0.

(** [Number.isFinite(raw) ? raw / Math.pow(10, d) : null] *)
Definition computedSupply (t : RugToken) : option float :=
  match tokenSupply t with
  | Some raw =>
      if JS.isFinite raw then Some (raw / pow 10 (decimalsOf t)) else None
  | None => None
  end.

(** The memoised [supply] of the last revision of the scanner. *)
Definition supply (report : option RugReport) : float :=
  match report with
  | Some r =>
      match token r with
      | Some t =>
          match computedSupply t with
          | Some c => if JS.isFinite c && JS.gt c 0 then c else 1000000000
          | None => 1000000000
          end
      | None => 999999999
      end
  | None => 999999999
  end.

End Supply.

(** The price response and the live price derived from it. *)
Record PriceResp := { price : option float; isFallback : bool }.

(** [if (priceResp?.isFallback) return null;
     const p = priceResp?.price; return typeof p === 'number' ? p : null] *)
Definition priceUsd (r : option PriceResp) : option float :=
  match r with
  | Some pr => if isFallback pr then None else price pr
  | None => None
  end.

(** The component state behind the displayed price: the value of
    [priceUsdStable], and the dependency [priceUsd] the effect last ran
    with ([None] before the first render). *)
Record Sticky := { priceUsdStable : option float; lastDep : option (option float) }.

Definition mounted : Sticky := {| priceUsdStable := None; lastDep := None |}.

(** React compares effect dependencies with [Object.is]. *)
Definition sameDep (a b : option float) : bool :=
  match a, b with
  | None, None => true
  | Some x, Some y => JS.objectIs x y
  | _, _ => false
  end.

Definition depChanged (st : Sticky) (live : option float) : bool :=
  match lastDep st with
  | None => true
  | Some d => negb (sameDep d live)
  end.

(** [typeof priceUsd === 'number' && isFinite(priceUsd)] *)
Definition validPrice (live : option float) : bool := JS.isFiniteOpt live.

(** The effect
    [if (typeof priceUsd === 'number' && isFinite(priceUsd))
       setPriceUsdStable(priceUsd)]
    with dependencies [[priceUsd]]. *)
Definition runEffect (st : Sticky) (live : option float) : Sticky :=
  if depChanged st live then
    {| priceUsdStable := if validPrice live then live else priceUsdStable st;
       lastDep := Some live |}
  else st.

(** [priceUsdStable ?? priceUsd]: what the price tile shows, [None] being
    the placeholder dash. *)
Definition displayed (st : Sticky) (live : option float) : option float :=
  match priceUsdStable st with
  | Some v => Some v
  | None => live
  end.

(** One tick: the component renders with the live price, the effect runs,
    and the state it leaves is rendered again. *)
Definition tick (st : Sticky) (live : option float) : Sticky := runEffect st live.

(** What the first render of a tick paints, before the effect. *)
Definition firstPaint (st : Sticky) (live : option float) : option float :=
  displayed st live.

(** What is on screen when the tick has settled. *)
Definition settled (st : Sticky) (live : option float) : option float :=
  displayed (tick st live) live.

Definition ticks (st : Sticky) (lives : list (option float)) : Sticky :=
  fold_left tick lives st.

(** The settled display of every tick of a session, in order. *)
Fixpoint session (st : Sticky) (lives : list (option float)) : list (option float) :=
  match lives with
  | [] => []
  | x :: rest => settled st x :: session (tick st x) rest
  end.

End MemeScanner.

(** ** Scan validation: [isValidMint] and the scan action *)

Module Scan.

(** A JavaScript string is a sequence of UTF-16 code units. *)
Definition jsstring : Type := list N.

Local Open Scope N_scope.

Definition between (lo hi c : N) : bool := (lo <=? c) && (c <=? hi).

(** The code units [String.prototype.trim] strips: the WhiteSpace and
    LineTerminator productions of the language. *)
Definition isTrimmable (c : N) : bool :=
  between 0x09 0x0D c || (c =? 0x20) || (c =? 0xA0) || (c =? 0x1680)
  || between 0x2000 0x200A c || (c =? 0x2028) || (c =? 0x2029)
  || (c =? 0x202F) || (c =? 0x205F) || (c =? 0x3000) || (c =? 0xFEFF).

Fixpoint dropWhile (f : N -> bool) (s : jsstring) : jsstring :=
  match s with
  | [] => []
  | c :: rest => if f c then dropWhile f rest else s
  end.

Definition trimStart (s : jsstring) : jsstring := dropWhile isTrimmable s.

Definition trimEnd (s : jsstring) : jsstring :=
  rev (dropWhile isTrimmable (rev s)).

Definition trim (s : jsstring) : jsstring := trimEnd (trimStart s).

(** The character class [[1-9A-HJ-NP-Za-km-z]]. *)
Definition base58Class (c : N) : bool :=
  between 49 57 c        (* 1-9 *)
  || between 65 72 c     (* A-H *)
  || between 74 78 c     (* J-N *)
  || between 80 90 c     (* P-Z *)
  || between 97 107 c    (* a-k *)
  || between 109 122 c.  (* m-z *)

(** [BASE58_RE.test(s)] for [/^[1-9A-HJ-NP-Za-km-z]+$/]: without the
    multiline flag the anchors are the two ends of the string, so the whole
    string is one or more characters of the class. *)
Definition BASE58_RE (s : jsstring) : bool :=
  match s with
  | [] => false
  | _ => forallb base58Class s
  end.

Definition isValidMint (m : jsstring) : bool :=
  let s := trim m in
  (32 <=? N.of_nat (List.length s)) && (N.of_nat (List.length s) <=? 44)
  && BASE58_RE s.

(** The two pieces of scanner state the scan action touches. *)
Record Scanner := { inputMint : jsstring; searchedMint : option jsstring }.

Definition canScan (st : Scanner) : bool := isValidMint (inputMint st).

(** The Scan button: [canScan && setSearchedMint(inputMint.trim())]. *)
Definition clickScan (st : Scanner) : Scanner :=
  if canScan st
  then {| inputMint := inputMint st; searchedMint := Some (trim (inputMint st)) |}
  else st.

(** The input's key handler:
    [if (e.key === 'Enter' && canScan) setSearchedMint(inputMint.trim())]. *)
Definition keyDown (enter : bool) (st : Scanner) : Scanner :=
  if enter && canScan st
  then {| inputMint := inputMint st; searchedMint := Some (trim (inputMint st)) |}
  else st.

(** The Clear button: [setInputMint(''); setSearchedMint(null)]. *)
Definition clickClear (st : Scanner) : Scanner :=
  {| inputMint := []; searchedMint := None |}.

End Scan.

(** ** The ledger both views read *)

Module Ledger.

Inductive Side := buy | sell.

Record HistoryItem := {
  id : string;
  ts : float;
  side : Side;
  mint : string;
  name : option string;
  symbol : option string;
  price : float;
  qty : float;
  value : float;
  fee : option float;
  marketCap : option float
}.

Record Deposit := { depositTs : float; amount : float }.

Definition isBuy (h : HistoryItem) : bool :=
  match side h with buy => true | sell => false end.

Definition isSell (h : HistoryItem) : bool :=
  match side h with sell => true | buy => false end.

(** [Number(h.value) || 0], [Number(h.qty) || 0], [Number(h.price) || 0] and
    [Number(h.fee) || 0]. *)
Definition valueOf (h : HistoryItem) : float := JS.orZero (value h).
Definition qtyOf (h : HistoryItem) : float := JS.orZero (qty h).
Definition priceOf (h : HistoryItem) : float := JS.orZero (price h).
Definition feeOf (h : HistoryItem) : float := JS.orZero (JS.Number (fee h)).

(** [xs.reduce((a, x) => a + f(x), 0)] *)
Definition sumBy {A : Type} (f : A -> float) (xs : list A) : float :=
  fold_left (fun a x => a + f x) xs 0.

(** [xs.slice().sort(cmp)]: the sort is stable, and a positive [cmp a b]
    puts [a] after [b]; NaN counts as 0.  For a comparator that orders the
    elements consistently every stable sort returns the array this
    insertion sort returns. *)
Fixpoint insertBy {A : Type} (cmp : A -> A -> float) (x : A) (sorted : list A)
  : list A :=
  match sorted with
  | [] => [x]
  | y :: rest =>
      if JS.gt (cmp y x) 0 then x :: sorted else y :: insertBy cmp x rest
  end.

Definition sortBy {A : Type} (cmp : A -> A -> float) (xs : list A) : list A :=
  fold_left (fun acc x => insertBy cmp x acc) xs [].

End Ledger.

(** ** ActivityAggregator: [groupedActivity] of App.tsx *)

Module App.

(** The accumulator kept per mint while the history is walked. *)
Record Group := {
  mint : string;
  name : option string;
  symbol : option string;
  buys : list Ledger.HistoryItem;
  sells : list Ledger.HistoryItem;
  lastTs : float;
  totalBuyQty : float;
  totalSellQty : float;
  lastAction : option Ledger.Side
}.

(** Truthiness of a [string | undefined]: the empty string is falsy. *)
Definition strTruthy (s : option string) : bool :=
  match s with
  | Some EmptyString | None => false
  | Some _ => true
  end.

(** The group made for a mint seen for the first time. *)
Definition fresh (h : Ledger.HistoryItem) : Group :=
  {| mint := Ledger.mint h; name := Ledger.name h; symbol := Ledger.symbol h;
     buys := []; sells := []; lastTs := Ledger.ts h;
     totalBuyQty := 0; totalSellQty := 0;
     lastAction := Some (Ledger.side h) |}.

(** The body of the loop on a group: the statements in source order.  The
    guard [typeof h.qty === 'number'] holds of a [qty] of type number. *)
Definition absorb (h : Ledger.HistoryItem) (g : Group) : Group :=
  let isB := Ledger.isBuy h in
  let lastTs' := if JS.gt (Ledger.ts h) (lastTs g) then Ledger.ts h else lastTs g in
  {| mint := mint g;
     name := if negb (strTruthy (name g)) && strTruthy (Ledger.name h)
             then Ledger.name h else name g;
     symbol := if negb (strTruthy (symbol g)) && strTruthy (Ledger.symbol h)
               then Ledger.symbol h else symbol g;
     buys := if isB then buys g ++ [h] else buys g;
     sells := if isB then sells g else sells g ++ [h];
     lastTs := lastTs';
     totalBuyQty := if isB then totalBuyQty g + Ledger.qtyOf h else totalBuyQty g;
     totalSellQty := if isB then totalSellQty g else totalSellQty g + Ledger.qtyOf h;
     lastAction := if JS.ge (Ledger.ts h) lastTs' then Some (Ledger.side h)
                   else lastAction g |}.

(** The [Map] from mint to group: it iterates in insertion order, and
    setting a key it already holds keeps the key's place. *)
Definition GroupMap : Type := list (string * Group).

Fixpoint get (m : GroupMap) (k : string) : option Group :=
  match m with
  | [] => None
  | (k', g) :: rest => if String.eqb k' k then Some g else get rest k
  end.

Fixpoint set (m : GroupMap) (k : string) (g : Group) : GroupMap :=
  match m with
  | [] => [(k, g)]
  | (k', g') :: rest =>
      if String.eqb k' k then (k', g) :: rest else (k', g') :: set rest k g
  end.

(** One turn of [for (const h of hist)]. *)
Definition visit (m : GroupMap) (h : Ledger.HistoryItem) : GroupMap :=
  let g := match get m (Ledger.mint h) with Some g => g | None => fresh h end in
  set m (Ledger.mint h) (absorb h g).

Definition values (m : GroupMap) : list Group := map snd m.

(** What the [map] callback adds to a group. *)
Record Item := {
  group : Group;
  buyCost : float;
  sellProceeds : float;
  fees : float;
  pnl : float;
  pnlPct : option float;
  buyWeightedPrice : option float;
  sellWeightedPrice : option float;
  lastBuy : option Ledger.HistoryItem;
  lastSell : option Ledger.HistoryItem
}.

(** The quantity-weighted average price of one side. *)
Definition weightedPrice (xs : list Ledger.HistoryItem) : option float :=
  let totalQty := Ledger.sumBy Ledger.qtyOf xs in
  if JS.le totalQty 0 then None
  else
    let totalValue :=
      Ledger.sumBy (fun x => Ledger.priceOf x * Ledger.qtyOf x) xs in
    Some (totalValue / totalQty).

(** [xs.slice().sort((a,b) => b.ts - a.ts)[0]] *)
Definition latest (xs : list Ledger.HistoryItem) : option Ledger.HistoryItem :=
  hd_error (Ledger.sortBy (fun a b => Ledger.ts b - Ledger.ts a) xs).

Definition summarize (g : Group) : Item :=
  let buyCost := Ledger.sumBy Ledger.valueOf (buys g) in
  let sellProceeds := Ledger.sumBy Ledger.valueOf (sells g) in
  let fees := Ledger.sumBy Ledger.feeOf (buys g ++ sells g) in
  let pnl := sellProceeds - buyCost - fees in
  {| group := g;
     buyCost := buyCost;
     sellProceeds := sellProceeds;
     fees := fees;
     pnl := pnl;
     pnlPct := if JS.gt buyCost 0 then Some ((pnl / buyCost) * 100) else None;
     buyWeightedPrice := weightedPrice (buys g);
     sellWeightedPrice := weightedPrice (sells g);
     lastBuy := latest (buys g);
     lastSell := latest (sells g) |}.

Definition groupedActivity (hist : list Ledger.HistoryItem) : list Item :=
  let m := fold_left visit hist [] in
  let items := map summarize (values m) in
  Ledger.sortBy (fun a b => lastTs (group b) - lastTs (group a)) items.

End App.

(** ** TimeframeAggregator and the ledger-wide aggregates of
       PortfolioAnalyzer.tsx *)

Module PortfolioAnalyzer.

Record AppState := {
  balance : float;
  history : list Ledger.HistoryItem;
  deposits : list Ledger.Deposit
}.

(** [data?.history || []] and [data?.deposits || []] *)
Definition historyOf (data : option AppState) : list Ledger.HistoryItem :=
  match data with Some d => history d | None => [] end.

Definition depositsOf (data : option AppState) : list Ledger.Deposit :=
  match data with Some d => deposits d | None => [] end.

Definition depositsTotal (data : option AppState) : float :=
  Ledger.sumBy (fun d => JS.orZero (Ledger.amount d)) (depositsOf data).

Definition buyCost (data : option AppState) : float :=
  Ledger.sumBy Ledger.valueOf (filter Ledger.isBuy (historyOf data)).

Definition sellProceeds (data : option AppState) : float :=
  Ledger.sumBy Ledger.valueOf (filter Ledger.isSell (historyOf data)).

Definition totalFees (data : option AppState) : float :=
  Ledger.sumBy Ledger.feeOf (historyOf data).

Definition realizedPnL (data : option AppState) : float :=
  sellProceeds data - buyCost data - totalFees data.

(** [Number(data?.user?.balance ?? 0) - depositsTotal] *)
Definition profit (data : option AppState) : float :=
  match data with Some d => balance d | None => 0 end - depositsTotal data.

Inductive Timeframe := tf_all | tf_7d | tf_24h | tf_12h | tf_6h | tf_1h.

(** The start of the window: an offset from [now = Date.now()], and 0 for
    the unbounded window. *)
Definition windowStart (timeframe : Timeframe) (now : float) : float :=
  match timeframe with
  | tf_1h => now - 1 * 3600000
  | tf_6h => now - 6 * 3600000
  | tf_12h => now - 12 * 3600000
  | tf_24h => now - 24 * 3600000
  | tf_7d => now - 7 * 24 * 3600000
  | tf_all => 0
  end.

(** The three running sums of the loop. *)
Record Sums := { sumBuys : float; sumSells : float; sumFees : float }.

(** The body of [for (const h of hist)]. *)
Definition accumulate (start : float) (acc : Sums) (h : Ledger.HistoryItem) : Sums :=
  if JS.ge (Ledger.ts h) start then
    {| sumBuys := sumBuys acc + (if Ledger.isBuy h then Ledger.valueOf h else 0);
       sumSells := sumSells acc + (if Ledger.isSell h then Ledger.valueOf h else 0);
       sumFees := sumFees acc + Ledger.feeOf h |}
  else acc.

Record Stats := { pnl : float; roi : option float }.

(** The loop and what follows it, for a given window start. *)
Definition statsFrom (start : float) (hist : list Ledger.HistoryItem) : Stats :=
  let acc :=
    fold_left (accumulate start) hist
      {| sumBuys := 0; sumSells := 0; sumFees := 0 |} in
  let pnl := sumSells acc - sumBuys acc - sumFees acc in
  {| pnl := pnl;
     roi := if JS.gt (sumBuys acc) 0 then Some ((pnl / sumBuys acc) * 100)
            else None |}.

Definition timeframeStats (data : option AppState) (timeframe : Timeframe)
    (now : float) : Stats :=
  statsFrom (windowStart timeframe now) (historyOf data).

End PortfolioAnalyzer.

(** ** String helpers of App.tsx: [shortAddress] and [truncate] *)

Module Text.

Local Open Scope Z_scope.

(** How [slice] reads an index: a negative one counts from the end, and
    both are clamped to the string. *)
Definition clampIndex (len i : Z) : Z :=
  if i <? 0 then Z.max (len + i) 0 else Z.min i len.

(** [s.slice(start, stop)] *)
Definition slice (s : Scan.jsstring) (start stop : Z) : Scan.jsstring :=
  let len := Z.of_nat (List.length s) in
  let from := clampIndex len start in
  let to := clampIndex len stop in
  firstn (Z.to_nat (to - from)) (skipn (Z.to_nat from) s).

(** [s.slice(start)] *)
Definition sliceFrom (s : Scan.jsstring) (start : Z) : Scan.jsstring :=
  slice s start (Z.of_nat (List.length s)).

(** The horizontal ellipsis, one code unit. *)
Definition ellipsis : N := 0x2026%N.

(** [shortAddress(addr, left = 4, right = 4)]; the arguments are integers at
    every call. *)
Definition shortAddress (addr : Scan.jsstring) (left right : Z) : Scan.jsstring :=
  match addr with
  | [] => []
  | _ =>
      if Z.of_nat (List.length addr) <=? left + right + 1 then addr
      else slice addr 0 left ++ [ellipsis] ++ sliceFrom addr (- right)
  end.

(** [truncate(s, max = 18)] *)
Definition truncate (s : Scan.jsstring) (max : Z) : Scan.jsstring :=
  match s with
  | [] => []
  | _ =>
      if Z.of_nat (List.length s) >? max then slice s 0 (max - 1) ++ [ellipsis]
      else s
  end.

End Text.

(** ** The first revision of the scanner's verdict *)

Module ScannerV1.

(** The parameters of the first [computeHealthVerdict]: no age, no market
    cap. *)
Record HealthParams := {
  volToMc : option float;
  lpLockedPct : option float;
  tx24 : option float;
  priceCh24 : option float;
  dexLabel : option HealthScorer.DexLabel
}.

(** Its five rules are, statement for statement, the first five of the
    last revision. *)
Definition runRules (p : HealthParams) : HealthScorer.Acc :=
  HealthScorer.dexRule (dexLabel p)
    (HealthScorer.priceRule (priceCh24 p)
       (HealthScorer.txRule (tx24 p)
          (HealthScorer.lpRule (lpLockedPct p)
             (HealthScorer.volRule (volToMc p) (50, []))))).

Definition computeHealthVerdict (p : HealthParams) : HealthScorer.HealthVerdict :=
  let st := runRules p in
  {| HealthScorer.label := HealthScorer.labelOf (fst st);
     HealthScorer.reasons := snd st |}.

End ScannerV1.

(** ** The derived metrics of the scanner (last revision) *)

Module ScannerView.

Record DexTxnsWindow := { buys : float; sells : float }.

Record DexTxns := { h1 : option DexTxnsWindow; h24 : option DexTxnsWindow }.

Record DexVolume := { vol_h24 : option float }.

Record DexEntry := {
  txns : option DexTxns;
  volume : option DexVolume;
  priceChange_h24 : option float;   (* priceChange?.['h24'] *)
  pairCreatedAt : option float
}.

Record DexRisk := { riskLabel : HealthScorer.DexLabel }.

Record DexResponse := { dex : option DexEntry; risk : option DexRisk }.

(** What one render of the scanner reads. *)
Record Inputs := {
  report : option MemeScanner.RugReport;
  lpLocked : option float;          (* report?.markets?.[0]?.lpLockedPct *)
  priceResp : option MemeScanner.PriceResp;
  dexResp : option DexResponse;
  now : float                       (* Date.now() *)
}.

Definition txnsOf (d : option DexResponse) : option DexTxns :=
  match d with
  | Some r => match dex r with Some e => txns e | None => None end
  | None => None
  end.

(** [Number(w?.buys ?? 0)] and [Number(w?.sells ?? 0)] *)
Definition buysOf (w : option DexTxnsWindow) : float :=
  match w with Some x => buys x | None => 0 end.

Definition sellsOf (w : option DexTxnsWindow) : float :=
  match w with Some x => sells x | None => 0 end.

Definition tx24 (d : option DexResponse) : option float :=
  let t := txnsOf d in
  let w24 := match t with Some x => h24 x | None => None end in
  let total := buysOf w24 + sellsOf w24 in
  if JS.gt total 0 then Some total
  else
    let w1 := match t with Some x => h1 x | None => None end in
    let est := (buysOf w1 + sellsOf w1) * 24 in
    if JS.gt est 0 then Some est else None.

(** [typeof v === 'number' && isFinite(v) ? v : null] *)
Definition finiteOrNull (v : option float) : option float :=
  match v with
  | Some x => if JS.isFinite x then Some x else None
  | None => None
  end.

Definition vol24 (d : option DexResponse) : option float :=
  finiteOrNull
    match d with
    | Some r =>
        match dex r with
        | Some e => match volume e with Some v => vol_h24 v | None => None end
        | None => None
        end
    | None => None
    end.

Definition priceCh24 (d : option DexResponse) : option float :=
  finiteOrNull
    match d with
    | Some r => match dex r with Some e => priceChange_h24 e | None => None end
    | None => None
    end.

Definition dexLabelOf (d : option DexResponse) : option HealthScorer.DexLabel :=
  match d with
  | Some r => match risk r with Some k => Some (riskLabel k) | None => None end
  | None => None
  end.

Section Derived.

(** [Math.pow] and [Math.floor], parameters of the model. *)
Variable pow : float -> float -> float.
Variable floor : float -> float.

Definition supply (i : Inputs) : float := MemeScanner.supply pow (report i).

Definition priceUsd (i : Inputs) : option float := MemeScanner.priceUsd (priceResp i).

(** [if (priceUsd == null || supply == null) return null;
     return priceUsd * supply] *)
Definition marketCap (i : Inputs) : option float :=
  match priceUsd i with
  | Some p => Some (p * supply i)
  | None => None
  end.

(** The age of the pair in minutes. *)
Definition ageMin (i : Inputs) : option float :=
  let createdAt :=
    JS.Number
      match dexResp i with
      | Some r => match dex r with Some e => pairCreatedAt e | None => None end
      | None => None
      end in
  if negb (JS.isFinite createdAt) || JS.le createdAt 0 then None
  else
    let ms := now i - createdAt in
    if JS.gt ms 0 then Some (floor (ms / 60000)) else None.

Definition volToMc (i : Inputs) : option float :=
  match vol24 (dexResp i), marketCap i with
  | Some v, Some mc => if JS.gt mc 0 then Some (v / mc) else None
  | _, _ => None
  end.

Definition healthParams (i : Inputs) : HealthScorer.HealthParams :=
  {| HealthScorer.volToMc := volToMc i;
     HealthScorer.lpLockedPct := lpLocked i;
     HealthScorer.tx24 := tx24 (dexResp i);
     HealthScorer.priceCh24 := priceCh24 (dexResp i);
     HealthScorer.dexLabel := dexLabelOf (dexResp i);
     HealthScorer.ageMin := ageMin i;
     HealthScorer.marketCap := marketCap i |}.

Definition health (i : Inputs) : HealthScorer.HealthVerdict :=
  HealthScorer.computeHealthVerdict (healthParams i).

Record Recommendation := { headline : string; vibe : string; tips : list string }.

(** [cond ? tips.push(t)] *)
Definition pushIf (cond : bool) (t : string) (ts : list string) : list string :=
  if cond then ts ++ [t] else ts.

(** [x != null && test(x)] *)
Definition holds (x : option float) (test : float -> bool) : bool :=
  match x with Some v => test v | None => false end.

Definition oldAndSmall (i : Inputs) : bool :=
  holds (ageMin i) (fun a => JS.gt a 50)
  && holds (marketCap i) (fun m => JS.lt m 20000).

Definition recommendation (i : Inputs) : Recommendation :=
  let label := HealthScorer.label (health i) in
  let locked := lpLocked i in
  let tx := tx24 (dexResp i) in
  let tips :=
    match label with
    | HealthScorer.SAFE =>
        pushIf (holds tx (fun t => JS.ge t 1000)) "Active market conditions"
          (pushIf (holds locked (fun l => JS.ge l 75)) "LP lock strong"
             ["Gradual entry (DCA) with stops"%string])
    | HealthScorer.RISKY =>
        pushIf (oldAndSmall i) "Older microcap; elevated risk"
          (pushIf (holds (volToMc i) (fun v => JS.lt v HealthScorer.c0_2)) "Weak vol/MC"
             (pushIf (holds locked (fun l => JS.lt l 25)) "Low LP lock"
                ["Wait for confirmation (volume or LP)"%string]))
    | HealthScorer.UNSAFE =>
        pushIf (holds (priceCh24 (dexResp i)) (fun c => JS.lt c (-60))) "Heavy dumping"
          (pushIf (holds (priceCh24 (dexResp i)) (fun c => JS.gt c 400)) "Extreme pump risk"
             (pushIf (oldAndSmall i) "Old and sub-$20k market"
                ["Avoid for now"%string]))
    end in
  {| headline := match label with
                 | HealthScorer.SAFE => "Safe Recommendation"
                 | HealthScorer.RISKY => "Caution Recommendation"
                 | HealthScorer.UNSAFE => "High-Risk Recommendation"
                 end;
     vibe := match label with
             | HealthScorer.SAFE => "cool"
             | HealthScorer.RISKY => "cautious"
             | HealthScorer.UNSAFE => "unsafe"
             end;
     tips := tips |}.

(** The state behind the supply tile: [supplyStable] and the dependency the
    effect last ran with. *)
Record StickySupply := { supplyStable : option float; lastSupply : option float }.

Definition mountedSupply : StickySupply :=
  {| supplyStable := None; lastSupply := None |}.

(** The effect
    [if (typeof supply === 'number' && isFinite(supply) && supply > 0)
       setSupplyStable(supply)]
    with dependencies [[supply]]. *)
Definition supplyEffect (st : StickySupply) (live : float) : StickySupply :=
  let changed :=
    match lastSupply st with
    | None => true
    | Some d => negb (JS.objectIs d live)
    end in
  if changed then
    {| supplyStable := if JS.isFinite live && JS.gt live 0 then Some live
                       else supplyStable st;
       lastSupply := Some live |}
  else st.

(** [supplyStable ?? supply], what the supply tile formats. *)
Definition shownSupply (st : StickySupply) (live : float) : float :=
  JS.nullish (supplyStable st) live.

(** The state after the renders of a session, one report per render. *)
Definition supplyTicks (st : StickySupply) (reports : list (option MemeScanner.RugReport))
  : StickySupply :=
  fold_left (fun s r => supplyEffect s (MemeScanner.supply pow r)) reports st.

End Derived.

End ScannerView.

(** ** TradePanel: the percentage and the market cap at entry *)

Module TradeView.

(** [if (!qtyHeld || !currentPrice || !avgPrice) return null;
     if (avgPrice <= 0) return null;
     return ((currentPrice - avgPrice) / avgPrice) * 100] *)
Definition pnlPct (v : TradePanel.Panel) : option float :=
  match TradePanel.currentPrice v with
  | Some cp =>
      if negb (JS.truthy (TradePanel.qtyHeld v)) || negb (JS.truthy cp)
         || negb (JS.truthy (TradePanel.avgEntry v))
      then None
      else if JS.le (TradePanel.avgEntry v) 0 then None
      else Some (((cp - TradePanel.avgEntry v) / TradePanel.avgEntry v) * 100)
  | None => None
  end.

(** [if (marketCap == null || !avgPrice || !currentPrice || currentPrice === 0)
       return null;
     return marketCap * (avgPrice / currentPrice)] *)
Definition estBoughtMCap (marketCap : option float) (v : TradePanel.Panel)
  : option float :=
  match marketCap, TradePanel.currentPrice v with
  | Some mc, Some cp =>
      if negb (JS.truthy (TradePanel.avgEntry v)) || negb (JS.truthy cp)
         || (cp =? 0)
      then None
      else Some (mc * (TradePanel.avgEntry v / cp))
  | _, _ => None
  end.

End TradeView.

(** ** PortfolioAnalyzer: last prices, positions and their distribution *)

Module Positions.

(** An entry of [lastPriceByMint]. *)
Record LastPrice := { ts : float; price : float }.

(** The own properties of the accumulator object. *)
Definition PriceMap : Type := list (string * LastPrice).

Fixpoint own (acc : PriceMap) (k : string) : option LastPrice :=
  match acc with
  | [] => None
  | (k', e) :: rest => if String.eqb k' k then Some e else own rest k
  end.

Fixpoint assign (acc : PriceMap) (k : string) (e : LastPrice) : PriceMap :=
  match acc with
  | [] => [(k, e)]
  | (k', e') :: rest =>
      if String.eqb k' k then (k', e) :: rest else (k', e') :: assign rest k e
  end.

(** What [acc[k]] finds. *)
Inductive Found := Own (e : LastPrice) | Inherited | Missing.

Section Records.

(** The accumulator is a plain object: a key that names a property of
    [Object.prototype] reads as that property when the object has no own
    one.  Which keys these are is the environment's; all of them read as
    objects or functions. *)
Variable inherited : string -> bool.

Definition lookup (acc : PriceMap) (k : string) : Found :=
  match own acc k with
  | Some e => Own e
  | None => if inherited k then Inherited else Missing
  end.

(** The reducer: an inherited property is truthy and its [ts] is
    [undefined], which no number exceeds. *)
Definition record (acc : PriceMap) (h : Ledger.HistoryItem) : PriceMap :=
  if JS.isFinite (Ledger.price h) then
    let fresh := {| ts := Ledger.ts h; price := Ledger.price h |} in
    match lookup acc (Ledger.mint h) with
    | Own prev =>
        if JS.gt (Ledger.ts h) (ts prev) then assign acc (Ledger.mint h) fresh
        else acc
    | Inherited => acc
    | Missing => assign acc (Ledger.mint h) fresh
    end
  else acc.

Definition lastPriceByMint (hist : list Ledger.HistoryItem) : PriceMap :=
  fold_left record hist [].

(** [lastPriceByMint[mint]?.price] *)
Definition lastOf (m : PriceMap) (mint : string) : option float :=
  match lookup m mint with
  | Own e => Some (price e)
  | Inherited | Missing => None
  end.

Record PositionWithPnl := {
  mint : string;
  position : TradePanel.Position;
  lastPrice : option float;
  pnlPct : option float
}.

Definition withPnl (m : PriceMap) (entry : string * TradePanel.Position)
  : PositionWithPnl :=
  let (mint, p) := entry in
  let last := lastOf m mint in
  {| mint := mint; position := p; lastPrice := last;
     pnlPct :=
       match last with
       | Some l =>
           if JS.gt (TradePanel.avgPrice p) 0
           then Some (((l - TradePanel.avgPrice p) / TradePanel.avgPrice p) * 100)
           else None
       | None => None
       end |}.

Definition positionsWithPnl (hist : list Ledger.HistoryItem)
    (positions : list (string * TradePanel.Position)) : list PositionWithPnl :=
  map (withPnl (lastPriceByMint hist)) positions.

End Records.

(** The three counters of the distribution. *)
Record Dist := { over200 : nat; between : nat; under0 : nat }.

Definition bucket (d : Dist) (p : PositionWithPnl) : Dist :=
  match pnlPct p with
  | None => d
  | Some v =>
      if JS.gt v 200
      then {| over200 := S (over200 d); between := between d; under0 := under0 d |}
      else if JS.ge v 0
      then {| over200 := over200 d; between := S (between d); under0 := under0 d |}
      else {| over200 := over200 d; between := between d; under0 := S (under0 d) |}
  end.

Definition dist (ps : list PositionWithPnl) : Dist :=
  fold_left bucket ps {| over200 := 0; between := 0; under0 := 0 |}.

End Positions.

(** * Vocabulary of the statements

    Example inputs and the predicates the theorems are stated with. *)

(** ** Integers the score holds exactly *)

Definition zrange (lo : Z) (n : nat) : list Z :=
  map (fun k => (lo + Z.of_nat k)%Z) (seq 0 n).

(** The interval every intermediate score stays in, with room to spare. *)
Definition inRange (s : Z) : Prop := (-100 <= s < 200)%Z.

Definition scoreRange : list Z := zrange (-100) 300.

Definition exactUp (d : Z) : bool :=
  forallb (fun s => Leibniz.eqb (Z2F s + Z2F d) (Z2F (s + d))) scoreRange.

Definition exactDown (d : Z) : bool :=
  forallb (fun s => Leibniz.eqb (Z2F s - Z2F d) (Z2F (s - d))) scoreRange.

Definition thresholdsAgree : bool :=
  forallb (fun s => Bool.eqb (JS.ge (Z2F s) 70) (70 <=? s)%Z
                    && Bool.eqb (JS.le (Z2F s) 40) (s <=? 40)%Z) scoreRange.

(** ** HealthScorer *)

Section HealthVocabulary.
Import HealthScorer.

(** The score as a sum of integers: the baseline, and for each rule of
    [computeHealthVerdict] the points it adds under the guards it has in the
    source. *)

Local Open Scope Z_scope.

Definition volAdj (v : option float) : Z :=
  match v with
  | Some x =>
      if JS.isFinite x then
        if JS.ge x 1%float then 20 else if JS.ge x c0_2 then 5 else -20
      else 0
  | None => 0
  end.

Definition lpAdj (v : option float) : Z :=
  match v with
  | Some x => if JS.ge x 75%float then 15 else if JS.lt x 25%float then -15 else 0
  | None => 0
  end.

Definition txAdj (v : option float) : Z :=
  match v with
  | Some x =>
      if JS.isFinite x then
        if JS.ge x 1000%float then 5 else if JS.lt x 50%float then -5 else 0
      else 0
  | None => 0
  end.

Definition pumpAdj (v : option float) : Z :=
  match v with
  | Some x => if JS.isFinite x && JS.gt x 400%float then -10 else 0
  | None => 0
  end.

Definition dumpAdj (v : option float) : Z :=
  match v with
  | Some x => if JS.isFinite x && JS.lt x (-60)%float then -10 else 0
  | None => 0
  end.

Definition dexAdj (l : option DexLabel) : Z :=
  match l with
  | Some safe => 5
  | Some danger => -10
  | _ => 0
  end.

Definition compoundAdj (a m : option float) : Z :=
  if compoundGuard a m then -10 else 0.

Definition baseline : Z := 50.

Definition scoreBeforeCompound (p : HealthParams) : Z :=
  baseline + volAdj (volToMc p) + lpAdj (lpLockedPct p) + txAdj (tx24 p)
  + pumpAdj (priceCh24 p) + dumpAdj (priceCh24 p) + dexAdj (dexLabel p).

Definition additiveScore (p : HealthParams) : Z :=
  scoreBeforeCompound p + compoundAdj (ageMin p) (marketCap p).

Local Close Scope Z_scope.

(** The inputs of the two worked examples of the specification. *)
Definition exampleSafe : HealthParams :=
  {| volToMc := Some 1.5; lpLockedPct := Some 80; tx24 := Some 1200;
     priceCh24 := Some 5; dexLabel := Some safe;
     ageMin := None; marketCap := None |}.

Definition exampleUnsafe : HealthParams :=
  {| volToMc := Some 0x1.999999999999ap-4 (* 0.1 *);
     lpLockedPct := Some 10; tx24 := Some 10;
     priceCh24 := Some 500; dexLabel := Some danger;
     ageMin := Some 60; marketCap := Some 10000 |}.

(** The condition under which the source applies the compound rule:
    [ageMin] is a number above 50 (so not NaN, but possibly +Infinity) and
    [marketCap] is a finite number below 20000. *)
Definition compoundFires (p : HealthParams) : Prop :=
  exists a m, ageMin p = Some a /\ marketCap p = Some m /\
    JS.gt a 50 = true /\ JS.isFinite m = true /\ JS.lt m 20000 = true.

End HealthVocabulary.

(** ** HealthScorer: the score as the specification words it *)

Section DocumentedVocabulary.
Import HealthScorer.
Local Open Scope Z_scope.

(** "[volToMc >= 1] gives +20; [>= 0.2] gives +5; else -20.  Only applied
    if the ratio is a finite number." *)
Definition documentedVol (v : option float) : Z :=
  match v with
  | Some x =>
      if JS.isFinite x then
        if JS.ge x 1%float then 20
        else if JS.ge x 0x1.999999999999ap-3%float then 5 else -20
      else 0
  | None => 0
  end.

(** "[lpLockedPct >= 75] gives +15; [< 25] gives -15.  No adjustment in
    the 25-75 band." *)
Definition documentedLp (v : option float) : Z :=
  match v with
  | Some x => if JS.ge x 75%float then 15 else if JS.lt x 25%float then -15 else 0
  | None => 0
  end.

(** "[tx24 >= 1000] gives +5; [< 50] gives -5." *)
Definition documentedTx (v : option float) : Z :=
  match v with
  | Some x => if JS.ge x 1000%float then 5 else if JS.lt x 50%float then -5 else 0
  | None => 0
  end.

(** "[priceCh24 > 400] gives -10; [priceCh24 < -60] gives -10.  Both
    conditions are independently testable." *)
Definition documentedPrice (v : option float) : Z :=
  match v with
  | Some x =>
      (if JS.gt x 400%float then -10 else 0)
      + (if JS.lt x (-60)%float then -10 else 0)
  | None => 0
  end.

(** "external risk label [safe] gives +5; [danger] gives -10." *)
Definition documentedDex (l : option DexLabel) : Z :=
  match l with
  | Some safe => 5
  | Some danger => -10
  | _ => 0
  end.

(** "if [ageMin > 50] AND [marketCap < 20000], -10.  This rule requires
    both conditions to be present and finite; either missing skips the
    rule." *)
Definition documentedCompound (a m : option float) : Z :=
  match a, m with
  | Some x, Some y =>
      if JS.isFinite x && JS.isFinite y && JS.gt x 50%float && JS.lt y 20000%float
      then -10 else 0
  | _, _ => 0
  end.

(** "start at a baseline score of 50.  Apply independent additive
    adjustments." *)
Definition documentedScore (p : HealthParams) : Z :=
  50 + documentedVol (volToMc p) + documentedLp (lpLockedPct p)
  + documentedTx (tx24 p) + documentedPrice (priceCh24 p)
  + documentedDex (dexLabel p) + documentedCompound (ageMin p) (marketCap p).

(** The amended wording: the transaction and the price-change adjustments
    are for finite values only, as the volume one is; the compound
    adjustment asks a finite market cap below 20000 and an age above 50,
    +Infinity included. *)
Definition finiteOnly (v : option float) : option float :=
  match v with
  | Some x => if JS.isFinite x then Some x else None
  | None => None
  end.

Definition amendedCompound (a m : option float) : Z :=
  match a, m with
  | Some x, Some y =>
      if JS.gt x 50%float && JS.isFinite y && JS.lt y 20000%float then -10 else 0
  | _, _ => 0
  end.

Definition amendedScore (p : HealthParams) : Z :=
  50 + documentedVol (volToMc p) + documentedLp (lpLockedPct p)
  + documentedTx (finiteOnly (tx24 p)) + documentedPrice (finiteOnly (priceCh24 p))
  + documentedDex (dexLabel p) + amendedCompound (ageMin p) (marketCap p).

(** A value that is missing, NaN or finite. *)
Definition notInfinite (v : option float) : Prop :=
  forall x, v = Some x -> is_infinity x = false.

(** A strong volume ratio with a price change of +Infinity, and a high LP
    lock with a transaction count of +Infinity. *)
Definition infinitePump : HealthParams :=
  {| volToMc := Some 1%float; lpLockedPct := None; tx24 := None;
     priceCh24 := Some infinity; dexLabel := None;
     ageMin := None; marketCap := None |}.

Definition infiniteTx : HealthParams :=
  {| volToMc := None; lpLockedPct := Some 80%float; tx24 := Some infinity;
     priceCh24 := None; dexLabel := None;
     ageMin := None; marketCap := None |}.

End DocumentedVocabulary.

(** ** TradePanel *)

Section TradeVocabulary.
Import TradePanel.

(** A panel where the Buy button is enabled although cost plus fee exceeds
    the balance: price 1, 10 USD typed, balance 10. *)
Definition tightPanel : Panel :=
  {| mint := "So11111111111111111111111111111111111111112";
     currentPrice := Some 1; pos := None;
     userBalance := Some 10; usd := 10 |}.

End TradeVocabulary.

(** ** MemeScanner *)

Section ScannerVocabulary.
Import MemeScanner.

(** The last valid sample of a session, if any. *)
Definition lastValid (lives : list (option float)) : option float :=
  fold_left (fun acc x => if validPrice x then x else acc) lives None.

(** What the state knows: the sticky value, and that a valid dependency the
    effect last saw is that value. *)
Definition tracks (st : Sticky) (acc : option float) : Prop :=
  priceUsdStable st = acc /\
  forall d, lastDep st = Some d -> validPrice d = true -> acc = d.

End ScannerVocabulary.

(** ** Scan validation *)

Section ScanVocabulary.
Import Scan.

(** A Base58 character, in the words of the alphabet: a digit 1 to 9, or an
    ASCII letter other than I, O and l. *)
Definition isBase58 (c : N) : Prop :=
  (49 <= c <= 57)%N \/
  (((65 <= c <= 90)%N \/ (97 <= c <= 122)%N) /\ c <> 73%N /\ c <> 79%N /\ c <> 108%N).

(** The code units of a string of ASCII characters. *)
Definition ofAscii (s : string) : jsstring :=
  map N_of_ascii (list_ascii_of_string s).

End ScanVocabulary.

(** ** Ledger *)

Section LedgerVocabulary.
Import PortfolioAnalyzer.

(** The two trades of the worked example. *)
Definition exampleBuy : Ledger.HistoryItem :=
  {| Ledger.id := "t1"; Ledger.ts := 1700000000000; Ledger.side := Ledger.buy;
     Ledger.mint := "MintA"; Ledger.name := Some "Token A"%string;
     Ledger.symbol := Some "TKA"%string;
     Ledger.price := 2; Ledger.qty := 10; Ledger.value := 20;
     Ledger.fee := Some 0; Ledger.marketCap := None |}.

Definition exampleSell : Ledger.HistoryItem :=
  {| Ledger.id := "t2"; Ledger.ts := 1700000060000; Ledger.side := Ledger.sell;
     Ledger.mint := "MintA"; Ledger.name := None; Ledger.symbol := None;
     Ledger.price := 3; Ledger.qty := 10; Ledger.value := 30;
     Ledger.fee := None; Ledger.marketCap := None |}.

(** Every entry is inside the window that starts at [start]. *)
Definition allSince (start : float) (hist : list Ledger.HistoryItem) : Prop :=
  Forall (fun h => JS.ge (Ledger.ts h) start = true) hist.

(** A ledger whose only trade carries a timestamp below zero. *)
Definition earlySale : option AppState :=
  Some {| balance := 5;
          history := [ {| Ledger.id := "t0"; Ledger.ts := -1;
                          Ledger.side := Ledger.sell; Ledger.mint := "MintA";
                          Ledger.name := None; Ledger.symbol := None;
                          Ledger.price := 1; Ledger.qty := 5; Ledger.value := 5;
                          Ledger.fee := None; Ledger.marketCap := None |} ];
          deposits := [] |}.

Definition exampleLedger : option AppState :=
  Some {| balance := 110; history := [exampleBuy; exampleSell];
          deposits := [ {| Ledger.depositTs := 1699999990000;
                           Ledger.amount := 100 |} ] |}.

End LedgerVocabulary.

(** ** Binary64 *)

Definition emin64 : Z := SpecFloat.emin prec emax.

(** A float other than negative zero. *)
Definition notNegZero (x : float) : Prop := Prim2SF x <> S754_zero true.

(** * Vocabulary of the further properties *)

(** ** HealthScorer: adjustments and reasons *)

Section HealthMoreVocabulary.
Import HealthScorer.

(** The number of adjustments that are not 0. *)
Definition applied (p : HealthParams) : nat :=
  List.length
    (filter (fun z => negb (z =? 0)%Z)
       [volAdj (volToMc p); lpAdj (lpLockedPct p); txAdj (tx24 p);
        pumpAdj (priceCh24 p); dumpAdj (priceCh24 p); dexAdj (dexLabel p);
        compoundAdj (ageMin p) (marketCap p)]).

Definition one (z : Z) : nat := if (z =? 0)%Z then 0 else 1.

(** The parameters of the last revision that extend those of the first. *)
Definition extend (p : ScannerV1.HealthParams) (a m : option float) : HealthParams :=
  {| volToMc := ScannerV1.volToMc p; lpLockedPct := ScannerV1.lpLockedPct p;
     tx24 := ScannerV1.tx24 p; priceCh24 := ScannerV1.priceCh24 p;
     dexLabel := ScannerV1.dexLabel p; ageMin := a; marketCap := m |}.

(** The reasons one rule can append. *)
Definition volReasons (v : option float) : list string :=
  match v with
  | Some x =>
      if JS.isFinite x then
        if JS.ge x 1 then ["volume/mc strong"%string]
        else if JS.ge x c0_2 then ["volume/mc moderate"%string]
        else ["volume/mc weak"%string]
      else []
  | None => []
  end.

Definition lpReasons (v : option float) : list string :=
  match v with
  | Some x =>
      if JS.ge x 75 then ["LP locked high"%string]
      else if JS.lt x 25 then ["LP lock low"%string] else []
  | None => []
  end.

Definition txReasons (v : option float) : list string :=
  match v with
  | Some x =>
      if JS.isFinite x then
        if JS.ge x 1000 then ["tx active"%string]
        else if JS.lt x 50 then ["tx low"%string] else []
      else []
  | None => []
  end.

Definition priceReasons (v : option float) : list string :=
  match v with
  | Some x =>
      if JS.isFinite x then
        (if JS.gt x 400 then ["extreme pump"%string] else [])
        ++ (if JS.lt x (-60) then ["dumping"%string] else [])
      else []
  | None => []
  end.

Definition dexReasons (l : option DexLabel) : list string :=
  match l with
  | Some safe => ["dex risk: safe"%string]
  | Some danger => ["dex risk: danger"%string]
  | _ => []
  end.

Definition compoundReasons (a m : option float) : list string :=
  if compoundGuard a m then [compoundReason] else [].

End HealthMoreVocabulary.

(** ** The scanner of a render *)

Section ScannerViewVocabulary.
Import ScannerView.

(** The first-revision parameters the scanner's inputs contain. *)
Definition baseParams (i : Inputs) : ScannerV1.HealthParams :=
  {| ScannerV1.volToMc := None;
     ScannerV1.lpLockedPct := lpLocked i;
     ScannerV1.tx24 := tx24 (dexResp i);
     ScannerV1.priceCh24 := priceCh24 (dexResp i);
     ScannerV1.dexLabel := dexLabelOf (dexResp i) |}.

(** What the supply state knows after a render: the dependency the effect
    last saw is the sticky value. *)
Definition supplySettled (st : StickySupply) : Prop :=
  forall d, lastSupply st = Some d -> supplyStable st = Some d.

(** A report of a token with [raw] units of supply and no decimals. *)
Definition reportOf (raw : float) : option MemeScanner.RugReport :=
  Some {| MemeScanner.token :=
            Some {| MemeScanner.tokenSupply := Some raw;
                    MemeScanner.decimals := Some 0 |} |}.

(** A render before any price has arrived: an LP lock of 80 % is all the
    scanner knows. *)
Definition unpriced : Inputs :=
  {| report := None; lpLocked := Some 80; priceResp := None; dexResp := None;
     now := 1700000000000 |}.

End ScannerViewVocabulary.

(** ** Binary64 order *)

(** The comparison of two finite numbers of one sign, as an order on
    (exponent, mantissa) pairs. *)
Definition lexcmp (e1 : Z) (m1 : positive) (e2 : Z) (m2 : positive) : comparison :=
  match Z.compare e1 e2 with
  | Lt => Lt
  | Gt => Gt
  | Eq => Pos.compare_cont Eq m1 m2
  end.

(** [a] is no earlier than [b]. *)
Definition noEarlier {A : Type} (key : A -> float) (a b : A) : Prop :=
  JS.ge (key a) (key b) = true.

(** No key is NaN. *)
Definition keyed {A : Type} (key : A -> float) (l : list A) : Prop :=
  Forall (fun a => is_nan (key a) = false) l.

(** ** ActivityAggregator: groups *)

Section GroupingVocabulary.
Import App.

Definition keys (m : GroupMap) : list string := map fst m.

(** The entries of one mint, in history order. *)
Definition entriesOf (k : string) (hist : list Ledger.HistoryItem)
  : list Ledger.HistoryItem :=
  filter (fun h => String.eqb (Ledger.mint h) k) hist.

(** The loop body applied to the entries of one mint, the first of which
    creates the group. *)
Definition absorbAll (o : option Group) (hs : list Ledger.HistoryItem) : option Group :=
  fold_left
    (fun o h => Some (absorb h (match o with Some g => g | None => fresh h end)))
    hs o.

(** The items of a history, before they are sorted. *)
Definition unsorted (hist : list Ledger.HistoryItem) : list Item :=
  map summarize (values (fold_left visit hist [])).

(** What the loop keeps of the timestamps of the entries [seen] of a
    group: the latest of them, and the side of an entry that carries
    it. *)
Definition latestOf (g : Group) (seen : list Ledger.HistoryItem) : Prop :=
  is_nan (lastTs g) = false /\
  (exists h, In h seen /\ lastTs g = Ledger.ts h) /\
  (forall h, In h seen -> JS.le (Ledger.ts h) (lastTs g) = true) /\
  (exists h, In h seen /\ lastAction g = Some (Ledger.side h)
             /\ JS.ge (Ledger.ts h) (lastTs g) = true).

(** A buy of a second mint, between the two trades of the worked example. *)
Definition otherBuy : Ledger.HistoryItem :=
  {| Ledger.id := "t3"; Ledger.ts := 1700000030000; Ledger.side := Ledger.buy;
     Ledger.mint := "MintB"; Ledger.name := None; Ledger.symbol := None;
     Ledger.price := 5; Ledger.qty := 1; Ledger.value := 5;
     Ledger.fee := None; Ledger.marketCap := None |}.

(** The item of the worked example. *)
Definition tradedItem : Item :=
  summarize (absorb exampleSell (absorb exampleBuy (fresh exampleBuy))).

End GroupingVocabulary.

(** ** TimeframeAggregator: windows *)

Section WindowVocabulary.
Import PortfolioAnalyzer.

(** The entries inside the window that starts at [start]. *)
Definition inWindow (start : float) (hist : list Ledger.HistoryItem)
  : list Ledger.HistoryItem :=
  filter (fun h => JS.ge (Ledger.ts h) start) hist.

(** The same ledger with another history. *)
Definition withHistory (data : option AppState) (hist : list Ledger.HistoryItem)
  : option AppState :=
  Some {| balance := match data with Some d => balance d | None => 0 end;
          history := hist; deposits := depositsOf data |}.

End WindowVocabulary.

(** ** Positions: last prices *)

Section PositionsVocabulary.
Import Positions.

(** The entries that can set the last price of a mint. *)
Definition priced (k : string) (hist : list Ledger.HistoryItem)
  : list Ledger.HistoryItem :=
  filter (fun h => String.eqb (Ledger.mint h) k && JS.isFinite (Ledger.price h)) hist.

Definition entry (h : Ledger.HistoryItem) : LastPrice :=
  {| ts := Ledger.ts h; price := Ledger.price h |}.

(** The reducer on the entries of one mint. *)
Definition keepLatest (o : option LastPrice) (hs : list Ledger.HistoryItem)
  : option LastPrice :=
  fold_left
    (fun o h =>
       match o with
       | Some prev => if JS.gt (Ledger.ts h) (ts prev) then Some (entry h) else o
       | None => Some (entry h)
       end) hs o.

(** The positions whose percentage passes a test. *)
Definition countIf (test : float -> bool) (ps : list PositionWithPnl) : nat :=
  List.length
    (filter (fun p => match pnlPct p with Some v => test v | None => false end) ps).

(** An environment with one inherited key. *)
Definition protoKeys (k : string) : bool := String.eqb k "constructor".

End PositionsVocabulary.

(** * Theorems *)

(** ** Integers held exactly by the score *)

Lemma in_zrange lo n z :
  (lo <= z < lo + Z.of_nat n)%Z -> In z (zrange lo n).
Proof.
  intros H. unfold zrange. apply in_map_iff.
  exists (Z.to_nat (z - lo)). split; [lia|]. apply in_seq. lia.
Qed.

Lemma in_scoreRange s : inRange s -> In s scoreRange.
Proof. intros [H1 H2]. apply in_zrange. simpl. lia. Qed.

Lemma add_exact d s :
  exactUp d = true -> inRange s -> Z2F s + Z2F d = Z2F (s + d).
Proof.
  intros Hd Hs. unfold exactUp in Hd. rewrite forallb_forall in Hd.
  apply FloatAxioms.Leibniz.eqb_spec, Hd, in_scoreRange, Hs.
Qed.

Lemma sub_exact d s :
  exactDown d = true -> inRange s -> Z2F s - Z2F d = Z2F (s - d).
Proof.
  intros Hd Hs. unfold exactDown in Hd. rewrite forallb_forall in Hd.
  apply FloatAxioms.Leibniz.eqb_spec, Hd, in_scoreRange, Hs.
Qed.

Lemma thresholds_exact s :
  inRange s ->
  JS.ge (Z2F s) 70 = (70 <=? s)%Z /\ JS.le (Z2F s) 40 = (s <=? 40)%Z.
Proof.
  intros Hs.
  assert (H : thresholdsAgree = true) by (vm_compute; reflexivity).
  unfold thresholdsAgree in H. rewrite forallb_forall in H.
  specialize (H s (in_scoreRange s Hs)).
  apply andb_true_iff in H. destruct H as [H1 H2].
  split; apply eqb_prop; assumption.
Qed.

(** ** HealthScorer *)

Section HealthScorerFacts.
Import HealthScorer.

Lemma up_score (d : Z) r st s :
  exactUp d = true -> fst st = Z2F s -> inRange s ->
  fst (up (Z2F d) r st) = Z2F (s + d).
Proof. intros Hd Hst Hs. unfold up. simpl. rewrite Hst. now apply add_exact. Qed.

Lemma down_score (d : Z) r st s :
  exactDown d = true -> fst st = Z2F s -> inRange s ->
  fst (down (Z2F d) r st) = Z2F (s + - d).
Proof.
  intros Hd Hst Hs. unfold down. simpl. rewrite Hst.
  rewrite Z.add_opp_r. now apply sub_exact.
Qed.

Lemma same_score (st : Acc) s : fst st = Z2F s -> fst st = Z2F (s + 0).
Proof. now rewrite Z.add_0_r. Qed.

Ltac score_range := unfold inRange in *; lia.

Ltac score_step :=
  first
    [ assumption
    | apply same_score; score_step
    | match goal with
      | |- fst (up ?d _ _) = Z2F (_ + ?z) =>
          change d with (Z2F z); apply up_score;
          [vm_compute; reflexivity | score_step | score_range]
      | |- fst (down ?d _ _) = Z2F (_ + ?z) =>
          change d with (Z2F (- z)); change z with (- - z)%Z;
          apply down_score;
          [vm_compute; reflexivity | score_step | score_range]
      end ].

Lemma volRule_score v st s :
  fst st = Z2F s -> inRange s -> fst (volRule v st) = Z2F (s + volAdj v).
Proof.
  intros Hst Hs. unfold volRule, volAdj.
  destruct v as [x|]; [destruct (JS.isFinite x);
    [destruct (JS.ge x 1); [|destruct (JS.ge x c0_2)]|]|]; score_step.
Qed.

Lemma lpRule_score v st s :
  fst st = Z2F s -> inRange s -> fst (lpRule v st) = Z2F (s + lpAdj v).
Proof.
  intros Hst Hs. unfold lpRule, lpAdj.
  destruct v as [x|]; [destruct (JS.ge x 75); [|destruct (JS.lt x 25)]|];
    score_step.
Qed.

Lemma txRule_score v st s :
  fst st = Z2F s -> inRange s -> fst (txRule v st) = Z2F (s + txAdj v).
Proof.
  intros Hst Hs. unfold txRule, txAdj.
  destruct v as [x|]; [destruct (JS.isFinite x);
    [destruct (JS.ge x 1000); [|destruct (JS.lt x 50)]|]|]; score_step.
Qed.

Lemma volAdj_bounds v : (-20 <= volAdj v <= 20)%Z.
Proof.
  unfold volAdj. destruct v as [x|]; [destruct (JS.isFinite x);
    [destruct (JS.ge x 1); [|destruct (JS.ge x c0_2)]|]|]; lia.
Qed.

Lemma lpAdj_bounds v : (-15 <= lpAdj v <= 15)%Z.
Proof.
  unfold lpAdj.
  destruct v as [x|]; [destruct (JS.ge x 75); [|destruct (JS.lt x 25)]|]; lia.
Qed.

Lemma txAdj_bounds v : (-5 <= txAdj v <= 5)%Z.
Proof.
  unfold txAdj. destruct v as [x|]; [destruct (JS.isFinite x);
    [destruct (JS.ge x 1000); [|destruct (JS.lt x 50)]|]|]; lia.
Qed.

Lemma pumpAdj_bounds v : (-10 <= pumpAdj v <= 0)%Z.
Proof.
  unfold pumpAdj. destruct v as [x|];
    [destruct (JS.isFinite x && JS.gt x 400)|]; lia.
Qed.

Lemma dumpAdj_bounds v : (-10 <= dumpAdj v <= 0)%Z.
Proof.
  unfold dumpAdj. destruct v as [x|];
    [destruct (JS.isFinite x && JS.lt x (-60))|]; lia.
Qed.

Lemma dexAdj_bounds l : (-10 <= dexAdj l <= 5)%Z.
Proof. destruct l as [[]|]; simpl; lia. Qed.

Lemma compoundAdj_bounds a m : (-10 <= compoundAdj a m <= 0)%Z.
Proof. unfold compoundAdj. destruct (compoundGuard a m); lia. Qed.

Lemma priceRule_score v st s :
  fst st = Z2F s -> (-50 <= s < 150)%Z ->
  fst (priceRule v st) = Z2F (s + pumpAdj v + dumpAdj v).
Proof.
  intros Hst Hs. unfold priceRule, pumpAdj, dumpAdj.
  assert (Hr : inRange s) by (unfold inRange; lia).
  destruct v as [x|]; [destruct (JS.isFinite x); simpl andb|].
  - destruct (JS.gt x 400); destruct (JS.lt x (-60)); cbv zeta; score_step.
  - rewrite !Z.add_0_r. assumption.
  - rewrite !Z.add_0_r. assumption.
Qed.

Lemma dexRule_score l st s :
  fst st = Z2F s -> inRange s -> fst (dexRule l st) = Z2F (s + dexAdj l).
Proof.
  intros Hst Hs. destruct l as [[]|];
    cbv beta iota zeta delta [dexRule dexAdj]; score_step.
Qed.

Lemma compoundRule_score a m st s :
  fst st = Z2F s -> inRange s ->
  fst (compoundRule a m st) = Z2F (s + compoundAdj a m).
Proof.
  intros Hst Hs. unfold compoundRule, compoundAdj.
  destruct (compoundGuard a m); score_step.
Qed.

Lemma beforeCompound_score p :
  fst (beforeCompound p) = Z2F (scoreBeforeCompound p).
Proof.
  unfold beforeCompound, scoreBeforeCompound, baseline.
  pose proof (volAdj_bounds (volToMc p)).
  pose proof (lpAdj_bounds (lpLockedPct p)).
  pose proof (txAdj_bounds (tx24 p)).
  pose proof (pumpAdj_bounds (priceCh24 p)).
  pose proof (dumpAdj_bounds (priceCh24 p)).
  apply dexRule_score; [|unfold inRange; lia].
  apply priceRule_score; [|lia].
  apply txRule_score; [|unfold inRange; lia].
  apply lpRule_score; [|unfold inRange; lia].
  apply volRule_score; [reflexivity|unfold inRange; lia].
Qed.

Lemma scoreBeforeCompound_bounds p : (-20 <= scoreBeforeCompound p <= 95)%Z.
Proof.
  unfold scoreBeforeCompound, baseline.
  pose proof (volAdj_bounds (volToMc p)).
  pose proof (lpAdj_bounds (lpLockedPct p)).
  pose proof (txAdj_bounds (tx24 p)).
  pose proof (pumpAdj_bounds (priceCh24 p)).
  pose proof (dumpAdj_bounds (priceCh24 p)).
  pose proof (dexAdj_bounds (dexLabel p)).
  lia.
Qed.

Lemma finalScore_additive p : finalScore p = Z2F (additiveScore p).
Proof.
  unfold finalScore, runRules, additiveScore.
  pose proof (scoreBeforeCompound_bounds p).
  apply compoundRule_score; [apply beforeCompound_score|unfold inRange; lia].
Qed.

Lemma additiveScore_bounds p : (-30 <= additiveScore p <= 95)%Z.
Proof.
  unfold additiveScore.
  pose proof (scoreBeforeCompound_bounds p).
  pose proof (compoundAdj_bounds (ageMin p) (marketCap p)). lia.
Qed.

Lemma labelOf_thresholds s :
  inRange s ->
  (labelOf (Z2F s) = SAFE <-> (70 <= s)%Z) /\
  (labelOf (Z2F s) = UNSAFE <-> (s <= 40)%Z) /\
  (labelOf (Z2F s) = RISKY <-> (40 < s < 70)%Z).
Proof.
  intros Hs. destruct (thresholds_exact s Hs) as [H70 H40].
  unfold labelOf. rewrite H70, H40.
  destruct (Z.leb_spec 70 s), (Z.leb_spec s 40);
    repeat split; intros; try discriminate; try reflexivity; lia.
Qed.

(** The first worked example: 50+20+15+5+5 = 95, SAFE. *)
Example exampleSafe_verdict :
  additiveScore exampleSafe = 95%Z /\
  finalScore exampleSafe = 95 /\
  computeHealthVerdict exampleSafe
  = {| label := SAFE;
       reasons := ["volume/mc strong"; "LP locked high"; "tx active";
                   "dex risk: safe"]%string |}.
Proof. vm_compute. repeat split; reflexivity. Qed.

Lemma nan_spec x : is_nan x = true -> Prim2SF x = S754_nan.
Proof.
  unfold is_nan. rewrite FloatAxioms.eqb_spec. unfold SFeqb.
  destruct (Prim2SF x) as [s|s| |s m e]; try reflexivity.
  - discriminate.
  - destruct s; discriminate.
  - simpl. rewrite Z.compare_refl, Pos.compare_cont_refl.
    destruct s; discriminate.
Qed.

Lemma nan_not_le a b : is_nan b = true -> JS.le a b = false.
Proof.
  intros Hb. unfold JS.le. rewrite FloatAxioms.leb_spec, (nan_spec _ Hb).
  unfold SFleb. destruct (Prim2SF a); reflexivity.
Qed.

Lemma nan_not_lt_l a b : is_nan a = true -> JS.lt a b = false.
Proof.
  intros Ha. unfold JS.lt. rewrite FloatAxioms.ltb_spec, (nan_spec _ Ha).
  reflexivity.
Qed.

Lemma nan_not_lt_r a b : is_nan b = true -> JS.lt a b = false.
Proof.
  intros Hb. unfold JS.lt. rewrite FloatAxioms.ltb_spec, (nan_spec _ Hb).
  unfold SFltb. destruct (Prim2SF a); reflexivity.
Qed.

(** The amended wording describes the adjustments the source applies. *)
Lemma amendedScore_additive p : amendedScore p = additiveScore p.
Proof.
  unfold amendedScore, additiveScore, scoreBeforeCompound, baseline.
  assert (Hv : documentedVol (volToMc p) = volAdj (volToMc p)) by reflexivity.
  assert (Hl : documentedLp (lpLockedPct p) = lpAdj (lpLockedPct p)) by reflexivity.
  assert (Hd : documentedDex (dexLabel p) = dexAdj (dexLabel p)) by reflexivity.
  assert (Ht : documentedTx (finiteOnly (tx24 p)) = txAdj (tx24 p)).
  { unfold documentedTx, finiteOnly, txAdj.
    destruct (tx24 p) as [x|]; [|reflexivity].
    destruct (JS.isFinite x); reflexivity. }
  assert (Hp : documentedPrice (finiteOnly (priceCh24 p))
               = (pumpAdj (priceCh24 p) + dumpAdj (priceCh24 p))%Z).
  { unfold documentedPrice, finiteOnly, pumpAdj, dumpAdj.
    destruct (priceCh24 p) as [x|]; [|reflexivity].
    destruct (JS.isFinite x); reflexivity. }
  assert (Hc : amendedCompound (ageMin p) (marketCap p)
               = compoundAdj (ageMin p) (marketCap p)).
  { unfold amendedCompound, compoundAdj, compoundGuard.
    destruct (ageMin p) as [x|]; [|reflexivity].
    destruct (marketCap p) as [y|]; [now rewrite andb_assoc|].
    now rewrite andb_false_r. }
  rewrite Hv, Hl, Hd, Ht, Hp, Hc. lia.
Qed.

(** Away from the infinities the documented adjustments are the amended
    ones. *)
Lemma documentedTx_finiteOnly v :
  notInfinite v -> documentedTx (finiteOnly v) = documentedTx v.
Proof.
  unfold notInfinite, documentedTx, finiteOnly. intros H.
  destruct v as [x|]; [|reflexivity].
  specialize (H x eq_refl).
  unfold JS.isFinite, is_finite. rewrite H, orb_false_r.
  destruct (is_nan x) eqn:En; [|reflexivity]. cbn [negb].
  unfold JS.ge. fold (JS.le 1000 x). rewrite (nan_not_le _ _ En).
  now rewrite (nan_not_lt_l _ 50 En).
Qed.

Lemma documentedPrice_finiteOnly v :
  notInfinite v -> documentedPrice (finiteOnly v) = documentedPrice v.
Proof.
  unfold notInfinite, documentedPrice, finiteOnly. intros H.
  destruct v as [x|]; [|reflexivity].
  specialize (H x eq_refl).
  unfold JS.isFinite, is_finite. rewrite H, orb_false_r.
  destruct (is_nan x) eqn:En; [|reflexivity]. cbn [negb].
  unfold JS.gt. fold (JS.lt 400 x). rewrite (nan_not_lt_r _ _ En).
  now rewrite (nan_not_lt_l _ (-60) En).
Qed.

Lemma documentedCompound_amended a m :
  notInfinite a -> documentedCompound a m = amendedCompound a m.
Proof.
  unfold notInfinite, documentedCompound, amendedCompound. intros H.
  destruct a as [x|]; [|reflexivity]. destruct m as [y|]; [|reflexivity].
  specialize (H x eq_refl).
  unfold JS.isFinite at 1. unfold is_finite. rewrite H, orb_false_r.
  destruct (is_nan x) eqn:En; cbn [negb andb].
  - unfold JS.gt. fold (JS.lt 50 x). now rewrite (nan_not_lt_r _ _ En).
  - destruct (JS.gt x 50), (JS.isFinite y), (JS.lt y 20000); reflexivity.
Qed.

(** C1, as stated, fails: the source skips the transaction and the
    price-change adjustments on a value that is not finite, which the
    documented adjustments do not.  A strong volume ratio with a price
    change of +Infinity is SAFE with a documented score of 60; a high LP
    lock with a transaction count of +Infinity is RISKY with a documented
    score of 70. *)
Lemma computeHealthVerdict_documented_counterexample :
  documentedScore infinitePump = 60%Z /\
  computeHealthVerdict infinitePump
  = {| label := SAFE; reasons := ["volume/mc strong"%string] |} /\
  ~ (label (computeHealthVerdict infinitePump) = SAFE
     <-> (70 <= documentedScore infinitePump)%Z) /\
  documentedScore infiniteTx = 70%Z /\
  computeHealthVerdict infiniteTx
  = {| label := RISKY; reasons := ["LP locked high"%string] |} /\
  ~ (label (computeHealthVerdict infiniteTx) = SAFE
     <-> (70 <= documentedScore infiniteTx)%Z).
Proof.
  assert (H1 : documentedScore infinitePump = 60%Z) by (vm_compute; reflexivity).
  assert (H2 : computeHealthVerdict infinitePump
               = {| label := SAFE; reasons := ["volume/mc strong"%string] |})
    by (vm_compute; reflexivity).
  assert (H3 : documentedScore infiniteTx = 70%Z) by (vm_compute; reflexivity).
  assert (H4 : computeHealthVerdict infiniteTx
               = {| label := RISKY; reasons := ["LP locked high"%string] |})
    by (vm_compute; reflexivity).
  split; [exact H1|]. split; [exact H2|]. split.
  - rewrite H1, H2. cbn [label]. intros [H _]. specialize (H eq_refl). lia.
  - split; [exact H3|]. split; [exact H4|].
    rewrite H3, H4. cbn [label]. intros [_ H].
    assert (E : RISKY = SAFE) by (apply H; lia). discriminate E.
Qed.

(** C1, amended. The verdict is a function of the inputs (equal inputs give
    equal verdicts); the score the function accumulates in floating point
    is the integer [amendedScore]: the baseline 50 plus the documented
    adjustments, those of the transaction count and of the price change
    for finite values only, the compound one for an age above 50 and a
    finite market cap below 20000; the label is SAFE exactly when that
    score is at least 70, UNSAFE exactly when it is at most 40, RISKY
    exactly in between; and when none of [tx24], [priceCh24] and [ageMin]
    is infinite that score is the documented one. *)
Theorem computeHealthVerdict_thresholds (p q : HealthParams) (Hpq : p = q) :
  computeHealthVerdict p = computeHealthVerdict q /\
  finalScore p = Z2F (amendedScore p) /\
  (label (computeHealthVerdict p) = SAFE <-> (70 <= amendedScore p)%Z) /\
  (label (computeHealthVerdict p) = UNSAFE <-> (amendedScore p <= 40)%Z) /\
  (label (computeHealthVerdict p) = RISKY <-> (40 < amendedScore p < 70)%Z) /\
  (notInfinite (tx24 p) -> notInfinite (priceCh24 p) -> notInfinite (ageMin p) ->
   amendedScore p = documentedScore p).
Proof.
  split; [now rewrite Hpq|].
  split; [rewrite amendedScore_additive; apply finalScore_additive|].
  assert (Hlab :
    (label (computeHealthVerdict p) = SAFE <-> (70 <= amendedScore p)%Z) /\
    (label (computeHealthVerdict p) = UNSAFE <-> (amendedScore p <= 40)%Z) /\
    (label (computeHealthVerdict p) = RISKY <-> (40 < amendedScore p < 70)%Z)).
  { rewrite amendedScore_additive.
    unfold computeHealthVerdict. cbn [label].
    fold (finalScore p). rewrite finalScore_additive.
    apply labelOf_thresholds.
    pose proof (additiveScore_bounds p). unfold inRange. lia. }
  destruct Hlab as (Hs & Hu & Hr).
  split; [exact Hs|]. split; [exact Hu|]. split; [exact Hr|].
  intros Ht Hp Ha. unfold amendedScore, documentedScore.
  now rewrite (documentedTx_finiteOnly _ Ht), (documentedPrice_finiteOnly _ Hp),
    (documentedCompound_amended _ (marketCap p) Ha).
Qed.

Lemma computeHealthVerdict_thresholds_witness :
  computeHealthVerdict exampleSafe = computeHealthVerdict exampleSafe /\
  finalScore exampleSafe = Z2F (amendedScore exampleSafe) /\
  (label (computeHealthVerdict exampleSafe) = SAFE
   <-> (70 <= amendedScore exampleSafe)%Z) /\
  (label (computeHealthVerdict exampleSafe) = UNSAFE
   <-> (amendedScore exampleSafe <= 40)%Z) /\
  (label (computeHealthVerdict exampleSafe) = RISKY
   <-> (40 < amendedScore exampleSafe < 70)%Z) /\
  (notInfinite (tx24 exampleSafe) -> notInfinite (priceCh24 exampleSafe) ->
   notInfinite (ageMin exampleSafe) ->
   amendedScore exampleSafe = documentedScore exampleSafe).
Proof.
  apply (computeHealthVerdict_thresholds exampleSafe exampleSafe).
  reflexivity.
Defined.

Lemma compoundGuard_fires p :
  compoundGuard (ageMin p) (marketCap p) = true <-> compoundFires p.
Proof.
  unfold compoundGuard, compoundFires. split.
  - destruct (ageMin p) as [a|]; [|discriminate].
    destruct (marketCap p) as [m|]; [|now rewrite andb_false_r].
    rewrite !andb_true_iff. intros (Ha & Hf & Hm).
    exists a, m. repeat split; assumption.
  - intros (a & m & -> & -> & Ha & Hf & Hm). now rewrite Ha, Hf, Hm.
Qed.

Example compoundFires_exampleUnsafe :
  compoundFires exampleUnsafe /\ ~ compoundFires exampleSafe.
Proof.
  split.
  - exists 60, 10000. repeat split; reflexivity.
  - intros (a & m & Ha & _). discriminate.
Qed.

(** C2, as stated, fails: with an age of +Infinity (a number that is not
    finite) and a market cap of 10000 the rule is applied, not skipped. *)
Lemma compound_rule_infinite_age_counterexample :
  let p := {| volToMc := None; lpLockedPct := None; tx24 := None;
              priceCh24 := None; dexLabel := None;
              ageMin := Some infinity; marketCap := Some 10000 |} in
  JS.isFiniteOpt (ageMin p) = false /\
  beforeCompound p = (50, []) /\
  runRules p = (40, ["age>50m & mc<20k"%string]) /\
  computeHealthVerdict p
  = {| label := UNSAFE; reasons := ["age>50m & mc<20k"%string] |}.
Proof. vm_compute. repeat split; reflexivity. Qed.

(** C2, amended. The compound rule takes 10 points and appends its reason
    exactly when [ageMin] is a number above 50 and [marketCap] is a finite
    number below 20000; otherwise (either one missing, [ageMin] NaN or at
    most 50, [marketCap] not finite or at least 20000) it leaves both the
    score and the reasons as they were. *)
Theorem compound_rule_exact (p : HealthParams) :
  (compoundFires p ->
     runRules p = down 10 "age>50m & mc<20k" (beforeCompound p) /\
     additiveScore p = (scoreBeforeCompound p - 10)%Z /\
     reasons (computeHealthVerdict p)
     = snd (beforeCompound p) ++ ["age>50m & mc<20k"%string]) /\
  (~ compoundFires p ->
     runRules p = beforeCompound p /\
     additiveScore p = scoreBeforeCompound p /\
     reasons (computeHealthVerdict p) = snd (beforeCompound p)).
Proof.
  unfold computeHealthVerdict, runRules, additiveScore, compoundRule,
    compoundAdj. cbn [reasons].
  split; intros H.
  - apply compoundGuard_fires in H. rewrite H.
    repeat split; first [reflexivity | lia].
  - destruct (compoundGuard (ageMin p) (marketCap p)) eqn:E.
    + exfalso. apply H, compoundGuard_fires, E.
    + repeat split; first [reflexivity | lia].
Qed.

(** C3. On the second worked example the adjustments are -20, -15, -5,
    -10, -10 and -10, the score is 50-20-15-5-10-10-10 = -20, and the
    label is UNSAFE. *)
Theorem exampleUnsafe_verdict :
  volAdj (volToMc exampleUnsafe) = (-20)%Z /\
  lpAdj (lpLockedPct exampleUnsafe) = (-15)%Z /\
  txAdj (tx24 exampleUnsafe) = (-5)%Z /\
  pumpAdj (priceCh24 exampleUnsafe) = (-10)%Z /\
  dumpAdj (priceCh24 exampleUnsafe) = 0%Z /\
  dexAdj (dexLabel exampleUnsafe) = (-10)%Z /\
  compoundAdj (ageMin exampleUnsafe) (marketCap exampleUnsafe) = (-10)%Z /\
  additiveScore exampleUnsafe = (-20)%Z /\
  finalScore exampleUnsafe = (-20)%float /\
  computeHealthVerdict exampleUnsafe
  = {| label := UNSAFE;
       reasons := ["volume/mc weak"; "LP lock low"; "tx low"; "extreme pump";
                   "dex risk: danger"; "age>50m & mc<20k"]%string |}.
Proof. vm_compute. repeat split; reflexivity. Qed.

End HealthScorerFacts.

(** ** Facts about binary64 comparisons *)

Lemma SFcompare_refl_finite s m e :
  SFcompare (S754_finite s m e) (S754_finite s m e) = Some Eq.
Proof.
  simpl. rewrite Z.compare_refl, Pos.compare_cont_refl. now destruct s.
Qed.

(** A number above zero is truthy: it is neither a zero nor NaN. *)
Lemma gt_zero_truthy x : JS.gt x 0 = true -> JS.truthy x = true.
Proof.
  unfold JS.gt, JS.truthy, is_zero, is_nan.
  rewrite FloatAxioms.ltb_spec, !FloatAxioms.eqb_spec.
  change (Prim2SF 0) with (S754_zero false).
  destruct (Prim2SF x) as [s|s| |s m e]; try discriminate.
  - destruct s; intros; try discriminate; reflexivity.
  - unfold SFeqb at 2. rewrite SFcompare_refl_finite.
    unfold SFltb, SFeqb. simpl. destruct s; intros; try discriminate; reflexivity.
Qed.

(** Two floats that [Leibniz.eqb] tells apart are different. *)
Lemma leibniz_neq x y : Leibniz.eqb x y = false -> x <> y.
Proof.
  intros H E. apply FloatAxioms.Leibniz.eqb_spec in E. congruence.
Qed.

(** ** TradePanel *)

Section TradePanelFacts.
Import TradePanel.

(** C8, as stated, fails: with a current price of 0 (a known price) and two
    units held at an average entry of 1 the function returns 0, although
    the quantity is not 0, the price is not null, and the formula gives
    -2. *)
Lemma pnl_zero_price_counterexample :
  let v := {| mint := "M"; currentPrice := Some 0;
              pos := Some {| qty := 2; avgPrice := 1 |};
              userBalance := Some 100; usd := 0 |} in
  currentPrice v = Some 0 /\ qtyHeld v = 2 /\
  pnl v = 0 /\ (0 - avgEntry v) * qtyHeld v = -2 /\ 0 <> -2.
Proof.
  vm_compute. repeat split; try reflexivity.
  apply leibniz_neq. vm_compute. reflexivity.
Qed.

Example pnl_of_a_gain :
  pnl {| mint := "M"; currentPrice := Some 3;
         pos := Some {| qty := 10; avgPrice := 2 |};
         userBalance := Some 0; usd := 0 |} = 10.
Proof. vm_compute. reflexivity. Qed.

(** C8, amended. When the current price is a number other than 0, -0 and
    NaN and the quantity held is other than 0, -0 and NaN, the function
    returns (currentPrice - averageEntryPrice) * quantityHeld; when the
    price is null, 0, -0 or NaN, or the quantity is 0, -0 or NaN, it
    returns 0. *)
Theorem pnl_formula (v : Panel) :
  (forall cp, currentPrice v = Some cp ->
     JS.truthy cp = true -> JS.truthy (qtyHeld v) = true ->
     pnl v = (cp - avgEntry v) * qtyHeld v) /\
  (currentPrice v = None -> pnl v = 0) /\
  (forall cp, currentPrice v = Some cp -> JS.truthy cp = false -> pnl v = 0) /\
  (JS.truthy (qtyHeld v) = false -> pnl v = 0).
Proof.
  unfold pnl. repeat split.
  - intros cp -> Hc Hq. now rewrite Hc, Hq.
  - now intros ->.
  - intros cp -> Hc. now rewrite Hc.
  - intros Hq. rewrite Hq. destruct (currentPrice v); [|reflexivity].
    now rewrite orb_true_r.
Qed.

(** C10. Buy is enabled exactly when the mint is not empty, the effective
    price and quantity are above 0, and price * quantity is at most the
    balance; the grand total adds the 0.35 fee whenever the cost is
    positive, the check does not: on [tightPanel] Buy is enabled and the
    grand total, 10.35, exceeds the balance of 10. *)
Theorem canBuy_ignores_fee :
  (forall v : Panel,
     canBuy v = true <->
     (mint v <> ""%string /\ JS.gt (effPrice v) 0 = true /\
      JS.gt (effectiveQty v) 0 = true /\
      JS.le (effPrice v * effectiveQty v) (balance v) = true)) /\
  (forall v : Panel,
     grandTotal v = totalCost v + (if JS.gt (totalCost v) 0 then TX_FEE else 0)) /\
  (canBuy tightPanel = true /\
   totalCost tightPanel = 10 /\
   grandTotal tightPanel = 10 + TX_FEE /\
   JS.gt (grandTotal tightPanel) (balance tightPanel) = true).
Proof.
  split; [|split; [reflexivity|vm_compute; repeat split; reflexivity]].
  intros v. unfold canBuy, totalCost. rewrite !andb_true_iff. split.
  - intros [[[Hm Hp] Hq] Hc].
    rewrite (gt_zero_truthy _ Hp), (gt_zero_truthy _ Hq) in Hc.
    repeat split; try assumption.
    intros E. rewrite E in Hm. discriminate.
  - intros (Hm & Hp & Hq & Hc).
    rewrite (gt_zero_truthy _ Hp), (gt_zero_truthy _ Hq).
    repeat split; try assumption.
    destruct (mint v); [congruence|reflexivity].
Qed.

End TradePanelFacts.

(** ** MemeScanner: supply and the sticky price *)

Section MemeScannerFacts.
Import MemeScanner.

(** With a token in the report, the supply is raw / 10^decimals when the raw
    supply is finite and the quotient is finite and positive, and the
    default 1,000,000,000 otherwise. *)
Lemma supply_with_token pow (t : RugToken) :
  supply pow (Some {| token := Some t |})
  = match tokenSupply t with
    | Some raw =>
        let c := raw / pow 10 (decimalsOf t) in
        if JS.isFinite raw && JS.isFinite c && JS.gt c 0 then c else 1000000000
    | None => 1000000000
    end.
Proof.
  unfold supply, computedSupply. cbn [token].
  destruct (tokenSupply t) as [raw|]; [|reflexivity].
  cbv zeta. destruct (JS.isFinite raw); reflexivity.
Qed.

(** C4, at the failing input. Without a report, or with a report that has
    no token, the supply is 999,999,999, which is not the documented
    default 1,000,000,000. *)
Theorem supply_without_token :
  forall pow : float -> float -> float,
    supply pow None = 999999999 /\
    supply pow (Some {| token := None |}) = 999999999 /\
    999999999 <> 1000000000.
Proof.
  intros pow. repeat split.
  apply leibniz_neq. vm_compute. reflexivity.
Qed.

Lemma sameDep_eq a b : sameDep a b = true -> a = b.
Proof.
  destruct a as [x|], b as [y|]; simpl; try discriminate; try reflexivity.
  unfold JS.objectIs. intros H. apply FloatAxioms.Leibniz.eqb_spec in H.
  now subst.
Qed.

Lemma tick_tracks st acc x :
  tracks st acc -> tracks (tick st x) (if validPrice x then x else acc).
Proof.
  intros [Hs Hd]. unfold tick, runEffect, depChanged.
  destruct (lastDep st) as [d|] eqn:Ed.
  - destruct (sameDep d x) eqn:Esame; simpl.
    + apply sameDep_eq in Esame. subst d.
      split.
      * destruct (validPrice x) eqn:Ev; [|assumption].
        rewrite Hs. now apply Hd.
      * intros d. rewrite Ed. intros [= <-] Hv. now rewrite Hv.
    + split; simpl.
      * now rewrite Hs.
      * intros d' [= <-] Hv. now rewrite Hv.
  - split; simpl.
    + now rewrite Hs.
    + intros d' [= <-] Hv. now rewrite Hv.
Qed.

Lemma ticks_tracks lives : forall st acc,
  tracks st acc ->
  tracks (ticks st lives)
         (fold_left (fun a x => if validPrice x then x else a) lives acc).
Proof.
  induction lives as [|x rest IH]; intros st acc H; simpl; [assumption|].
  apply IH, tick_tracks, H.
Qed.

Lemma stable_lastValid lives :
  priceUsdStable (ticks mounted lives) = lastValid lives.
Proof.
  apply (ticks_tracks lives mounted None).
  split; [reflexivity|]. simpl. discriminate.
Qed.

Lemma fold_valid_some lives : forall acc v,
  acc = Some v -> JS.isFinite v = true ->
  exists w, fold_left (fun a x => if validPrice x then x else a) lives acc = Some w
            /\ JS.isFinite w = true /\ (w = v \/ In (Some w) lives).
Proof.
  induction lives as [|x rest IH]; intros acc v Hacc Hv; simpl.
  - exists v. auto.
  - destruct (validPrice x) eqn:Ex.
    + destruct x as [y|]; [|discriminate]. simpl in Ex.
      destruct (IH (Some y) y eq_refl Ex) as (w & Hw & Hf & [->|Hin]).
      * exists y. auto.
      * exists w. auto.
    + destruct (IH acc v Hacc Hv) as (w & Hw & Hf & [->|Hin]).
      * exists v. auto.
      * exists w. auto.
Qed.

Lemma lastValid_observed lives P :
  JS.isFinite P = true -> In (Some P) lives ->
  exists v, lastValid lives = Some v /\ JS.isFinite v = true
            /\ In (Some v) lives.
Proof.
  intros HP Hin. unfold lastValid. generalize (@None float).
  induction lives as [|x rest IH]; [contradiction|]. intros acc. simpl.
  destruct Hin as [->|Hin].
  - simpl. rewrite HP.
    destruct (fold_valid_some rest (Some P) P eq_refl HP) as (w & Hw & Hf & H).
    exists w. repeat split; try assumption.
    destruct H as [->|H]; [now left|now right].
  - destruct (IH Hin (if validPrice x then x else acc)) as (v & Hv & Hf & H).
    exists v. auto.
Qed.

Lemma invalid_keeps st x :
  validPrice x = false -> priceUsdStable (tick st x) = priceUsdStable st.
Proof.
  intros Hx. unfold tick, runEffect.
  destruct (depChanged st x); [simpl; now rewrite Hx|reflexivity].
Qed.

(** C5. Once a finite price has been observed in a session, the state
    holds the last valid price [v] of the session, and a tick whose live
    price is null shows [v], in the first render as in the settled one,
    and leaves the state at [v]; the two ticks 5.0 then null show 5.0
    twice; and no invalid sample (null or a number that is not finite)
    changes a state that holds a value. *)
Theorem price_sticky :
  (forall (lives : list (option float)) (P : float),
     JS.isFinite P = true -> In (Some P) lives ->
     exists v,
       lastValid lives = Some v /\ JS.isFinite v = true /\
       In (Some v) lives /\
       priceUsdStable (ticks mounted lives) = Some v /\
       firstPaint (ticks mounted lives) None = Some v /\
       settled (ticks mounted lives) None = Some v /\
       priceUsdStable (ticks mounted (lives ++ [None])) = Some v) /\
  session mounted [Some 5; None] = [Some 5; Some 5] /\
  (forall (st : Sticky) (x : option float) (v : float),
     priceUsdStable st = Some v -> validPrice x = false ->
     priceUsdStable (tick st x) = Some v /\ settled st x = Some v).
Proof.
  split; [|split].
  - intros lives P HP Hin.
    destruct (lastValid_observed lives P HP Hin) as (v & Hv & Hf & Hobs).
    exists v. pose proof (stable_lastValid lives) as Hst. rewrite Hv in Hst.
    assert (Hk : priceUsdStable (tick (ticks mounted lives) None) = Some v).
    { rewrite invalid_keeps; [assumption|reflexivity]. }
    repeat split; try assumption.
    + unfold firstPaint, displayed. now rewrite Hst.
    + unfold settled, displayed. now rewrite Hk.
    + unfold ticks. rewrite fold_left_app. exact Hk.
  - vm_compute. reflexivity.
  - intros st x v Hst Hx.
    assert (Hk : priceUsdStable (tick st x) = Some v).
    { now rewrite invalid_keeps. }
    split; [assumption|]. unfold settled, displayed. now rewrite Hk.
Qed.

End MemeScannerFacts.

(** ** Scan validation *)

Section ScanFacts.
Import Scan.

Lemma base58Class_spec c : base58Class c = true <-> isBase58 c.
Proof.
  unfold base58Class, isBase58, between.
  rewrite !orb_true_iff, !andb_true_iff, !N.leb_le. lia.
Qed.

Lemma dropWhile_split f s :
  exists pre, s = pre ++ dropWhile f s /\ forallb f pre = true /\
    match dropWhile f s with c :: _ => f c = false | [] => True end.
Proof.
  induction s as [|c rest (pre & Hs & Hpre & Hhd)]; simpl.
  - exists []. auto.
  - destruct (f c) eqn:Ec.
    + exists (c :: pre). simpl. rewrite Ec, Hpre. split; [now f_equal|auto].
    + exists []. simpl. auto.
Qed.

(** [trim] removes a run of trimmable code units at either end, and what is
    left neither starts nor ends with one. *)
Lemma trim_spec m :
  exists pre post,
    m = pre ++ trim m ++ post /\
    forallb isTrimmable pre = true /\ forallb isTrimmable post = true /\
    match trim m with c :: _ => isTrimmable c = false | [] => True end /\
    match rev (trim m) with c :: _ => isTrimmable c = false | [] => True end.
Proof.
  unfold trim, trimEnd, trimStart.
  destruct (dropWhile_split isTrimmable m) as (pre & Hm & Hpre & Hhd).
  set (t := dropWhile isTrimmable m) in *.
  destruct (dropWhile_split isTrimmable (rev t)) as (suf & Ht & Hsuf & Hlast).
  set (d := dropWhile isTrimmable (rev t)) in *.
  assert (Et : t = rev d ++ rev suf).
  { rewrite <- rev_app_distr, <- Ht. symmetry. apply rev_involutive. }
  exists pre, (rev suf). repeat split.
  - now rewrite <- Et.
  - assumption.
  - rewrite forallb_forall in *. intros c Hc. apply Hsuf, in_rev, Hc.
  - destruct (rev d) as [|c r] eqn:Er; [exact I|].
    rewrite Et in Hhd. exact Hhd.
  - rewrite rev_involutive. exact Hlast.
Qed.

Lemma dropWhile_id f s :
  match s with c :: _ => f c = false | [] => True end -> dropWhile f s = s.
Proof. destruct s as [|c r]; simpl; [reflexivity|]. now intros ->. Qed.

Lemma trim_idempotent m : trim (trim m) = trim m.
Proof.
  destruct (trim_spec m) as (_ & _ & _ & _ & _ & Hhd & Hlast).
  unfold trim at 1. unfold trimEnd, trimStart.
  rewrite (dropWhile_id _ (trim m) Hhd), (dropWhile_id _ _ Hlast).
  apply rev_involutive.
Qed.

Example isValidMint_padded_address :
  isValidMint (ofAscii "  So11111111111111111111111111111111111111112 ") = true.
Proof. vm_compute. reflexivity. Qed.

Example isValidMint_rejects_letter_O :
  isValidMint (ofAscii "So1111111111111111111111111111111111111111O") = false.
Proof. vm_compute. reflexivity. Qed.

Example isValidMint_rejects_short :
  isValidMint (ofAscii "So111111111111111111111111111112") = true /\
  isValidMint (ofAscii "So11111111111111111111111111112") = false.
Proof. vm_compute. split; reflexivity. Qed.

(** C9. A string passes [isValidMint] exactly when its trimmed form is 32
    to 44 code units long and every one of them is a Base58 character; and
    the scan action (the Scan button, the Enter key) changes the searched
    mint only for an input that passes, to the trimmed input, which passes
    too, leaving the scanner as it was otherwise. *)
Theorem isValidMint_spec :
  (forall m : jsstring,
     isValidMint m = true <->
     ((32 <= List.length (trim m) <= 44)%nat /\ Forall isBase58 (trim m))) /\
  (forall st : Scanner,
     isValidMint (inputMint st) = true ->
     clickScan st = {| inputMint := inputMint st;
                       searchedMint := Some (trim (inputMint st)) |}
     /\ keyDown true st = clickScan st
     /\ isValidMint (trim (inputMint st)) = true) /\
  (forall (st : Scanner) (enter : bool),
     isValidMint (inputMint st) = false ->
     clickScan st = st /\ keyDown enter st = st) /\
  (forall (st : Scanner) (enter : bool),
     (searchedMint (clickScan st) <> searchedMint st ->
      isValidMint (inputMint st) = true) /\
     (searchedMint (keyDown enter st) <> searchedMint st ->
      isValidMint (inputMint st) = true)).
Proof.
  split; [|split; [|split]].
  - intros m. unfold isValidMint. cbv zeta.
    rewrite !andb_true_iff, !N.leb_le. unfold BASE58_RE.
    rewrite Forall_forall. split.
    + intros [[H1 H2] H3]. split; [lia|].
      destruct (trim m) as [|c r]; [discriminate|].
      rewrite forallb_forall in H3.
      intros x Hx. apply base58Class_spec, H3, Hx.
    + intros [[H1 H2] H3]. split; [lia|].
      destruct (trim m) as [|c r]; [simpl in H1; lia|].
      apply forallb_forall. intros x Hx. apply base58Class_spec, H3, Hx.
  - intros st H. unfold keyDown, clickScan, canScan. rewrite H.
    repeat split. unfold isValidMint in *. now rewrite trim_idempotent.
  - intros st enter H. unfold keyDown, clickScan, canScan. rewrite H.
    rewrite andb_false_r. auto.
  - intros st enter. unfold keyDown, clickScan, canScan.
    destruct (isValidMint (inputMint st)).
    + auto.
    + rewrite andb_false_r. split; congruence.
Qed.

End ScanFacts.

(** ** ActivityAggregator *)

Section AppFacts.
Import App.

Lemma sortBy_single {A : Type} (cmp : A -> A -> float) (x : A) :
  Ledger.sortBy cmp [x] = [x].
Proof. reflexivity. Qed.

(** Two entries of one mint end up in one group. *)
Lemma visit_pair (h1 h2 : Ledger.HistoryItem) :
  Ledger.mint h2 = Ledger.mint h1 ->
  fold_left visit [h1; h2] []
  = [(Ledger.mint h1, absorb h2 (absorb h1 (fresh h1)))].
Proof.
  intros E. simpl. unfold visit at 2. simpl.
  unfold visit. simpl. rewrite E, String.eqb_refl. reflexivity.
Qed.

Lemma groupedActivity_pair (h1 h2 : Ledger.HistoryItem) :
  Ledger.mint h2 = Ledger.mint h1 ->
  groupedActivity [h1; h2] = [summarize (absorb h2 (absorb h1 (fresh h1)))].
Proof.
  intros E. unfold groupedActivity. rewrite (visit_pair h1 h2 E). reflexivity.
Qed.

(** Whichever comes first, the buy lands in [buys] and the sell in
    [sells]. *)
Lemma absorb_buy_sell (b s : Ledger.HistoryItem) :
  Ledger.side b = Ledger.buy -> Ledger.side s = Ledger.sell ->
  (buys (absorb s (absorb b (fresh b))) = [b] /\
   sells (absorb s (absorb b (fresh b))) = [s]) /\
  (buys (absorb b (absorb s (fresh s))) = [b] /\
   sells (absorb b (absorb s (fresh s))) = [s]).
Proof.
  intros Hb Hs. unfold absorb, fresh, Ledger.isBuy. cbn [buys sells].
  rewrite Hb, Hs. auto.
Qed.

(** The figures of a group that bought once and sold once. *)
Lemma summarize_one_each (g : Group) (b s : Ledger.HistoryItem) :
  buys g = [b] -> sells g = [s] ->
  Ledger.qty b = 10 -> Ledger.price b = 2 -> Ledger.value b = 20 ->
  Ledger.qty s = 10 -> Ledger.price s = 3 -> Ledger.value s = 30 ->
  Ledger.feeOf b = 0 -> Ledger.feeOf s = 0 ->
  pnl (summarize g) = 10 /\ pnlPct (summarize g) = Some 50 /\
  buyWeightedPrice (summarize g) = Some 2 /\
  sellWeightedPrice (summarize g) = Some 3.
Proof.
  intros Hb Hs Hqb Hpb Hvb Hqs Hps Hvs Hfb Hfs.
  unfold summarize, weightedPrice, Ledger.sumBy. cbn [pnl pnlPct
    buyWeightedPrice sellWeightedPrice].
  rewrite Hb, Hs. cbn [fold_left app].
  unfold Ledger.valueOf, Ledger.qtyOf, Ledger.priceOf.
  rewrite Hfb, Hfs, Hqb, Hpb, Hvb, Hqs, Hps, Hvs.
  vm_compute. repeat split; reflexivity.
Qed.

Example groupedActivity_empty : groupedActivity [] = [].
Proof. reflexivity. Qed.

(** C6. A history of one token with one buy of 10 at 2 (value 20) and one
    sell of 10 at 3 (value 30), in either order and without fees, yields
    one item with realized PnL 10, PnL percentage 50, weighted buy price 2
    and weighted sell price 3. *)
Theorem groupedActivity_buy_sell (b s : Ledger.HistoryItem)
    (hist : list Ledger.HistoryItem)
    (Hsb : Ledger.side b = Ledger.buy) (Hss : Ledger.side s = Ledger.sell)
    (Hmint : Ledger.mint s = Ledger.mint b)
    (Hqb : Ledger.qty b = 10) (Hpb : Ledger.price b = 2)
    (Hvb : Ledger.value b = 20)
    (Hqs : Ledger.qty s = 10) (Hps : Ledger.price s = 3)
    (Hvs : Ledger.value s = 30)
    (Hfb : Ledger.feeOf b = 0) (Hfs : Ledger.feeOf s = 0)
    (Hhist : hist = [b; s] \/ hist = [s; b]) :
  exists it : Item,
    groupedActivity hist = [it] /\
    mint (group it) = Ledger.mint b /\
    buyCost it = 20 /\ sellProceeds it = 30 /\ fees it = 0 /\
    pnl it = 10 /\ pnlPct it = Some 50 /\
    buyWeightedPrice it = Some 2 /\ sellWeightedPrice it = Some 3.
Proof.
  assert (Hfig : forall g, buys g = [b] -> sells g = [s] ->
            buyCost (summarize g) = 20 /\ sellProceeds (summarize g) = 30 /\
            fees (summarize g) = 0).
  { intros g Hb Hs. unfold summarize, Ledger.sumBy.
    cbn [buyCost sellProceeds fees]. rewrite Hb, Hs. cbn [fold_left app].
    unfold Ledger.valueOf. rewrite Hfb, Hfs, Hvb, Hvs.
    vm_compute. repeat split; reflexivity. }
  destruct (absorb_buy_sell b s Hsb Hss) as [[Hb1 Hs1] [Hb2 Hs2]].
  destruct Hhist as [-> | ->].
  - rewrite (groupedActivity_pair b s Hmint).
    eexists. split; [reflexivity|]. split; [reflexivity|].
    destruct (Hfig _ Hb1 Hs1) as (H1 & H2 & H3).
    destruct (summarize_one_each _ b s Hb1 Hs1 Hqb Hpb Hvb Hqs Hps Hvs Hfb Hfs)
      as (H4 & H5 & H6 & H7).
    repeat split; assumption.
  - rewrite (groupedActivity_pair s b (eq_sym Hmint)).
    eexists. split; [reflexivity|].
    split; [exact Hmint|].
    destruct (Hfig _ Hb2 Hs2) as (H1 & H2 & H3).
    destruct (summarize_one_each _ b s Hb2 Hs2 Hqb Hpb Hvb Hqs Hps Hvs Hfb Hfs)
      as (H4 & H5 & H6 & H7).
    repeat split; assumption.
Qed.

Lemma groupedActivity_buy_sell_witness :
  exists it : Item,
    groupedActivity [exampleBuy; exampleSell] = [it] /\
    mint (group it) = "MintA"%string /\
    buyCost it = 20 /\ sellProceeds it = 30 /\ fees it = 0 /\
    pnl it = 10 /\ pnlPct it = Some 50 /\
    buyWeightedPrice it = Some 2 /\ sellWeightedPrice it = Some 3.
Proof.
  apply (groupedActivity_buy_sell exampleBuy exampleSell
           [exampleBuy; exampleSell]);
    try reflexivity.
  left. reflexivity.
Defined.

End AppFacts.

(** ** Binary64 addition and the sign of zero

    The two aggregations of the ledger differ by additions of [0]; they
    agree because a running sum that starts at [0] and adds values other
    than [-0] is never [-0].  The facts are read off the specification of
    binary64 addition. *)

Lemma iter_pos_nat {A : Type} (f : A -> A) (p : positive) : forall x,
  SpecFloat.iter_pos f p x = Nat.iter (Pos.to_nat p) f x.
Proof.
  induction p as [p IH|p IH|]; intros x; simpl SpecFloat.iter_pos.
  - rewrite !IH, Pos2Nat.inj_xI, <- Nat.iter_add.
    replace (Pos.to_nat p + Pos.to_nat p)%nat with (2 * Pos.to_nat p)%nat by lia.
    symmetry. apply Nat.iter_succ_r.
  - rewrite !IH, Pos2Nat.inj_xO, <- Nat.iter_add.
    f_equal. lia.
  - reflexivity.
Qed.

Lemma digits2_size m : Pos.to_nat (digits2_pos m) = Pos.size_nat m.
Proof. induction m; simpl; rewrite ?Pos2Nat.inj_succ; auto. Qed.

(** Shifting a positive mantissa right by fewer bits than it has leaves a
    positive mantissa. *)
Lemma shr_iter_positive k : forall mrs m,
  shr_m mrs = Zpos m -> (k < Pos.size_nat m)%nat ->
  exists m', shr_m (Nat.iter k shr_1 mrs) = Zpos m'
             /\ Pos.size_nat m' = (Pos.size_nat m - k)%nat.
Proof.
  induction k as [|k IH]; intros mrs m Hm Hk.
  - exists m. simpl. split; [assumption|lia].
  - destruct (IH mrs m Hm ltac:(lia)) as (m1 & H1 & Hs1).
    simpl Nat.iter. destruct (Nat.iter k shr_1 mrs) as [mm r s].
    simpl in H1. subst mm.
    destruct m1 as [q|q|]; simpl in Hs1.
    + exists q. simpl. split; [reflexivity|lia].
    + exists q. simpl. split; [reflexivity|lia].
    + lia.
Qed.

Lemma shr_fexp_positive m e l :
  (emin64 <= e)%Z ->
  exists m' e', shr_m (fst (shr_fexp prec emax (Zpos m) e l)) = Zpos m'
                /\ snd (shr_fexp prec emax (Zpos m) e l) = e' /\ (emin64 <= e')%Z.
Proof.
  intros He. unfold shr_fexp, shr.
  assert (Hrec : shr_m (shr_record_of_loc (Zpos m) l) = Zpos m)
    by (destruct l as [|[]]; reflexivity).
  destruct (fexp prec emax (Zdigits2 (Z.pos m) + e) - e)%Z as [|p|p] eqn:En;
    simpl fst; simpl snd.
  - exists m, e. auto.
  - rewrite iter_pos_nat.
    assert (Hp : (Pos.to_nat p < Pos.size_nat m)%nat).
    { rewrite <- digits2_size. unfold fexp, SpecFloat.emin, Zdigits2 in En.
      unfold emin64, SpecFloat.emin in He. unfold prec, emax in *. lia. }
    destruct (shr_iter_positive _ _ m Hrec Hp) as (m' & Hm' & _).
    exists m', (e + Z.pos p)%Z. repeat split; [assumption|lia].
  - exists m, e. auto.
Qed.

Lemma round_nearest_even_positive m l :
  exists m', round_nearest_even (Zpos m) l = Zpos m'.
Proof.
  unfold round_nearest_even.
  destruct l as [|[]]; try (eexists; reflexivity).
  - destruct (Z.even (Z.pos m)); eexists; reflexivity.
Qed.

Lemma binary_round_aux_nonzero sx m e l s :
  (emin64 <= e)%Z ->
  binary_round_aux prec emax sx (Zpos m) e l <> S754_zero s.
Proof.
  intros He. unfold binary_round_aux.
  destruct (shr_fexp_positive m e l He) as (m1 & e1 & H1 & He1 & Hge1).
  destruct (shr_fexp prec emax (Z.pos m) e l) as [mrs1 e1'].
  simpl in H1, He1. subst e1'. rewrite H1.
  destruct (round_nearest_even_positive m1 (loc_of_shr_record mrs1)) as (m2 & H2).
  rewrite H2.
  destruct (shr_fexp_positive m2 e1 loc_Exact Hge1) as (m3 & e3 & H3 & He3 & _).
  destruct (shr_fexp prec emax (Z.pos m2) e1 loc_Exact) as [mrs3 e3'].
  simpl in H3, He3. subst e3'. rewrite H3.
  destruct (e3 <=? emax - prec)%Z; discriminate.
Qed.

Lemma binary_round_nonzero sx m e s :
  (emin64 <= e)%Z -> binary_round prec emax sx m e <> S754_zero s.
Proof.
  intros He. unfold binary_round.
  destruct (shl_align m e (fexp prec emax (Z.pos (digits2_pos m) + e))) as [mz ez] eqn:E.
  apply binary_round_aux_nonzero.
  unfold shl_align in E.
  destruct (fexp prec emax (Z.pos (digits2_pos m) + e) - e)%Z eqn:En;
    inversion E; subst; try assumption.
  unfold fexp, emin64. lia.
Qed.

Lemma valid_finite_emin s m e :
  valid_binary (S754_finite s m e) = true -> (emin64 <= e)%Z.
Proof.
  simpl. unfold bounded, canonical_mantissa. intros H.
  apply andb_true_iff in H. destruct H as [H _].
  apply Z.eqb_eq in H. unfold fexp in H. unfold emin64. lia.
Qed.

Lemma SFadd_not_neg_zero x y :
  valid_binary x = true -> valid_binary y = true ->
  y <> S754_zero true -> SF64add x y <> S754_zero true.
Proof.
  intros Hx Hy Hyz. unfold SF64add, SFadd.
  destruct x as [sx|sx| |sx mx ex], y as [sy|sy| |sy my ey];
    try discriminate.
  - destruct sx, sy; try discriminate. congruence.
  - destruct sx, sy; discriminate.
  - pose proof (valid_finite_emin _ _ _ Hx). pose proof (valid_finite_emin _ _ _ Hy).
    unfold binary_normalize.
    match goal with |- context [match ?z with Z0 => _ | _ => _ end] => destruct z end.
    + discriminate.
    + apply binary_round_nonzero. lia.
    + apply binary_round_nonzero. lia.
Qed.

Lemma add_not_neg_zero x y : notNegZero y -> notNegZero (x + y).
Proof.
  unfold notNegZero. intros Hy. rewrite add_spec.
  apply SFadd_not_neg_zero; [apply Prim2SF_valid..|assumption].
Qed.

Lemma add_zero_r x : notNegZero x -> x + 0 = x.
Proof.
  unfold notNegZero. intros Hx. apply Prim2SF_inj. rewrite add_spec.
  change (Prim2SF 0) with (S754_zero false).
  destruct (Prim2SF x) as [[]| | |]; try reflexivity. congruence.
Qed.

Lemma zero_not_neg_zero : notNegZero 0.
Proof. unfold notNegZero. change (Prim2SF 0) with (S754_zero false). discriminate. Qed.

Lemma orZero_not_neg_zero x : notNegZero (JS.orZero x).
Proof.
  unfold JS.orZero, JS.truthy. destruct (is_zero x) eqn:Ez; simpl.
  - apply zero_not_neg_zero.
  - destruct (is_nan x); simpl; [apply zero_not_neg_zero|].
    unfold notNegZero. intros E. unfold is_zero in Ez.
    rewrite FloatAxioms.eqb_spec, E in Ez. discriminate.
Qed.

(** Adding [0] for the entries a filter drops is the sum over the entries it
    keeps. *)
Lemma sum_filter {A : Type} (keep : A -> bool) (f : A -> float) (xs : list A) :
  (forall x, notNegZero (f x)) ->
  forall acc, notNegZero acc ->
    fold_left (fun a x => a + (if keep x then f x else 0)) xs acc
    = fold_left (fun a x => a + f x) (filter keep xs) acc.
Proof.
  intros Hf. induction xs as [|x rest IH]; intros acc Hacc; simpl.
  - reflexivity.
  - destruct (keep x); simpl.
    + apply IH, add_not_neg_zero, Hf.
    + rewrite add_zero_r by assumption. apply IH, Hacc.
Qed.

(** ** TimeframeAggregator *)

Section PortfolioFacts.
Import PortfolioAnalyzer.

(** With every entry inside the window, the loop keeps three independent
    running sums. *)
Lemma accumulate_all start hist : allSince start hist ->
  forall acc,
    fold_left (accumulate start) hist acc
    = {| sumBuys :=
           fold_left (fun a h => a + (if Ledger.isBuy h then Ledger.valueOf h else 0))
             hist (sumBuys acc);
         sumSells :=
           fold_left (fun a h => a + (if Ledger.isSell h then Ledger.valueOf h else 0))
             hist (sumSells acc);
         sumFees := fold_left (fun a h => a + Ledger.feeOf h) hist (sumFees acc) |}.
Proof.
  induction 1 as [|h rest Hh Hrest IH]; intros acc; simpl.
  - now destruct acc.
  - unfold accumulate at 2. rewrite Hh. rewrite IH. reflexivity.
Qed.

Lemma statsFrom_all start hist : allSince start hist ->
  pnl (statsFrom start hist)
  = Ledger.sumBy Ledger.valueOf (filter Ledger.isSell hist)
    - Ledger.sumBy Ledger.valueOf (filter Ledger.isBuy hist)
    - Ledger.sumBy Ledger.feeOf hist.
Proof.
  intros Hall. unfold statsFrom. cbn [pnl].
  rewrite (accumulate_all start hist Hall). cbn [sumBuys sumSells sumFees].
  unfold Ledger.sumBy, Ledger.valueOf.
  rewrite !sum_filter;
    auto using zero_not_neg_zero, orZero_not_neg_zero.
Qed.

(** C7, as stated, fails: an entry whose timestamp is below 0 is outside
    the window that starts at 0, so the unbounded window leaves out a sale
    the ledger-wide realized PnL counts. *)
Lemma timeframe_all_negative_ts_counterexample :
  windowStart tf_all 1700000000000 = 0 /\
  pnl (timeframeStats earlySale tf_all 1700000000000) = 0 /\
  realizedPnL earlySale = 5 /\
  pnl (timeframeStats earlySale tf_all 1700000000000) <> realizedPnL earlySale.
Proof.
  repeat split; try (vm_compute; reflexivity).
  apply leibniz_neq. vm_compute. reflexivity.
Qed.

(** C7, amended. When every entry of the history has a timestamp that is
    at least 0, the unbounded window yields as pnl the ledger-wide
    realized PnL: the sum of the sell values minus the sum of the buy
    values minus the sum of the fees. *)
Theorem timeframe_all_is_realized (data : option AppState) (now : float)
    (Hts : allSince 0 (historyOf data)) :
  pnl (timeframeStats data tf_all now) = realizedPnL data /\
  realizedPnL data
  = Ledger.sumBy Ledger.valueOf (filter Ledger.isSell (historyOf data))
    - Ledger.sumBy Ledger.valueOf (filter Ledger.isBuy (historyOf data))
    - Ledger.sumBy Ledger.feeOf (historyOf data).
Proof.
  split; [|reflexivity].
  unfold timeframeStats, windowStart. rewrite (statsFrom_all 0 _ Hts).
  reflexivity.
Qed.

Lemma timeframe_all_is_realized_witness :
  pnl (timeframeStats exampleLedger tf_all 1700000100000) = realizedPnL exampleLedger /\
  realizedPnL exampleLedger
  = Ledger.sumBy Ledger.valueOf (filter Ledger.isSell (historyOf exampleLedger))
    - Ledger.sumBy Ledger.valueOf (filter Ledger.isBuy (historyOf exampleLedger))
    - Ledger.sumBy Ledger.feeOf (historyOf exampleLedger).
Proof.
  apply (timeframe_all_is_realized exampleLedger 1700000100000).
  repeat constructor.
Defined.

End PortfolioFacts.

(** * Further properties *)

(** ** HealthScorer: bounds, reasons, necessary and sufficient signals *)

Section HealthScorerMore.
Import HealthScorer.

(** A price change above 400 is not below -60. *)
Lemma pump_excludes_dump x : JS.gt x 400 = true -> JS.lt x (-60) = false.
Proof.
  unfold JS.gt, JS.lt. rewrite !FloatAxioms.ltb_spec.
  change (Prim2SF 400) with (S754_finite false 7036874417766400 (-44)).
  change (Prim2SF (-60)) with (S754_finite true 8444249301319680 (-47)).
  destruct (Prim2SF x) as [s|s| |s m e]; try discriminate.
  - destruct s; [discriminate|reflexivity].
  - destruct s; [discriminate|reflexivity].
Qed.

Lemma pump_dump_bounds v : (-10 <= pumpAdj v + dumpAdj v <= 0)%Z.
Proof.
  unfold pumpAdj, dumpAdj. destruct v as [x|]; [|lia].
  destruct (JS.isFinite x); simpl andb; [|lia].
  destruct (JS.gt x 400) eqn:E; [rewrite (pump_excludes_dump x E); lia|].
  destruct (JS.lt x (-60)); lia.
Qed.

(** X1. The score the verdict is read from is always an integer between -20
    and 95, and both ends are reached (by the two worked examples). *)
Theorem finalScore_range (p : HealthParams) :
  finalScore p = Z2F (additiveScore p) /\
  (-20 <= additiveScore p <= 95)%Z /\
  additiveScore exampleUnsafe = (-20)%Z /\ additiveScore exampleSafe = 95%Z.
Proof.
  split; [apply finalScore_additive|]. split; [|split; reflexivity].
  unfold additiveScore, scoreBeforeCompound, baseline.
  pose proof (volAdj_bounds (volToMc p)).
  pose proof (lpAdj_bounds (lpLockedPct p)).
  pose proof (txAdj_bounds (tx24 p)).
  pose proof (pump_dump_bounds (priceCh24 p)).
  pose proof (dexAdj_bounds (dexLabel p)).
  pose proof (compoundAdj_bounds (ageMin p) (marketCap p)).
  lia.
Qed.

Lemma label_by_score p :
  (label (computeHealthVerdict p) = SAFE <-> (70 <= additiveScore p)%Z) /\
  (label (computeHealthVerdict p) = UNSAFE <-> (additiveScore p <= 40)%Z) /\
  (label (computeHealthVerdict p) = RISKY <-> (40 < additiveScore p < 70)%Z).
Proof.
  unfold computeHealthVerdict. cbn [label]. fold (finalScore p).
  rewrite finalScore_additive. apply labelOf_thresholds.
  pose proof (additiveScore_bounds p). unfold inRange. lia.
Qed.

(** X2. No token is SAFE without a strong volume/market-cap ratio (finite
    and at least 1) or a high LP lock (at least 75). *)
Theorem safe_needs_volume_or_lock (p : HealthParams)
    (Hsafe : label (computeHealthVerdict p) = SAFE) :
  (exists x, volToMc p = Some x /\ JS.isFinite x = true /\ JS.ge x 1 = true) \/
  (exists l, lpLockedPct p = Some l /\ JS.ge l 75 = true).
Proof.
  apply (proj1 (label_by_score p)) in Hsafe.
  unfold additiveScore, scoreBeforeCompound, baseline in Hsafe.
  pose proof (txAdj_bounds (tx24 p)).
  pose proof (pump_dump_bounds (priceCh24 p)).
  pose proof (dexAdj_bounds (dexLabel p)).
  pose proof (compoundAdj_bounds (ageMin p) (marketCap p)).
  unfold volAdj, lpAdj in Hsafe. revert Hsafe.
  destruct (volToMc p) as [x|].
  - destruct (JS.isFinite x) eqn:Ef.
    + destruct (JS.ge x 1) eqn:E1; [left; exists x; auto|].
      destruct (lpLockedPct p) as [l|].
      * destruct (JS.ge l 75) eqn:E75; [right; exists l; auto|].
        destruct (JS.ge x c0_2), (JS.lt l 25); lia.
      * destruct (JS.ge x c0_2); lia.
    + destruct (lpLockedPct p) as [l|]; [|lia].
      destruct (JS.ge l 75) eqn:E75; [right; exists l; auto|].
      destruct (JS.lt l 25); lia.
  - destruct (lpLockedPct p) as [l|]; [|lia].
    destruct (JS.ge l 75) eqn:E75; [right; exists l; auto|].
    destruct (JS.lt l 25); lia.
Qed.

Lemma safe_needs_volume_or_lock_witness :
  (exists x, volToMc exampleSafe = Some x /\ JS.isFinite x = true /\ JS.ge x 1 = true) \/
  (exists l, lpLockedPct exampleSafe = Some l /\ JS.ge l 75 = true).
Proof. apply (safe_needs_volume_or_lock exampleSafe). reflexivity. Defined.

(** X3. A weak volume/market-cap ratio (finite, below 0.2) together with a
    low LP lock (below 25) makes the verdict UNSAFE whatever the other
    signals are. *)
Theorem weak_volume_low_lock_unsafe (p : HealthParams) (x l : float)
    (Hv : volToMc p = Some x) (Hf : JS.isFinite x = true)
    (H1 : JS.ge x 1 = false) (H02 : JS.ge x c0_2 = false)
    (Hl : lpLockedPct p = Some l) (H75 : JS.ge l 75 = false)
    (H25 : JS.lt l 25 = true) :
  label (computeHealthVerdict p) = UNSAFE /\ (additiveScore p <= 25)%Z.
Proof.
  assert (Hs : (additiveScore p <= 25)%Z).
  { unfold additiveScore, scoreBeforeCompound, baseline, volAdj, lpAdj.
    rewrite Hv, Hl, Hf, H1, H02, H75, H25.
    pose proof (txAdj_bounds (tx24 p)).
    pose proof (pump_dump_bounds (priceCh24 p)).
    pose proof (dexAdj_bounds (dexLabel p)).
    pose proof (compoundAdj_bounds (ageMin p) (marketCap p)).
    lia. }
  split; [|exact Hs]. apply label_by_score. lia.
Qed.

Lemma weak_volume_low_lock_unsafe_witness :
  label (computeHealthVerdict exampleUnsafe) = UNSAFE /\
  (additiveScore exampleUnsafe <= 25)%Z.
Proof.
  apply (weak_volume_low_lock_unsafe exampleUnsafe 0x1.999999999999ap-4 10);
    reflexivity.
Defined.

Lemma applied_sum p :
  applied p =
  (one (volAdj (volToMc p)) + one (lpAdj (lpLockedPct p)) + one (txAdj (tx24 p))
   + one (pumpAdj (priceCh24 p)) + one (dumpAdj (priceCh24 p))
   + one (dexAdj (dexLabel p)) + one (compoundAdj (ageMin p) (marketCap p)))%nat.
Proof.
  unfold applied, one. cbn [filter].
  repeat match goal with |- context [(?z =? 0)%Z] => destruct (z =? 0)%Z end;
    reflexivity.
Qed.

Ltac reasons_step :=
  unfold up, down, one; cbn [snd]; rewrite ?length_app; simpl; lia.

Lemma volRule_reasons v st :
  List.length (snd (volRule v st)) = (List.length (snd st) + one (volAdj v))%nat.
Proof.
  unfold volRule, volAdj. destruct v as [x|]; [destruct (JS.isFinite x);
    [destruct (JS.ge x 1); [|destruct (JS.ge x c0_2)]|]|]; reasons_step.
Qed.

Lemma lpRule_reasons v st :
  List.length (snd (lpRule v st)) = (List.length (snd st) + one (lpAdj v))%nat.
Proof.
  unfold lpRule, lpAdj.
  destruct v as [x|]; [destruct (JS.ge x 75); [|destruct (JS.lt x 25)]|];
    reasons_step.
Qed.

Lemma txRule_reasons v st :
  List.length (snd (txRule v st)) = (List.length (snd st) + one (txAdj v))%nat.
Proof.
  unfold txRule, txAdj. destruct v as [x|]; [destruct (JS.isFinite x);
    [destruct (JS.ge x 1000); [|destruct (JS.lt x 50)]|]|]; reasons_step.
Qed.

Lemma priceRule_reasons v st :
  List.length (snd (priceRule v st))
  = (List.length (snd st) + one (pumpAdj v) + one (dumpAdj v))%nat.
Proof.
  unfold priceRule, pumpAdj, dumpAdj.
  destruct v as [x|]; [destruct (JS.isFinite x); simpl andb;
    [destruct (JS.gt x 400); destruct (JS.lt x (-60)); cbv zeta|]|];
    reasons_step.
Qed.

Lemma dexRule_reasons l st :
  List.length (snd (dexRule l st)) = (List.length (snd st) + one (dexAdj l))%nat.
Proof.
  destruct l as [[]|]; cbv beta iota zeta delta [dexRule dexAdj]; reasons_step.
Qed.

Lemma compoundRule_reasons a m st :
  List.length (snd (compoundRule a m st))
  = (List.length (snd st) + one (compoundAdj a m))%nat.
Proof.
  unfold compoundRule, compoundAdj. destruct (compoundGuard a m); reasons_step.
Qed.

Lemma one_zero z : one z = 0%nat -> z = 0%Z.
Proof. unfold one. destruct (Z.eqb_spec z 0); [auto|discriminate]. Qed.

(** X4. The reasons list has one entry for each adjustment applied; so a
    verdict without reasons has the baseline score 50 and is RISKY, and a
    SAFE or UNSAFE verdict always carries a reason. *)
Theorem reasons_count (p : HealthParams) :
  List.length (reasons (computeHealthVerdict p)) = applied p /\
  (reasons (computeHealthVerdict p) = [] ->
     additiveScore p = 50%Z /\ label (computeHealthVerdict p) = RISKY) /\
  (label (computeHealthVerdict p) <> RISKY ->
     reasons (computeHealthVerdict p) <> []).
Proof.
  assert (Hlen : List.length (reasons (computeHealthVerdict p)) = applied p).
  { rewrite applied_sum.
    unfold computeHealthVerdict, runRules, beforeCompound. cbn [reasons].
    rewrite compoundRule_reasons, dexRule_reasons, priceRule_reasons,
      txRule_reasons, lpRule_reasons, volRule_reasons. simpl. lia. }
  assert (Hempty : reasons (computeHealthVerdict p) = [] ->
            additiveScore p = 50%Z /\ label (computeHealthVerdict p) = RISKY).
  { intros E. rewrite E in Hlen. simpl in Hlen. rewrite applied_sum in Hlen.
    assert (Hs : additiveScore p = 50%Z).
    { unfold additiveScore, scoreBeforeCompound, baseline.
      rewrite (one_zero (volAdj (volToMc p))), (one_zero (lpAdj (lpLockedPct p))),
        (one_zero (txAdj (tx24 p))), (one_zero (pumpAdj (priceCh24 p))),
        (one_zero (dumpAdj (priceCh24 p))), (one_zero (dexAdj (dexLabel p))),
        (one_zero (compoundAdj (ageMin p) (marketCap p))); lia. }
    split; [exact Hs|]. apply label_by_score. lia. }
  split; [exact Hlen|]. split; [exact Hempty|].
  intros Hl E. apply Hl, Hempty, E.
Qed.

(** Where the compound rule does not fire the last revision returns what
    the first returns. *)
Lemma verdict_without_compound (p : ScannerV1.HealthParams) (a m : option float) :
  compoundGuard a m = false ->
  computeHealthVerdict (extend p a m) = ScannerV1.computeHealthVerdict p.
Proof.
  intros Hg. unfold computeHealthVerdict, ScannerV1.computeHealthVerdict,
    runRules, compoundRule.
  change (beforeCompound (extend p a m)) with (ScannerV1.runRules p).
  cbn [ageMin marketCap extend]. now rewrite Hg.
Qed.

(** X5. The last revision of the verdict against the first: the reasons
    are those of the first revision, followed by the compound reason when
    that rule fires; when it does not fire the two verdicts are equal; and
    the label never improves (SAFE now was SAFE before, UNSAFE before is
    UNSAFE now). *)
Theorem verdict_revisions (p : ScannerV1.HealthParams) (a m : option float) :
  let v1 := ScannerV1.computeHealthVerdict p in
  let v3 := computeHealthVerdict (extend p a m) in
  reasons v3 = reasons v1 ++ (if compoundGuard a m then [compoundReason] else []) /\
  (compoundGuard a m = false -> v3 = v1) /\
  (a = None \/ m = None -> v3 = v1) /\
  (label v3 = SAFE -> label v1 = SAFE) /\
  (label v1 = UNSAFE -> label v3 = UNSAFE).
Proof.
  cbv zeta.
  assert (Hb : ScannerV1.runRules p = beforeCompound (extend p a m)) by reflexivity.
  pose proof (verdict_without_compound p a m) as Hsame.
  assert (H1 : label (ScannerV1.computeHealthVerdict p)
               = labelOf (Z2F (scoreBeforeCompound (extend p a m)))).
  { unfold ScannerV1.computeHealthVerdict. cbn [label]. rewrite Hb.
    now rewrite beforeCompound_score. }
  pose proof (scoreBeforeCompound_bounds (extend p a m)) as Hbd.
  assert (Hr : inRange (scoreBeforeCompound (extend p a m)))
    by (unfold inRange; lia).
  destruct (labelOf_thresholds _ Hr) as (Hs1 & Hu1 & _).
  destruct (label_by_score (extend p a m)) as (Hs3 & Hu3 & _).
  pose proof (compoundAdj_bounds a m) as Hc.
  assert (Hadd : additiveScore (extend p a m)
                 = (scoreBeforeCompound (extend p a m) + compoundAdj a m)%Z)
    by reflexivity.
  repeat split.
  - unfold computeHealthVerdict, ScannerV1.computeHealthVerdict, runRules,
      compoundRule. cbn [reasons]. rewrite Hb. cbn [ageMin marketCap extend].
    destruct (compoundGuard a m); [reflexivity|now rewrite app_nil_r].
  - exact Hsame.
  - intros [-> | ->]; apply Hsame; [reflexivity|].
    unfold compoundGuard. destruct a; [now rewrite andb_false_r|reflexivity].
  - intros H3. rewrite H1. apply Hs1. apply Hs3 in H3. lia.
  - intros Hv1. rewrite H1 in Hv1. apply Hu3. apply Hu1 in Hv1. lia.
Qed.

End HealthScorerMore.

(** ** Binary64 order *)

Lemma SFcompare_antisym x y :
  SFcompare x y = option_map CompOpp (SFcompare y x).
Proof.
  destruct x as [sx|sx| |sx mx ex], y as [sy|sy| |sy my ey]; simpl;
    try reflexivity;
    try (destruct sx; reflexivity); try (destruct sy; reflexivity);
    try (destruct sx, sy; reflexivity).
  destruct sx, sy; try reflexivity.
  - rewrite (Z.compare_antisym ey ex).
    destruct (ey ?= ex)%Z; simpl; try reflexivity.
    rewrite (Pos.compare_cont_antisym my mx Eq). reflexivity.
  - rewrite (Z.compare_antisym ey ex).
    destruct (ey ?= ex)%Z; simpl; try reflexivity.
    rewrite (Pos.compare_cont_antisym my mx Eq). reflexivity.
Qed.

(** For numbers that are not NaN, [a >= b] fails exactly when [a < b]. *)
Lemma ge_is_not_lt a b :
  is_nan a = false -> is_nan b = false -> JS.ge a b = negb (JS.lt a b).
Proof.
  unfold JS.ge, JS.lt, is_nan.
  rewrite !FloatAxioms.eqb_spec, FloatAxioms.leb_spec, FloatAxioms.ltb_spec.
  unfold SFleb, SFltb, SFeqb. rewrite (SFcompare_antisym (Prim2SF b) (Prim2SF a)).
  destruct (SFcompare (Prim2SF a) (Prim2SF b)) as [[]|] eqn:E; try reflexivity.
  intros Ha Hb. exfalso.
  destruct (Prim2SF a) as [sa|sa| |sa ma ea]; try discriminate;
  destruct (Prim2SF b) as [sb|sb| |sb mb eb]; try discriminate.
Qed.

Lemma finite_not_nan x : JS.isFinite x = true -> is_nan x = false.
Proof.
  unfold JS.isFinite, is_finite. destruct (is_nan x); [discriminate|reflexivity].
Qed.

(** ** The scanner's derived metrics *)

Section ScannerViewFacts.
Import ScannerView.
Variable pow : float -> float -> float.
Variable floor : float -> float.

Lemma supply_valid (r : option MemeScanner.RugReport) :
  JS.isFinite (MemeScanner.supply pow r) = true /\
  JS.gt (MemeScanner.supply pow r) 0 = true.
Proof.
  unfold MemeScanner.supply.
  destruct r as [r|]; [|split; reflexivity].
  destruct (MemeScanner.token r) as [t|]; [|split; reflexivity].
  destruct (MemeScanner.computedSupply pow t) as [c|]; [|split; reflexivity].
  destruct (JS.isFinite c && JS.gt c 0) eqn:E; [|split; reflexivity].
  apply andb_true_iff in E. exact E.
Qed.

(** X6. The supply the scanner works with is always a finite number above
    zero, whatever the report holds and whatever [Math.pow] returns: a
    computed supply is used only when it is finite and positive, and the
    defaults are. *)
Theorem supply_finite_positive (i : Inputs) :
  JS.isFinite (supply pow i) = true /\ JS.gt (supply pow i) 0 = true /\
  JS.truthy (supply pow i) = true.
Proof.
  destruct (supply_valid (report i)) as [Hf Hp].
  repeat split; try assumption. apply gt_zero_truthy, Hp.
Qed.

Lemma finiteOrNull_finite v x :
  finiteOrNull v = Some x -> v = Some x /\ JS.isFinite x = true.
Proof.
  unfold finiteOrNull. destruct v as [y|]; [|discriminate].
  destruct (JS.isFinite y) eqn:E; [|discriminate]. intros [= <-]. auto.
Qed.

(** X7. What the scanner hands to the verdict is validated: a transaction
    count is above zero (never 0, negative or NaN), a 24h volume and a 24h
    price change are finite, a volume/market-cap ratio exists only over a
    market cap above zero, and there is a market cap exactly when there is
    a price that is not a fallback. *)
Theorem scanner_metrics_validated (i : Inputs) :
  (forall t, tx24 (dexResp i) = Some t -> JS.gt t 0 = true /\ JS.truthy t = true) /\
  (forall v, vol24 (dexResp i) = Some v -> JS.isFinite v = true) /\
  (forall c, priceCh24 (dexResp i) = Some c -> JS.isFinite c = true) /\
  (forall r, volToMc pow i = Some r ->
     exists v mc, vol24 (dexResp i) = Some v /\ marketCap pow i = Some mc /\
                  JS.gt mc 0 = true /\ r = v / mc) /\
  (marketCap pow i = None <-> priceUsd i = None) /\
  (forall pr, priceResp i = Some pr -> MemeScanner.isFallback pr = true ->
     priceUsd i = None /\ marketCap pow i = None /\ volToMc pow i = None).
Proof.
  repeat split.
  - revert H. unfold tx24. cbv zeta.
    repeat match goal with
           | |- context [if JS.gt ?e 0 then _ else _] =>
               destruct (JS.gt e 0) eqn:?
           end; intros [= <-]; assumption.
  - apply gt_zero_truthy. revert H. unfold tx24. cbv zeta.
    repeat match goal with
           | |- context [if JS.gt ?e 0 then _ else _] =>
               destruct (JS.gt e 0) eqn:?
           end; intros [= <-]; assumption.
  - intros v H. apply finiteOrNull_finite in H. tauto.
  - intros c H. apply finiteOrNull_finite in H. tauto.
  - intros r. unfold volToMc.
    destruct (vol24 (dexResp i)) as [v|]; [|discriminate].
    destruct (marketCap pow i) as [mc|]; [|discriminate].
    destruct (JS.gt mc 0) eqn:E; [|discriminate].
    intros [= <-]. exists v, mc. auto.
  - unfold marketCap. destruct (priceUsd i); [discriminate|reflexivity].
  - unfold marketCap. intros ->. reflexivity.
  - unfold priceUsd, MemeScanner.priceUsd. rewrite H, H0. reflexivity.
  - unfold marketCap, priceUsd, MemeScanner.priceUsd. rewrite H, H0. reflexivity.
  - unfold volToMc, marketCap, priceUsd, MemeScanner.priceUsd. rewrite H, H0.
    destruct (vol24 (dexResp i)); reflexivity.
Qed.

(** X8. Without a usable price (none yet, or a fallback) there is no market
    cap, so neither the volume/market-cap rule nor the age/market-cap rule
    can apply: the verdict is the one the first revision gives on LP lock,
    transactions, price change and dex label alone. *)
Theorem verdict_without_price (i : Inputs) (Hp : priceUsd i = None) :
  health pow floor i = ScannerV1.computeHealthVerdict (baseParams i) /\
  ~ In HealthScorer.compoundReason (HealthScorer.reasons (health pow floor i)).
Proof.
  assert (Hmc : marketCap pow i = None) by (unfold marketCap; now rewrite Hp).
  assert (Hv : volToMc pow i = None).
  { unfold volToMc. rewrite Hmc. destruct (vol24 (dexResp i)); reflexivity. }
  assert (Hg : HealthScorer.compoundGuard (ageMin floor i) None = false).
  { unfold HealthScorer.compoundGuard.
    destruct (ageMin floor i); [apply andb_false_r|reflexivity]. }
  assert (E : health pow floor i = ScannerV1.computeHealthVerdict (baseParams i)).
  { unfold health, healthParams. rewrite Hv, Hmc.
    apply (verdict_without_compound (baseParams i) (ageMin floor i) None Hg). }
  split; [exact E|].
  unfold health, healthParams, HealthScorer.computeHealthVerdict,
    HealthScorer.runRules, HealthScorer.compoundRule.
  cbn [HealthScorer.reasons HealthScorer.ageMin HealthScorer.marketCap].
  rewrite Hmc, Hg.
  unfold HealthScorer.beforeCompound.
  cbn [HealthScorer.volToMc HealthScorer.lpLockedPct HealthScorer.tx24
       HealthScorer.priceCh24 HealthScorer.dexLabel].
  rewrite Hv.
  unfold HealthScorer.dexRule, HealthScorer.priceRule, HealthScorer.txRule,
    HealthScorer.lpRule, HealthScorer.volRule, HealthScorer.up, HealthScorer.down,
    HealthScorer.compoundReason.
  repeat match goal with
         | |- context [match ?c with _ => _ end] => destruct c
         end;
    cbn; intuition discriminate.
Qed.

End ScannerViewFacts.

(** ** Binary64 order: a total preorder away from NaN *)

Lemma lexcmp_le e1 m1 e2 m2 :
  lexcmp e1 m1 e2 m2 <> Gt <-> (e1 < e2 \/ (e1 = e2 /\ Zpos m1 <= Zpos m2))%Z.
Proof.
  unfold lexcmp. destruct (Z.compare_spec e1 e2) as [E|E|E].
  - change (Pos.compare_cont Eq m1 m2) with (Pos.compare m1 m2).
    destruct (Pos.compare_spec m1 m2) as [F|F|F]; split; intros H;
      try congruence; try lia.
  - split; intros; [lia|discriminate].
  - split; intros H; [congruence|lia].
Qed.

Lemma lexcmp_ge e1 m1 e2 m2 :
  lexcmp e1 m1 e2 m2 <> Lt <-> (e2 < e1 \/ (e1 = e2 /\ Zpos m2 <= Zpos m1))%Z.
Proof.
  unfold lexcmp. destruct (Z.compare_spec e1 e2) as [E|E|E].
  - change (Pos.compare_cont Eq m1 m2) with (Pos.compare m1 m2).
    destruct (Pos.compare_spec m1 m2) as [F|F|F]; split; intros H;
      try congruence; try lia.
  - split; intros H; [congruence|lia].
  - split; intros; [lia|discriminate].
Qed.

Lemma SFleb_finite_pos m1 e1 m2 e2 :
  SFleb (S754_finite false m1 e1) (S754_finite false m2 e2) = true
  <-> lexcmp e1 m1 e2 m2 <> Gt.
Proof.
  unfold SFleb. simpl. fold (lexcmp e1 m1 e2 m2).
  destruct (lexcmp e1 m1 e2 m2); split; intros; congruence.
Qed.

Lemma SFleb_finite_neg m1 e1 m2 e2 :
  SFleb (S754_finite true m1 e1) (S754_finite true m2 e2) = true
  <-> lexcmp e1 m1 e2 m2 <> Lt.
Proof.
  unfold SFleb. simpl.
  replace (match (e1 ?= e2)%Z with
           | Eq => CompOpp (Pos.compare_cont Eq m1 m2)
           | Lt => Gt
           | Gt => Lt
           end) with (CompOpp (lexcmp e1 m1 e2 m2))
    by (unfold lexcmp; destruct (e1 ?= e2)%Z; reflexivity).
  destruct (lexcmp e1 m1 e2 m2); simpl; split; intros; congruence.
Qed.

Lemma SFleb_trans x y z :
  SFleb x y = true -> SFleb y z = true -> SFleb x z = true.
Proof.
  destruct x as [sx|sx| |sx mx ex], y as [sy|sy| |sy my ey],
           z as [sz|sz| |sz mz ez];
    try discriminate; try reflexivity;
    try (destruct sx; try discriminate; try reflexivity;
         destruct sy; try discriminate; try reflexivity;
         destruct sz; try discriminate; try reflexivity; fail);
    try (destruct sx, sy; try discriminate; try reflexivity; fail);
    try (destruct sx, sz; try discriminate; try reflexivity; fail);
    try (destruct sy, sz; try discriminate; try reflexivity; fail).
  all: destruct sx, sy, sz; try discriminate; try reflexivity.
  - rewrite !SFleb_finite_neg, !lexcmp_ge. lia.
  - rewrite !SFleb_finite_pos, !lexcmp_le. lia.
Qed.


Lemma SFcompare_refl x : x <> S754_nan -> SFcompare x x = Some Eq.
Proof.
  destruct x as [s|s| |s m e]; intros H; try reflexivity.
  - now destruct s.
  - congruence.
  - apply SFcompare_refl_finite.
Qed.

Lemma is_nan_spec x : is_nan x = false <-> Prim2SF x <> S754_nan.
Proof.
  unfold is_nan. rewrite FloatAxioms.eqb_spec. unfold SFeqb. split.
  - intros H E. rewrite E in H. discriminate.
  - intros H. now rewrite (SFcompare_refl _ H).
Qed.

Lemma le_not_nan a b :
  JS.le a b = true -> is_nan a = false /\ is_nan b = false.
Proof.
  unfold JS.le. rewrite FloatAxioms.leb_spec, !is_nan_spec. unfold SFleb.
  destruct (Prim2SF a), (Prim2SF b); try discriminate; split; discriminate.
Qed.

Lemma lt_not_nan a b :
  JS.lt a b = true -> is_nan a = false /\ is_nan b = false.
Proof.
  unfold JS.lt. rewrite FloatAxioms.ltb_spec, !is_nan_spec. unfold SFltb.
  destruct (Prim2SF a), (Prim2SF b); try discriminate; split; discriminate.
Qed.

Lemma le_trans a b c : JS.le a b = true -> JS.le b c = true -> JS.le a c = true.
Proof. unfold JS.le. rewrite !FloatAxioms.leb_spec. apply SFleb_trans. Qed.

Lemma le_refl a : is_nan a = false -> JS.le a a = true.
Proof.
  rewrite is_nan_spec. unfold JS.le. rewrite FloatAxioms.leb_spec. intros H.
  unfold SFleb. now rewrite (SFcompare_refl _ H).
Qed.

(** Among numbers that are not NaN, [a <= b] fails exactly when [b < a]. *)
Lemma le_is_not_gt a b :
  is_nan a = false -> is_nan b = false -> JS.le a b = negb (JS.lt b a).
Proof. intros Ha Hb. apply (ge_is_not_lt b a Hb Ha). Qed.

Lemma lt_le a b : JS.lt a b = true -> JS.le a b = true.
Proof.
  unfold JS.lt, JS.le. rewrite FloatAxioms.ltb_spec, FloatAxioms.leb_spec.
  unfold SFltb, SFleb. destruct (SFcompare (Prim2SF a) (Prim2SF b)) as [[]|];
    congruence.
Qed.

Lemma le_lt_trans a b c : JS.le a b = true -> JS.lt b c = true -> JS.lt a c = true.
Proof.
  intros Hab Hbc.
  destruct (le_not_nan _ _ Hab) as [Ha Hb]. destruct (lt_not_nan _ _ Hbc) as [_ Hc].
  destruct (JS.lt a c) eqn:E; [reflexivity|exfalso].
  assert (Hca : JS.le c a = true) by (rewrite (le_is_not_gt c a Hc Ha), E; reflexivity).
  pose proof (le_trans _ _ _ Hca Hab) as Hcb.
  rewrite (le_is_not_gt c b Hc Hb), Hbc in Hcb. discriminate.
Qed.

Lemma lt_le_trans a b c : JS.lt a b = true -> JS.le b c = true -> JS.lt a c = true.
Proof.
  intros Hab Hbc.
  destruct (lt_not_nan _ _ Hab) as [Ha Hb]. destruct (le_not_nan _ _ Hbc) as [_ Hc].
  destruct (JS.lt a c) eqn:E; [reflexivity|exfalso].
  assert (Hca : JS.le c a = true) by (rewrite (le_is_not_gt c a Hc Ha), E; reflexivity).
  pose proof (le_trans _ _ _ Hbc Hca) as Hba.
  rewrite (le_is_not_gt b a Hb Ha), Hab in Hba. discriminate.
Qed.

(** ** Which reason stands for which rule *)

Section ReasonsFacts.
Import HealthScorer.

Ltac snd_step :=
  unfold up, down; cbn [snd]; rewrite ?app_nil_r, <- ?app_assoc; reflexivity.

Lemma volRule_snd v st : snd (volRule v st) = snd st ++ volReasons v.
Proof.
  unfold volRule, volReasons. destruct v as [x|]; [destruct (JS.isFinite x);
    [destruct (JS.ge x 1); [|destruct (JS.ge x c0_2)]|]|]; snd_step.
Qed.

Lemma lpRule_snd v st : snd (lpRule v st) = snd st ++ lpReasons v.
Proof.
  unfold lpRule, lpReasons.
  destruct v as [x|]; [destruct (JS.ge x 75); [|destruct (JS.lt x 25)]|];
    snd_step.
Qed.

Lemma txRule_snd v st : snd (txRule v st) = snd st ++ txReasons v.
Proof.
  unfold txRule, txReasons. destruct v as [x|]; [destruct (JS.isFinite x);
    [destruct (JS.ge x 1000); [|destruct (JS.lt x 50)]|]|]; snd_step.
Qed.

Lemma priceRule_snd v st : snd (priceRule v st) = snd st ++ priceReasons v.
Proof.
  unfold priceRule, priceReasons.
  destruct v as [x|]; [destruct (JS.isFinite x);
    [destruct (JS.gt x 400); destruct (JS.lt x (-60)); cbv zeta|]|];
    simpl app; snd_step.
Qed.

Lemma dexRule_snd l st : snd (dexRule l st) = snd st ++ dexReasons l.
Proof.
  destruct l as [[]|]; cbv beta iota zeta delta [dexRule dexReasons]; snd_step.
Qed.

Lemma compoundRule_snd a m st :
  snd (compoundRule a m st) = snd st ++ compoundReasons a m.
Proof.
  unfold compoundRule, compoundReasons. destruct (compoundGuard a m); snd_step.
Qed.

(** The reasons of a verdict, rule by rule in evaluation order. *)
Lemma reasons_split p :
  reasons (computeHealthVerdict p)
  = volReasons (volToMc p) ++ lpReasons (lpLockedPct p) ++ txReasons (tx24 p)
    ++ priceReasons (priceCh24 p) ++ dexReasons (dexLabel p)
    ++ compoundReasons (ageMin p) (marketCap p).
Proof.
  unfold computeHealthVerdict, runRules, beforeCompound. cbn [reasons].
  rewrite compoundRule_snd, dexRule_snd, priceRule_snd, txRule_snd,
    lpRule_snd, volRule_snd. simpl. now rewrite <- !app_assoc.
Qed.

(** Decides membership of a literal in the reasons of one rule. *)
Ltac rule_cases :=
  unfold volReasons, lpReasons, txReasons, priceReasons, dexReasons,
    compoundReasons, compoundReason;
  repeat match goal with
         | |- context [match ?c with _ => _ end] => destruct c eqn:?
         end;
  cbn; intuition (try discriminate; try congruence).

Lemma in_reasons p r :
  In r (reasons (computeHealthVerdict p)) <->
  In r (volReasons (volToMc p)) \/ In r (lpReasons (lpLockedPct p)) \/
  In r (txReasons (tx24 p)) \/ In r (priceReasons (priceCh24 p)) \/
  In r (dexReasons (dexLabel p)) \/
  In r (compoundReasons (ageMin p) (marketCap p)).
Proof. rewrite reasons_split, !in_app_iff. tauto. Qed.

Lemma in_lp_high p :
  In "LP locked high"%string (reasons (computeHealthVerdict p)) <->
  exists x, lpLockedPct p = Some x /\ JS.ge x 75 = true.
Proof.
  rewrite in_reasons. split.
  - intros [H|[H|[H|[H|[H|H]]]]]; try solve [exfalso; revert H; rule_cases].
    revert H. unfold lpReasons. destruct (lpLockedPct p) as [x|]; [|intros []].
    destruct (JS.ge x 75) eqn:E; [intros _; exists x; auto|].
    destruct (JS.lt x 25); cbn; intuition discriminate.
  - intros (x & Hx & Hge). right. left. unfold lpReasons. rewrite Hx, Hge.
    now left.
Qed.

Lemma in_lp_low p :
  In "LP lock low"%string (reasons (computeHealthVerdict p)) <->
  exists x, lpLockedPct p = Some x /\ JS.ge x 75 = false /\ JS.lt x 25 = true.
Proof.
  rewrite in_reasons. split.
  - intros [H|[H|[H|[H|[H|H]]]]]; try solve [exfalso; revert H; rule_cases].
    revert H. unfold lpReasons. destruct (lpLockedPct p) as [x|]; [|intros []].
    destruct (JS.ge x 75) eqn:E; [cbn; intuition discriminate|].
    destruct (JS.lt x 25) eqn:F; [intros _; exists x; auto|intros []].
  - intros (x & Hx & Hge & Hlt). right. left. unfold lpReasons.
    rewrite Hx, Hge, Hlt. now left.
Qed.

Lemma in_tx_active p :
  In "tx active"%string (reasons (computeHealthVerdict p)) ->
  exists x, tx24 p = Some x /\ JS.ge x 1000 = true.
Proof.
  rewrite in_reasons.
  intros [H|[H|[H|[H|[H|H]]]]]; try solve [exfalso; revert H; rule_cases].
  revert H. unfold txReasons. destruct (tx24 p) as [x|]; [|intros []].
  destruct (JS.isFinite x); [|intros []].
  destruct (JS.ge x 1000) eqn:E; [intros _; exists x; auto|].
  destruct (JS.lt x 50); cbn; intuition discriminate.
Qed.

Lemma in_vol_weak p :
  In "volume/mc weak"%string (reasons (computeHealthVerdict p)) ->
  exists x, volToMc p = Some x /\ JS.isFinite x = true /\ JS.ge x c0_2 = false.
Proof.
  rewrite in_reasons.
  intros [H|[H|[H|[H|[H|H]]]]]; try solve [exfalso; revert H; rule_cases].
  revert H. unfold volReasons. destruct (volToMc p) as [x|]; [|intros []].
  destruct (JS.isFinite x) eqn:Ef; [|intros []].
  destruct (JS.ge x 1); [cbn; intuition discriminate|].
  destruct (JS.ge x c0_2) eqn:E; [cbn; intuition discriminate|].
  intros _. exists x. auto.
Qed.

Lemma in_pump p :
  In "extreme pump"%string (reasons (computeHealthVerdict p)) <->
  exists x, priceCh24 p = Some x /\ JS.isFinite x = true /\ JS.gt x 400 = true.
Proof.
  rewrite in_reasons. split.
  - intros [H|[H|[H|[H|[H|H]]]]]; try solve [exfalso; revert H; rule_cases].
    revert H. unfold priceReasons. destruct (priceCh24 p) as [x|]; [|intros []].
    destruct (JS.isFinite x) eqn:Ef; [|intros []].
    destruct (JS.gt x 400) eqn:E; [intros _; exists x; auto|].
    destruct (JS.lt x (-60)); cbn; intuition discriminate.
  - intros (x & Hx & Hf & Hgt). do 3 right. left. unfold priceReasons.
    rewrite Hx, Hf, Hgt. now left.
Qed.

Lemma in_dump p :
  In "dumping"%string (reasons (computeHealthVerdict p)) <->
  exists x, priceCh24 p = Some x /\ JS.isFinite x = true /\ JS.lt x (-60) = true.
Proof.
  rewrite in_reasons. split.
  - intros [H|[H|[H|[H|[H|H]]]]]; try solve [exfalso; revert H; rule_cases].
    revert H. unfold priceReasons. destruct (priceCh24 p) as [x|]; [|intros []].
    destruct (JS.isFinite x) eqn:Ef; [|intros []].
    destruct (JS.lt x (-60)) eqn:E; [intros _; exists x; auto|].
    destruct (JS.gt x 400); cbn; intuition discriminate.
  - intros (x & Hx & Hf & Hlt). do 3 right. left. unfold priceReasons.
    rewrite Hx, Hf, Hlt. apply in_or_app. right. now left.
Qed.

Lemma in_compound p :
  In compoundReason (reasons (computeHealthVerdict p)) <->
  compoundGuard (ageMin p) (marketCap p) = true.
Proof.
  rewrite in_reasons. split.
  - intros [H|[H|[H|[H|[H|H]]]]]; try solve [exfalso; revert H; rule_cases].
    revert H. unfold compoundReasons.
    destruct (compoundGuard (ageMin p) (marketCap p)); [auto|intros []].
  - intros H. do 5 right. unfold compoundReasons. rewrite H. now left.
Qed.

(** A lock percentage below 25 is not at least 75. *)
Lemma lt25_not_ge75 x : JS.lt x 25 = true -> JS.ge x 75 = false.
Proof.
  intros H. destruct (JS.ge x 75) eqn:E; [exfalso|reflexivity].
  assert (Hc : JS.lt 75 25 = true) by (apply (le_lt_trans 75 x 25); assumption).
  vm_compute in Hc. discriminate.
Qed.

End ReasonsFacts.

(** ** The recommendation and the supply tile *)

Section RecommendationFacts.
Import ScannerView.
Variable pow : float -> float -> float.
Variable floor : float -> float.

Lemma in_pushIf c t ts x :
  In x (pushIf c t ts) <-> In x ts \/ (c = true /\ x = t).
Proof.
  unfold pushIf. destruct c.
  - rewrite in_app_iff. simpl. intuition congruence.
  - intuition discriminate.
Qed.

Lemma holds_spec x test :
  holds x test = true <-> exists v, x = Some v /\ test v = true.
Proof.
  unfold holds. destruct x as [v|]; split.
  - intros H. exists v. auto.
  - intros (w & [= <-] & H). exact H.
  - discriminate.
  - intros (w & [=] & _).
Qed.

Lemma pushIf_not_nil c t ts : ts <> [] -> pushIf c t ts <> [].
Proof.
  unfold pushIf. destruct c; [|auto]. destruct ts; [congruence|discriminate].
Qed.

(** X9. The recommendation agrees with the verdict it is built on: it
    always has a tip; under SAFE it praises the LP lock exactly when the
    verdict lists a high lock, and an active market whenever the verdict
    lists active transactions; under RISKY it warns of a low LP lock
    exactly when the verdict lists one, and of weak volume and of an old
    microcap whenever the verdict lists them; under UNSAFE it warns of a
    pump or of dumping exactly when the verdict lists it, and of an old
    sub-20k market whenever the verdict lists the compound reason. *)
Theorem recommendation_agrees (i : Inputs) :
  let v := health pow floor i in
  let r := recommendation pow floor i in
  tips r <> [] /\
  (HealthScorer.label v = HealthScorer.SAFE ->
     (In "LP lock strong"%string (tips r)
      <-> In "LP locked high"%string (HealthScorer.reasons v)) /\
     (In "tx active"%string (HealthScorer.reasons v)
      -> In "Active market conditions"%string (tips r))) /\
  (HealthScorer.label v = HealthScorer.RISKY ->
     (In "Low LP lock"%string (tips r)
      <-> In "LP lock low"%string (HealthScorer.reasons v)) /\
     (In "volume/mc weak"%string (HealthScorer.reasons v)
      -> In "Weak vol/MC"%string (tips r)) /\
     (In HealthScorer.compoundReason (HealthScorer.reasons v)
      -> In "Older microcap; elevated risk"%string (tips r))) /\
  (HealthScorer.label v = HealthScorer.UNSAFE ->
     (In "Extreme pump risk"%string (tips r)
      <-> In "extreme pump"%string (HealthScorer.reasons v)) /\
     (In "Heavy dumping"%string (tips r)
      <-> In "dumping"%string (HealthScorer.reasons v)) /\
     (In HealthScorer.compoundReason (HealthScorer.reasons v)
      -> In "Old and sub-$20k market"%string (tips r))).
Proof.
  cbv zeta.
  assert (Hold : In HealthScorer.compoundReason
                   (HealthScorer.reasons (health pow floor i)) ->
                 oldAndSmall pow floor i = true).
  { unfold health. rewrite in_compound. unfold healthParams, oldAndSmall.
    cbn [HealthScorer.ageMin HealthScorer.marketCap].
    unfold HealthScorer.compoundGuard, holds.
    destruct (ageMin floor i) as [a|]; [|discriminate].
    destruct (marketCap pow i) as [m|]; [|now rewrite andb_false_r].
    rewrite !andb_true_iff. tauto. }
  assert (Hpc : forall c, priceCh24 (dexResp i) = Some c -> JS.isFinite c = true).
  { intros c H. apply finiteOrNull_finite in H. tauto. }
  split; [|split; [|split]].
  - unfold recommendation. cbn [tips].
    destruct (HealthScorer.label (health pow floor i));
      repeat apply pushIf_not_nil; discriminate.
  - intros Hl. unfold recommendation. cbn [tips]. rewrite Hl. split.
    + rewrite !in_pushIf, holds_spec. unfold health. rewrite in_lp_high.
      cbn [healthParams HealthScorer.lpLockedPct]. simpl In.
      intuition (try discriminate; try congruence).
    + intros H. unfold health in H. apply in_tx_active in H.
      cbn [healthParams HealthScorer.tx24] in H.
      rewrite !in_pushIf. right. split; [|reflexivity]. now apply holds_spec.
  - intros Hl. unfold recommendation. cbn [tips]. rewrite Hl. split; [|split].
    + rewrite !in_pushIf, holds_spec. unfold health. rewrite in_lp_low.
      cbn [healthParams HealthScorer.lpLockedPct]. simpl In. split.
      * intros [[[[H|[]]|[H _]]|[_ H]]|[_ H]]; try discriminate.
        destruct H as (x & Hx & Hlt). exists x.
        repeat split; auto using lt25_not_ge75.
      * intros (x & Hx & _ & Hlt). left. left. right. split; [|reflexivity].
        exists x. auto.
    + intros H. unfold health in H. apply in_vol_weak in H.
      cbn [healthParams HealthScorer.volToMc] in H.
      destruct H as (x & Hx & Hf & Hge).
      rewrite !in_pushIf. left. right. split; [|reflexivity].
      apply holds_spec. exists x. split; [exact Hx|].
      rewrite (ge_is_not_lt x HealthScorer.c0_2 (finite_not_nan x Hf) eq_refl) in Hge.
      now destruct (JS.lt x HealthScorer.c0_2).
    + intros H. rewrite !in_pushIf. right. split; [apply Hold, H|reflexivity].
  - intros Hl. unfold recommendation. cbn [tips]. rewrite Hl. split; [|split].
    + rewrite !in_pushIf, !holds_spec. unfold health. rewrite in_pump.
      cbn [healthParams HealthScorer.priceCh24]. simpl In. split.
      * intros [[[[H|[]]|[_ H]]|[H _]]|[_ H]]; try discriminate.
        destruct H as (x & Hx & Hgt). exists x. auto.
      * intros (x & Hx & _ & Hgt). left. right. split; [|reflexivity].
        exists x. auto.
    + rewrite !in_pushIf, !holds_spec. unfold health. rewrite in_dump.
      cbn [healthParams HealthScorer.priceCh24]. simpl In. split.
      * intros [[[[H|[]]|[_ H]]|[_ H]]|[H _]]; try discriminate.
        destruct H as (x & Hx & Hlt). exists x. auto.
      * intros (x & Hx & _ & Hlt). right. split; [|reflexivity].
        exists x. auto.
    + intros H. rewrite !in_pushIf. left. left. right.
      split; [apply Hold, H|reflexivity].
Qed.

Lemma supplyEffect_settled st r :
  supplySettled st ->
  supplySettled (supplyEffect st (MemeScanner.supply pow r)) /\
  supplyStable (supplyEffect st (MemeScanner.supply pow r))
  = Some (MemeScanner.supply pow r).
Proof.
  intros Hst. destruct (supply_valid pow r) as [Hf Hp].
  unfold supplyEffect.
  destruct (lastSupply st) as [d|] eqn:Ed.
  - destruct (JS.objectIs d (MemeScanner.supply pow r)) eqn:Eo; simpl.
    + apply FloatAxioms.Leibniz.eqb_spec in Eo. subst d.
      split; [exact Hst|]. apply Hst, Ed.
    + rewrite Hf, Hp. simpl. split; [|reflexivity].
      intros d'. simpl. auto.
  - rewrite Hf, Hp. simpl. split; [|reflexivity]. intros d'. simpl. auto.
Qed.

Lemma supplyTicks_settled rs : forall st,
  supplySettled st -> supplySettled (supplyTicks pow st rs).
Proof.
  unfold supplyTicks.
  induction rs as [|x rs IH]; intros st Hst; simpl; [assumption|].
  apply IH, supplyEffect_settled, Hst.
Qed.

Lemma supplyTicks_last rs prev :
  supplyStable (supplyTicks pow mountedSupply (rs ++ [prev]))
  = Some (MemeScanner.supply pow prev).
Proof.
  unfold supplyTicks. rewrite fold_left_app. cbn [fold_left].
  apply supplyEffect_settled.
  apply (supplyTicks_settled rs). intros d. discriminate.
Qed.

(** X10. The supply tile over a run of renders.  On the first render ever
    the first paint shows the live supply.  On a render that follows
    others the first paint shows the supply of the previous render, which
    is stale when the report has changed, and once the effect has run the
    tile shows the live supply.  Every paint shows a finite number above
    zero. *)
Theorem supply_tile_paints (reports : list (option MemeScanner.RugReport))
    (prev r : option MemeScanner.RugReport) :
  let live := MemeScanner.supply pow r in
  let before := supplyTicks pow mountedSupply reports in
  shownSupply mountedSupply live = live /\
  shownSupply (supplyTicks pow mountedSupply (reports ++ [prev])) live
  = MemeScanner.supply pow prev /\
  shownSupply (supplyEffect before live) live = live /\
  JS.isFinite (shownSupply before live) = true /\
  JS.gt (shownSupply before live) 0 = true.
Proof.
  cbv zeta.
  assert (H0 : supplySettled mountedSupply) by (intros d; discriminate).
  split; [reflexivity|]. split; [|split].
  - unfold shownSupply. now rewrite supplyTicks_last.
  - destruct (supplyEffect_settled _ r (supplyTicks_settled reports _ H0)) as [_ Hs].
    unfold shownSupply. now rewrite Hs.
  - destruct reports as [|r0 rest] using rev_ind.
    + apply (supply_valid pow r).
    + unfold shownSupply. rewrite supplyTicks_last. apply (supply_valid pow r0).
Qed.

End RecommendationFacts.

(** The stale first paint, on an instance: after a render without a report
    and a render of a supply of 5000, the first paint of a report with a
    supply of 7000 still shows 5000; the settled tile shows 7000. *)
Example supply_tile_stale_paint :
  let pow := fun _ _ : float => 1 in
  let live := MemeScanner.supply pow (reportOf 7000) in
  let before :=
    ScannerView.supplyTicks pow ScannerView.mountedSupply [None; reportOf 5000] in
  live = 7000 /\
  ScannerView.shownSupply before live = 5000 /\
  ScannerView.shownSupply (ScannerView.supplyEffect before live) live = 7000.
Proof. vm_compute. repeat split; reflexivity. Qed.

(** ** ActivityAggregator: how the history is partitioned *)

Section GroupingFacts.
Import App.

Lemma get_set_same m k g : get (set m k g) k = Some g.
Proof.
  induction m as [|[k' g'] rest IH]; simpl.
  - now rewrite String.eqb_refl.
  - destruct (String.eqb k' k) eqn:E; simpl; rewrite E; [reflexivity|exact IH].
Qed.

Lemma get_set_other m k g k' : k' <> k -> get (set m k g) k' = get m k'.
Proof.
  intros Hne. induction m as [|[k0 g0] rest IH]; simpl.
  - destruct (String.eqb_spec k k'); [congruence|reflexivity].
  - destruct (String.eqb_spec k0 k) as [->|Hk]; simpl.
    + destruct (String.eqb_spec k k'); [congruence|reflexivity].
    + destruct (String.eqb k0 k'); [reflexivity|exact IH].
Qed.

Lemma get_none_keys m k : get m k = None <-> ~ In k (keys m).
Proof.
  induction m as [|[k' g'] rest IH]; simpl; [tauto|].
  destruct (String.eqb_spec k' k) as [->|Hk].
  - split; [discriminate|tauto].
  - rewrite IH. tauto.
Qed.

Lemma keys_set m k g :
  keys (set m k g)
  = match get m k with Some _ => keys m | None => keys m ++ [k] end.
Proof.
  induction m as [|[k' g'] rest IH]; simpl; [reflexivity|].
  destruct (String.eqb_spec k' k) as [->|Hk]; simpl; [reflexivity|].
  rewrite IH. now destruct (get rest k).
Qed.

Lemma in_get m k g : NoDup (keys m) -> (In (k, g) m <-> get m k = Some g).
Proof.
  induction m as [|[k' g'] rest IH]; simpl; intros Hnd.
  - split; [tauto|discriminate].
  - inversion Hnd as [|? ? Hnotin Hrest]; subst.
    destruct (String.eqb_spec k' k) as [->|Hk].
    + split.
      * intros [[= ->]|Hin]; [reflexivity|].
        exfalso. apply Hnotin. apply (in_map fst) in Hin. exact Hin.
      * intros [= ->]. now left.
    + rewrite <- (IH Hrest). split.
      * intros [[= -> _]|Hin]; [congruence|exact Hin].
      * tauto.
Qed.

(** Each mint is processed on its own: its group is what the loop body
    makes of its entries. *)
Lemma get_fold_visit hist : forall m k,
  get (fold_left visit hist m) k = absorbAll (get m k) (entriesOf k hist).
Proof.
  induction hist as [|h rest IH]; intros m k; simpl; [reflexivity|].
  rewrite IH. unfold visit.
  destruct (String.eqb_spec (Ledger.mint h) k) as [<-|Hk].
  - rewrite get_set_same. reflexivity.
  - rewrite get_set_other by congruence. reflexivity.
Qed.

Lemma keys_fold_visit hist : forall m,
  NoDup (keys m) ->
  NoDup (keys (fold_left visit hist m)) /\
  (forall k, In k (keys (fold_left visit hist m))
             <-> In k (keys m) \/ In k (map Ledger.mint hist)).
Proof.
  induction hist as [|h rest IH]; intros m Hnd; simpl.
  - split; [assumption|tauto].
  - assert (Hnd' : NoDup (keys (visit m h))).
    { unfold visit. rewrite keys_set.
      destruct (get m (Ledger.mint h)) eqn:E; [assumption|].
      apply get_none_keys in E.
      apply NoDup_app; [assumption|repeat constructor; auto|].
      intros x Hx [<-|[]]. tauto. }
    destruct (IH _ Hnd') as [H1 H2]. split; [assumption|].
    intros k. rewrite H2. unfold visit at 1. rewrite keys_set.
    destruct (get m (Ledger.mint h)) eqn:E.
    + assert (In (Ledger.mint h) (keys m)).
      { destruct (in_dec string_dec (Ledger.mint h) (keys m)) as [|Hn]; [assumption|].
        apply get_none_keys in Hn. congruence. }
      split; [tauto|]. intros [Hk|[<-|Hk]]; tauto.
    + rewrite in_app_iff. simpl. tauto.
Qed.

(** What the loop body keeps of a run of entries. *)
Lemma absorb_run hs : forall g,
  let g' := fold_left (fun g h => absorb h g) hs g in
  mint g' = mint g /\
  buys g' = buys g ++ filter Ledger.isBuy hs /\
  sells g' = sells g ++ filter Ledger.isSell hs /\
  totalBuyQty g'
  = fold_left (fun a h => a + Ledger.qtyOf h) (filter Ledger.isBuy hs) (totalBuyQty g) /\
  totalSellQty g'
  = fold_left (fun a h => a + Ledger.qtyOf h) (filter Ledger.isSell hs) (totalSellQty g).
Proof.
  induction hs as [|h rest IH]; intros g; cbv zeta; simpl.
  - rewrite !app_nil_r. auto.
  - destruct (IH (absorb h g)) as (Hm & Hb & Hs & Hbq & Hsq).
    rewrite Hm, Hb, Hs, Hbq, Hsq.
    unfold absorb, Ledger.isBuy, Ledger.isSell.
    cbn [mint buys sells totalBuyQty totalSellQty].
    destruct (Ledger.side h); cbn [fold_left];
      rewrite <- ?app_assoc; simpl; auto.
Qed.

Lemma absorbAll_some hs : forall g,
  absorbAll (Some g) hs = Some (fold_left (fun g h => absorb h g) hs g).
Proof.
  induction hs as [|h rest IH]; intros g; simpl; [reflexivity|]. apply IH.
Qed.

(** The group of a mint, from its entries. *)
Lemma absorbAll_group k hist g :
  absorbAll None (entriesOf k hist) = Some g ->
  In k (map Ledger.mint hist) /\
  mint g = k /\
  buys g = filter Ledger.isBuy (entriesOf k hist) /\
  sells g = filter Ledger.isSell (entriesOf k hist) /\
  totalBuyQty g = Ledger.sumBy Ledger.qtyOf (buys g) /\
  totalSellQty g = Ledger.sumBy Ledger.qtyOf (sells g).
Proof.
  destruct (entriesOf k hist) as [|h0 rest] eqn:E; [discriminate|].
  assert (Hin : In h0 (entriesOf k hist)) by (rewrite E; now left).
  apply filter_In in Hin. destruct Hin as [Hin Hk].
  apply String.eqb_eq in Hk.
  unfold absorbAll. cbn [fold_left].
  change (fold_left _ rest (Some (absorb h0 (fresh h0))))
    with (absorbAll (Some (absorb h0 (fresh h0))) rest).
  rewrite absorbAll_some. intros [= <-].
  change (fold_left (fun g h => absorb h g) rest (absorb h0 (fresh h0)))
    with (fold_left (fun g h => absorb h g) (h0 :: rest) (fresh h0)).
  destruct (absorb_run (h0 :: rest) (fresh h0)) as (Hm & Hb & Hs & Hbq & Hsq).
  cbv zeta in *. rewrite Hm, Hb, Hs, Hbq, Hsq.
  unfold Ledger.sumBy. cbn [fresh mint buys sells totalBuyQty totalSellQty app].
  repeat split; try reflexivity.
  - apply in_map_iff. exists h0. auto.
  - exact Hk.
Qed.

Lemma insertBy_perm {A : Type} (cmp : A -> A -> float) x (l : list A) :
  Permutation (Ledger.insertBy cmp x l) (x :: l).
Proof.
  induction l as [|y rest IH]; simpl; [reflexivity|].
  destruct (JS.gt (cmp y x) 0); [reflexivity|].
  rewrite IH. apply perm_swap.
Qed.

(** Sorting rearranges and nothing else. *)
Lemma sortBy_perm {A : Type} (cmp : A -> A -> float) (l : list A) :
  Permutation (Ledger.sortBy cmp l) l.
Proof.
  unfold Ledger.sortBy.
  assert (H : forall acc, Permutation
            (fold_left (fun acc x => Ledger.insertBy cmp x acc) l acc) (acc ++ l)).
  { induction l as [|x rest IH]; intros acc; simpl.
    - now rewrite app_nil_r.
    - rewrite IH, insertBy_perm. apply Permutation_middle. }
  apply (H []).
Qed.

Lemma groupedActivity_perm hist :
  Permutation (groupedActivity hist) (unsorted hist).
Proof. unfold groupedActivity. apply sortBy_perm. Qed.

Lemma item_group hist it :
  In it (groupedActivity hist) ->
  it = summarize (group it) /\
  absorbAll None (entriesOf (mint (group it)) hist) = Some (group it).
Proof.
  intros Hin. apply (Permutation_in _ (groupedActivity_perm hist)) in Hin.
  unfold unsorted, values in Hin. rewrite map_map in Hin.
  apply in_map_iff in Hin. destruct Hin as ([k g] & <- & Hin).
  cbn [snd group summarize]. split; [reflexivity|].
  destruct (keys_fold_visit hist [] (NoDup_nil _)) as [Hnd _].
  apply (in_get _ _ _ Hnd) in Hin.
  rewrite get_fold_visit in Hin. cbn [get] in Hin.
  destruct (absorbAll_group k hist g Hin) as (_ & Hm & _).
  now rewrite Hm.
Qed.

(** X11. [groupedActivity] partitions the history by mint: the items carry
    distinct mints, every entry's mint has an item, and the item of a mint
    holds exactly that mint's buy entries and sell entries, each in
    history order. *)
Theorem groupedActivity_partition (hist : list Ledger.HistoryItem) :
  NoDup (map (fun it => mint (group it)) (groupedActivity hist)) /\
  (forall h, In h hist ->
     exists it, In it (groupedActivity hist) /\ mint (group it) = Ledger.mint h) /\
  (forall it, In it (groupedActivity hist) ->
     In (mint (group it)) (map Ledger.mint hist) /\
     buys (group it) = filter Ledger.isBuy (entriesOf (mint (group it)) hist) /\
     sells (group it) = filter Ledger.isSell (entriesOf (mint (group it)) hist)).
Proof.
  destruct (keys_fold_visit hist [] (NoDup_nil _)) as [Hnd Hkeys].
  assert (Hmint : forall kg, In kg (fold_left visit hist []) ->
            mint (snd kg) = fst kg).
  { intros [k g] Hin. apply (in_get _ _ _ Hnd) in Hin.
    rewrite get_fold_visit in Hin. cbn [get] in Hin.
    destruct (absorbAll_group k hist g Hin) as (_ & Hm & _). exact Hm. }
  split; [|split].
  - apply (Permutation_NoDup
             (Permutation_map _ (Permutation_sym (groupedActivity_perm hist)))).
    unfold unsorted, values. rewrite !map_map. cbn [group summarize].
    rewrite (map_ext_in _ fst); [exact Hnd|]. intros kg Hin. now apply Hmint.
  - intros h Hh.
    assert (Hk : In (Ledger.mint h) (keys (fold_left visit hist []))).
    { apply Hkeys. right. now apply in_map. }
    unfold keys in Hk. apply in_map_iff in Hk. destruct Hk as ([k g] & Hfst & Hin).
    simpl in Hfst. subst k.
    exists (summarize g). split.
    + apply (Permutation_in _ (Permutation_sym (groupedActivity_perm hist))).
      unfold unsorted, values. rewrite map_map. apply in_map_iff.
      exists (Ledger.mint h, g). auto.
    + cbn [group summarize]. apply (Hmint _ Hin).
  - intros it Hin. destruct (item_group hist it Hin) as [_ Hg].
    destruct (absorbAll_group _ hist _ Hg) as (Hk & _ & Hb & Hs & _).
    auto.
Qed.

(** X12. The quantity totals the loop keeps for an item are the sums of the
    quantities of its buys and of its sells, the very sums the weighted
    prices divide by. *)
Theorem groupedActivity_totals (hist : list Ledger.HistoryItem) (it : Item)
    (Hin : In it (groupedActivity hist)) :
  totalBuyQty (group it) = Ledger.sumBy Ledger.qtyOf (buys (group it)) /\
  totalSellQty (group it) = Ledger.sumBy Ledger.qtyOf (sells (group it)) /\
  (forall p, buyWeightedPrice it = Some p ->
     p = Ledger.sumBy (fun x => Ledger.priceOf x * Ledger.qtyOf x) (buys (group it))
         / totalBuyQty (group it)) /\
  (forall p, sellWeightedPrice it = Some p ->
     p = Ledger.sumBy (fun x => Ledger.priceOf x * Ledger.qtyOf x) (sells (group it))
         / totalSellQty (group it)).
Proof.
  destruct (item_group hist it Hin) as [Hit Hg].
  destruct (absorbAll_group _ hist _ Hg) as (_ & _ & _ & _ & Hbq & Hsq).
  split; [exact Hbq|]. split; [exact Hsq|].
  rewrite Hit. cbn [buyWeightedPrice sellWeightedPrice summarize group].
  unfold weightedPrice. rewrite Hbq, Hsq. split; intros p.
  - destruct (JS.le (Ledger.sumBy Ledger.qtyOf (buys (group it))) 0);
      [discriminate|]. now intros [= <-].
  - destruct (JS.le (Ledger.sumBy Ledger.qtyOf (sells (group it))) 0);
      [discriminate|]. now intros [= <-].
Qed.

Lemma groupedActivity_totals_witness :
  totalBuyQty (group (summarize (absorb exampleSell (absorb exampleBuy (fresh exampleBuy)))))
  = 10.
Proof.
  pose proof (groupedActivity_totals [exampleBuy; exampleSell]
                (summarize (absorb exampleSell (absorb exampleBuy (fresh exampleBuy))))
                (or_introl eq_refl)) as [H _].
  rewrite H. reflexivity.
Defined.

End GroupingFacts.

(** ** TimeframeAggregator: every window *)

Section WindowFacts.
Import PortfolioAnalyzer.

Lemma accumulate_window start hist : forall acc,
  fold_left (accumulate start) hist acc
  = fold_left (accumulate start) (inWindow start hist) acc.
Proof.
  induction hist as [|h rest IH]; intros acc; simpl; [reflexivity|].
  destruct (JS.ge (Ledger.ts h) start) eqn:E; simpl.
  - apply IH.
  - unfold accumulate at 2. rewrite E. apply IH.
Qed.

Lemma inWindow_allSince start hist : allSince start (inWindow start hist).
Proof.
  unfold allSince, inWindow. apply Forall_forall. intros h Hh.
  apply filter_In in Hh. tauto.
Qed.

Lemma inWindow_idempotent start hist :
  inWindow start (inWindow start hist) = inWindow start hist.
Proof.
  unfold inWindow. induction hist as [|h rest IH]; simpl; [reflexivity|].
  destruct (JS.ge (Ledger.ts h) start) eqn:E; simpl; [|exact IH].
  rewrite E. now f_equal.
Qed.

(** X13. For every timeframe the statistics are those of the ledger cut
    down to the window: pnl is the realized PnL of the entries whose
    timestamp is at least the window start, and roi is that pnl over their
    buy cost in percent, or null when the buy cost is not above zero.
    Entries outside the window (and entries whose timestamp is NaN) have
    no influence. *)
Theorem timeframe_is_windowed_ledger (data : option AppState)
    (timeframe : Timeframe) (now : float) :
  let w := inWindow (windowStart timeframe now) (historyOf data) in
  pnl (timeframeStats data timeframe now) = realizedPnL (withHistory data w) /\
  roi (timeframeStats data timeframe now)
  = (if JS.gt (buyCost (withHistory data w)) 0
     then Some ((realizedPnL (withHistory data w) / buyCost (withHistory data w)) * 100)
     else None) /\
  timeframeStats data timeframe now = timeframeStats (withHistory data w) timeframe now.
Proof.
  cbv zeta. unfold timeframeStats, realizedPnL, buyCost, sellProceeds, totalFees.
  cbn [historyOf withHistory history].
  set (start := windowStart timeframe now).
  set (w := inWindow start (historyOf data)).
  assert (Hacc : fold_left (accumulate start) (historyOf data)
                   {| sumBuys := 0; sumSells := 0; sumFees := 0 |}
                 = {| sumBuys := Ledger.sumBy Ledger.valueOf (filter Ledger.isBuy w);
                      sumSells := Ledger.sumBy Ledger.valueOf (filter Ledger.isSell w);
                      sumFees := Ledger.sumBy Ledger.feeOf w |}).
  { rewrite accumulate_window. fold w.
    rewrite (accumulate_all start w (inWindow_allSince start _)).
    cbn [sumBuys sumSells sumFees]. unfold Ledger.sumBy, Ledger.valueOf.
    rewrite !sum_filter; auto using zero_not_neg_zero, orZero_not_neg_zero. }
  assert (Hacc' : fold_left (accumulate start) w
                    {| sumBuys := 0; sumSells := 0; sumFees := 0 |}
                  = fold_left (accumulate start) (historyOf data)
                      {| sumBuys := 0; sumSells := 0; sumFees := 0 |}).
  { rewrite (accumulate_window start (historyOf data)),
      (accumulate_window start w). unfold w.
    now rewrite inWindow_idempotent. }
  unfold statsFrom. rewrite Hacc', Hacc. cbn [pnl roi sumBuys sumSells sumFees].
  repeat split.
Qed.

End WindowFacts.

(** ** PortfolioAnalyzer: last prices and the distribution *)

Section PositionsFacts.
Import Positions.
Variable inherited : string -> bool.

Lemma own_assign_same acc k e : own (assign acc k e) k = Some e.
Proof.
  induction acc as [|[k' e'] rest IH]; simpl.
  - now rewrite String.eqb_refl.
  - destruct (String.eqb k' k) eqn:E; simpl; rewrite E; [reflexivity|exact IH].
Qed.

Lemma own_assign_other acc k e k' : k' <> k -> own (assign acc k e) k' = own acc k'.
Proof.
  intros Hne. induction acc as [|[k0 e0] rest IH]; simpl.
  - destruct (String.eqb_spec k k'); [congruence|reflexivity].
  - destruct (String.eqb_spec k0 k) as [->|Hk]; simpl.
    + destruct (String.eqb_spec k k'); [congruence|reflexivity].
    + destruct (String.eqb k0 k'); [reflexivity|exact IH].
Qed.

Lemma own_record_other acc h k :
  Ledger.mint h <> k -> own (record inherited acc h) k = own acc k.
Proof.
  intros Hne. unfold record.
  destruct (JS.isFinite (Ledger.price h)); [|reflexivity].
  destruct (lookup inherited acc (Ledger.mint h)) as [prev| |];
    [destruct (JS.gt (Ledger.ts h) (ts prev))| |];
    try reflexivity; apply own_assign_other; congruence.
Qed.

(** A key that is inherited never becomes an own property. *)
Lemma inherited_never_own hist : forall acc k,
  inherited k = true -> own acc k = None ->
  own (fold_left (record inherited) hist acc) k = None.
Proof.
  induction hist as [|h rest IH]; intros acc k Hk Hown; simpl; [exact Hown|].
  apply IH; [exact Hk|].
  destruct (String.eqb_spec (Ledger.mint h) k) as [E|E].
  - unfold record, lookup. rewrite E, Hown, Hk.
    destruct (JS.isFinite (Ledger.price h)); exact Hown.
  - now rewrite own_record_other.
Qed.

(** A key that is not inherited holds the latest of its priced entries. *)
Lemma own_fold_record hist : forall acc k,
  inherited k = false ->
  own (fold_left (record inherited) hist acc) k
  = keepLatest (own acc k) (priced k hist).
Proof.
  induction hist as [|h rest IH]; intros acc k Hk; simpl; [reflexivity|].
  rewrite (IH _ _ Hk).
  destruct (String.eqb_spec (Ledger.mint h) k) as [E|E]; simpl.
  - unfold record, lookup. rewrite E, Hk.
    destruct (JS.isFinite (Ledger.price h)); simpl; [|reflexivity].
    destruct (own acc k) as [prev|] eqn:Eo.
    + destruct (JS.gt (Ledger.ts h) (ts prev)); [|now rewrite Eo].
      now rewrite own_assign_same.
    + now rewrite own_assign_same.
  - now rewrite own_record_other.
Qed.

(** What [keepLatest] keeps comes from an entry; it keeps nothing only of
    no entries. *)
Lemma keepLatest_from hs : forall o e,
  keepLatest o hs = Some e -> o = Some e \/ exists h, In h hs /\ e = entry h.
Proof.
  induction hs as [|h rest IH]; intros o e; simpl; [auto|].
  intros H. apply IH in H. destruct H as [H|(h' & Hin & He)].
  - destruct o as [prev|].
    + destruct (JS.gt (Ledger.ts h) (ts prev)).
      * injection H as <-. right. exists h. auto.
      * auto.
    + injection H as <-. right. exists h. auto.
  - right. exists h'. auto.
Qed.

Lemma keepLatest_some hs : forall o,
  keepLatest o hs = None -> o = None /\ hs = [].
Proof.
  induction hs as [|h rest IH]; intros o; simpl; [auto|].
  intros H. apply IH in H. destruct H as [H _].
  destruct o as [prev|]; [destruct (JS.gt (Ledger.ts h) (ts prev))|]; discriminate.
Qed.

(** Among timestamps that are not NaN, what [keepLatest] keeps is at least
    as late as every entry. *)
Lemma keepLatest_max hs : forall o e,
  (forall h, In h hs -> is_nan (Ledger.ts h) = false) ->
  (forall prev, o = Some prev -> is_nan (ts prev) = false) ->
  keepLatest o hs = Some e ->
  is_nan (ts e) = false /\
  (forall prev, o = Some prev -> JS.le (ts prev) (ts e) = true) /\
  (forall h, In h hs -> JS.le (Ledger.ts h) (ts e) = true).
Proof.
  induction hs as [|h rest IH]; intros o e Hts Ho; simpl.
  - intros ->. split; [now apply Ho|]. split; [|contradiction].
    intros prev [= <-]. apply le_refl. now apply Ho.
  - intros H.
    assert (Hh : is_nan (Ledger.ts h) = false) by (apply Hts; now left).
    assert (Hrest : forall h', In h' rest -> is_nan (Ledger.ts h') = false)
      by (intros h' Hin; apply Hts; now right).
    destruct o as [prev|].
    + assert (Hp : is_nan (ts prev) = false) by now apply Ho.
      destruct (JS.gt (Ledger.ts h) (ts prev)) eqn:E.
      * destruct (IH _ e Hrest (fun q (Hq : Some (entry h) = Some q) =>
                    eq_ind (entry h) (fun r => is_nan (ts r) = false) Hh q
                      (f_equal (fun o => match o with Some r => r | None => entry h end) Hq))
                    H) as (Hn & Hprev & Hall).
        specialize (Hprev _ eq_refl). cbn [entry ts] in Hprev.
        split; [exact Hn|]. split.
        -- intros q [= <-]. apply (le_trans _ (Ledger.ts h)); [|exact Hprev].
           apply lt_le. exact E.
        -- intros h' [<-|Hin]; [exact Hprev|now apply Hall].
      * destruct (IH _ e Hrest Ho H) as (Hn & Hprev & Hall).
        split; [exact Hn|]. split; [exact Hprev|].
        intros h' [<-|Hin]; [|now apply Hall].
        apply (le_trans _ (ts prev)); [|now apply Hprev].
        rewrite (le_is_not_gt _ _ Hh Hp). unfold JS.gt in E. unfold JS.lt.
        now rewrite E.
    + destruct (IH _ e Hrest (fun q (Hq : Some (entry h) = Some q) =>
                  eq_ind (entry h) (fun r => is_nan (ts r) = false) Hh q
                    (f_equal (fun o => match o with Some r => r | None => entry h end) Hq))
                  H) as (Hn & Hprev & Hall).
      specialize (Hprev _ eq_refl). cbn [entry ts] in Hprev.
      split; [exact Hn|]. split; [discriminate|].
      intros h' [<-|Hin]; [exact Hprev|now apply Hall].
Qed.

(** X14. [lastPriceByMint] on a mint that does not collide with a property
    of [Object.prototype]: it has a last price exactly when the history has
    an entry of that mint with a finite price; the price it reports is the
    finite price of such an entry; and when no timestamp of the history is
    NaN that entry is at least as late as every other priced entry of the
    mint. *)
Theorem lastPriceByMint_latest (hist : list Ledger.HistoryItem) (k : string)
    (Hk : inherited k = false)
    (Hts : forall h, In h hist -> is_nan (Ledger.ts h) = false) :
  (lastOf inherited (lastPriceByMint inherited hist) k = None
   <-> priced k hist = []) /\
  (forall p, lastOf inherited (lastPriceByMint inherited hist) k = Some p ->
     exists h, In h hist /\ Ledger.mint h = k /\ Ledger.price h = p /\
       JS.isFinite p = true /\
       forall h', In h' hist -> Ledger.mint h' = k ->
         JS.isFinite (Ledger.price h') = true ->
         JS.le (Ledger.ts h') (Ledger.ts h) = true).
Proof.
  unfold lastOf, lookup, lastPriceByMint.
  rewrite (own_fold_record hist [] k Hk). cbn [own]. rewrite Hk.
  destruct (keepLatest None (priced k hist)) as [e|] eqn:E.
  - assert (Hp : forall h, In h (priced k hist) -> is_nan (Ledger.ts h) = false).
    { intros h Hin. apply filter_In in Hin. now apply Hts. }
    split.
    + split; [discriminate|]. intros Hnil. rewrite Hnil in E. discriminate.
    + intros p [= <-].
      destruct (keepLatest_from _ _ _ E) as [|(h & Hin & ->)]; [discriminate|].
      destruct (keepLatest_max _ _ _ Hp (fun q (Hq : None = Some q) =>
                  False_ind _ (eq_ind None (fun o => match o with
                    | None => True | Some _ => False end) I _ Hq)) E)
        as (_ & _ & Hall).
      apply filter_In in Hin. destruct Hin as [Hin Hc].
      apply andb_true_iff in Hc. destruct Hc as [Hm Hf].
      apply String.eqb_eq in Hm.
      exists h. repeat split; auto.
      intros h' Hin' Hm' Hf'. apply (Hall h').
      apply filter_In. split; [exact Hin'|].
      rewrite Hf', andb_true_r. now apply String.eqb_eq.
  - apply keepLatest_some in E. destruct E as [_ E]. split.
    + tauto.
    + discriminate.
Qed.

(** X15. A mint that names a property of [Object.prototype] never gets a
    last price, whatever the history holds, so a position under that mint
    shows no PnL percentage. *)
Theorem lastPriceByMint_inherited (hist : list Ledger.HistoryItem) (k : string)
    (p : TradePanel.Position) (Hk : inherited k = true) :
  own (lastPriceByMint inherited hist) k = None /\
  lastOf inherited (lastPriceByMint inherited hist) k = None /\
  pnlPct (withPnl inherited (lastPriceByMint inherited hist) (k, p)) = None.
Proof.
  assert (Ho : own (lastPriceByMint inherited hist) k = None)
    by (apply inherited_never_own; [exact Hk|reflexivity]).
  assert (Hl : lastOf inherited (lastPriceByMint inherited hist) k = None)
    by (unfold lastOf, lookup; now rewrite Ho, Hk).
  repeat split; try assumption.
  unfold withPnl. cbn [pnlPct]. now rewrite Hl.
Qed.

End PositionsFacts.

Section DistFacts.
Import Positions.

Lemma dist_fold ps : forall d,
  over200 (fold_left bucket ps d)
  = (over200 d + countIf (fun v => JS.gt v 200) ps)%nat /\
  between (fold_left bucket ps d)
  = (between d + countIf (fun v => negb (JS.gt v 200) && JS.ge v 0) ps)%nat /\
  under0 (fold_left bucket ps d)
  = (under0 d + countIf (fun v => negb (JS.gt v 200) && negb (JS.ge v 0)) ps)%nat.
Proof.
  unfold countIf.
  induction ps as [|p rest IH]; intros d; simpl; [lia|].
  destruct (IH (bucket d p)) as (H1 & H2 & H3). rewrite H1, H2, H3.
  unfold bucket. destruct (pnlPct p) as [v|]; [|lia].
  destruct (JS.gt v 200); [simpl; lia|].
  destruct (JS.ge v 0); simpl; lia.
Qed.

Lemma countIf_partition ps :
  (countIf (fun v => JS.gt v 200) ps
   + countIf (fun v => negb (JS.gt v 200) && JS.ge v 0) ps
   + countIf (fun v => negb (JS.gt v 200) && negb (JS.ge v 0)) ps)%nat
  = countIf (fun _ => true) ps.
Proof.
  unfold countIf. induction ps as [|p rest IH]; simpl; [reflexivity|].
  destruct (pnlPct p) as [v|]; [|exact IH].
  destruct (JS.gt v 200); simpl; [lia|]. destruct (JS.ge v 0); simpl; lia.
Qed.

(** X16. The distribution puts every position that has a PnL percentage
    into exactly one bucket: above 200, from 0 to 200, and the rest, where
    a NaN percentage lands as well; positions without a percentage are not
    counted, so the three counters add up to the number of positions with
    one. *)
Theorem dist_counts (ps : list PositionWithPnl) :
  over200 (dist ps) = countIf (fun v => JS.gt v 200) ps /\
  between (dist ps) = countIf (fun v => negb (JS.gt v 200) && JS.ge v 0) ps /\
  under0 (dist ps)
  = countIf (fun v => negb (JS.gt v 200) && negb (JS.ge v 0)) ps /\
  (over200 (dist ps) + between (dist ps) + under0 (dist ps))%nat
  = countIf (fun _ => true) ps /\
  (forall p, pnlPct p = Some nan -> under0 (dist (ps ++ [p])) = S (under0 (dist ps))).
Proof.
  destruct (dist_fold ps {| over200 := 0; between := 0; under0 := 0 |})
    as (H1 & H2 & H3).
  unfold dist. cbn [over200 between under0] in H1, H2, H3.
  split; [exact H1|]. split; [exact H2|]. split; [exact H3|]. split.
  - rewrite H1, H2, H3. apply countIf_partition.
  - intros p Hp. rewrite fold_left_app. cbn [fold_left].
    unfold bucket at 1. rewrite Hp. reflexivity.
Qed.

End DistFacts.

(** ** String helpers *)

Section TextFacts.
Import Text.
Local Open Scope Z_scope.

Lemma slice_prefix (s : Scan.jsstring) (n : Z) :
  0 <= n <= Z.of_nat (List.length s) -> slice s 0 n = firstn (Z.to_nat n) s.
Proof.
  intros Hn. unfold slice, clampIndex. cbv zeta.
  destruct (Z.ltb_spec n 0); [lia|].
  change (0 <? 0) with false. cbv iota.
  rewrite (Z.min_l 0) by lia. rewrite (Z.min_l n) by lia.
  simpl skipn. now rewrite Z.sub_0_r.
Qed.

Lemma slice_suffix (s : Scan.jsstring) (n : Z) :
  1 <= n <= Z.of_nat (List.length s) ->
  sliceFrom s (- n) = skipn (List.length s - Z.to_nat n) s.
Proof.
  intros Hn. unfold sliceFrom, slice, clampIndex. cbv zeta.
  destruct (Z.ltb_spec (- n) 0); [|lia].
  destruct (Z.ltb_spec (Z.of_nat (List.length s)) 0); [lia|].
  rewrite Z.max_l by lia. rewrite Z.min_l by lia.
  replace (Z.to_nat (Z.of_nat (List.length s) + - n))
    with (List.length s - Z.to_nat n)%nat by lia.
  apply firstn_all2. rewrite length_skipn. lia.
Qed.

(** X17. [shortAddress] with a non-negative [left] and a positive [right]
    (4 and 4 at every call): an address of at most left + right + 1 code
    units is returned as it is; a longer one becomes its first [left]
    units, an ellipsis and its last [right] units, left + right + 1 units
    in all; so the result is never longer than the address. *)
Theorem shortAddress_shape (addr : Scan.jsstring) (left right : Z)
    (Hl : 0 <= left) (Hr : 1 <= right) :
  let len := Z.of_nat (List.length addr) in
  (len <= left + right + 1 -> shortAddress addr left right = addr) /\
  (left + right + 1 < len ->
     shortAddress addr left right
     = firstn (Z.to_nat left) addr ++ [ellipsis]
       ++ skipn (List.length addr - Z.to_nat right) addr
     /\ Z.of_nat (List.length (shortAddress addr left right)) = left + right + 1) /\
  Z.of_nat (List.length (shortAddress addr left right)) <= len.
Proof.
  cbv zeta.
  assert (Hlong : left + right + 1 < Z.of_nat (List.length addr) ->
            shortAddress addr left right
            = firstn (Z.to_nat left) addr ++ [ellipsis]
              ++ skipn (List.length addr - Z.to_nat right) addr).
  { intros H. unfold shortAddress.
    destruct addr as [|c rest]; [simpl in H; lia|].
    destruct (Z.leb_spec (Z.of_nat (List.length (c :: rest))) (left + right + 1));
      [lia|].
    rewrite slice_prefix, slice_suffix by lia. reflexivity. }
  assert (Hshort : Z.of_nat (List.length addr) <= left + right + 1 ->
            shortAddress addr left right = addr).
  { intros H. unfold shortAddress. destruct addr as [|c rest]; [reflexivity|].
    destruct (Z.leb_spec (Z.of_nat (List.length (c :: rest))) (left + right + 1));
      [reflexivity|lia]. }
  assert (Hlen : left + right + 1 < Z.of_nat (List.length addr) ->
            Z.of_nat (List.length (shortAddress addr left right)) = left + right + 1).
  { intros H. rewrite (Hlong H).
    rewrite length_app, length_firstn. cbn [List.length app].
    rewrite length_skipn. lia. }
  split; [exact Hshort|]. split; [auto|].
  destruct (Z.le_gt_cases (Z.of_nat (List.length addr)) (left + right + 1)) as [H|H].
  - rewrite (Hshort H). lia.
  - rewrite (Hlen H). lia.
Qed.

(** X18. [truncate] with a positive [max]: a string of at most [max] code
    units is returned as it is; a longer one becomes its first max - 1
    units and an ellipsis; so the result has at most [max] units. *)
Theorem truncate_shape (s : Scan.jsstring) (max : Z) (Hmax : 1 <= max) :
  let len := Z.of_nat (List.length s) in
  (len <= max -> truncate s max = s) /\
  (max < len ->
     truncate s max = firstn (Z.to_nat (max - 1)) s ++ [ellipsis]) /\
  Z.of_nat (List.length (truncate s max)) <= max.
Proof.
  cbv zeta.
  assert (Hshort : Z.of_nat (List.length s) <= max -> truncate s max = s).
  { intros H. unfold truncate. destruct s as [|c rest]; [reflexivity|].
    destruct (Z.gtb_spec (Z.of_nat (List.length (c :: rest))) max);
      [lia|reflexivity]. }
  assert (Hlong : max < Z.of_nat (List.length s) ->
            truncate s max = firstn (Z.to_nat (max - 1)) s ++ [ellipsis]).
  { intros H. unfold truncate. destruct s as [|c rest]; [simpl in H; lia|].
    destruct (Z.gtb_spec (Z.of_nat (List.length (c :: rest))) max); [|lia].
    rewrite slice_prefix by lia. reflexivity. }
  split; [exact Hshort|]. split; [exact Hlong|].
  destruct (Z.le_gt_cases (Z.of_nat (List.length s)) max) as [H|H].
  - now rewrite (Hshort H).
  - rewrite (Hlong H), length_app, length_firstn. cbn [List.length]. lia.
Qed.

End TextFacts.

(** ** TradePanel: what enables the buttons *)

Lemma binary_round_aux_sign sx mz ez lz :
  SFltb (S754_zero false) (binary_round_aux prec emax sx mz ez lz) = true ->
  sx = false.
Proof.
  unfold binary_round_aux.
  destruct (shr_fexp prec emax mz ez lz) as [mrs1 e1].
  destruct (shr_fexp prec emax
              (round_nearest_even (shr_m mrs1) (loc_of_shr_record mrs1)) e1 loc_Exact)
    as [mrs2 e2].
  destruct (shr_m mrs2); [|destruct (e2 <=? emax - prec)%Z|];
    destruct sx; try discriminate; reflexivity.
Qed.

(** A quotient above zero over a divisor above zero has a dividend above
    zero. *)
Lemma div_pos_dividend a b :
  JS.gt (a / b) 0 = true -> JS.gt b 0 = true -> JS.gt a 0 = true.
Proof.
  unfold JS.gt. rewrite !FloatAxioms.ltb_spec, div_spec.
  change (Prim2SF 0) with (S754_zero false).
  unfold SF64div, SFdiv.
  destruct (Prim2SF a) as [sa|sa| |sa ma ea], (Prim2SF b) as [sb|sb| |sb mb eb];
    try discriminate;
    try (destruct sa, sb; discriminate);
    try (destruct sa, sb; try discriminate; reflexivity).
  destruct (SFdiv_core_binary prec emax (Z.pos ma) ea (Z.pos mb) eb) as [[mz ez] lz].
  intros H Hb. apply binary_round_aux_sign in H.
  destruct sa, sb; try discriminate; reflexivity.
Qed.

Section TradeViewFacts.
Import TradePanel TradeView.

(** X19. Buy is enabled only with a current price above zero and a typed
    amount above zero; with no price, or a price of 0 or NaN, the
    quantity, the cost and the grand total are all 0 and Buy is
    disabled. *)
Theorem canBuy_needs_price_and_amount (v : Panel) :
  (canBuy v = true ->
     exists cp, currentPrice v = Some cp /\ JS.gt cp 0 = true /\
                JS.gt (usd v) 0 = true /\ effectiveQty v = usd v / cp) /\
  (JS.truthyOpt (currentPrice v) = false ->
     effectiveQty v = 0 /\ totalCost v = 0 /\ grandTotal v = 0 /\
     canBuy v = false).
Proof.
  split.
  - unfold canBuy, effectiveQty, effPrice. rewrite !andb_true_iff.
    intros [[[_ Hp] Hq] _].
    destruct (currentPrice v) as [cp|]; [|discriminate].
    cbn [JS.nullish] in *.
    rewrite (gt_zero_truthy _ Hp) in Hq |- *.
    pose proof (div_pos_dividend _ _ Hq Hp) as Hu.
    assert (Hus : JS.orZero (usd v) = usd v).
    { unfold JS.orZero in *. destruct (JS.truthy (usd v)); [reflexivity|].
      discriminate. }
    rewrite Hus in Hu |- *.
    exists cp. repeat split; assumption.
  - intros Hc.
    assert (He : JS.truthy (effPrice v) = false).
    { unfold effPrice. destruct (currentPrice v) as [cp|]; [exact Hc|reflexivity]. }
    assert (Hq : effectiveQty v = 0) by (unfold effectiveQty; now rewrite He).
    assert (Ht : totalCost v = 0) by (unfold totalCost; now rewrite He).
    repeat split; try assumption.
    + unfold grandTotal. rewrite Ht. reflexivity.
    + unfold canBuy. rewrite Hq. change (JS.gt 0 0) with false.
      now rewrite andb_false_r.
Qed.

(** X20. The figures of the position agree with the buttons: whenever Sell
    is enabled, and whenever a PnL percentage is shown, the PnL is
    (currentPrice - averageEntryPrice) * quantityHeld; a percentage is
    shown only over an average entry above zero; and without a position
    the PnL is 0, no percentage is shown and Sell is disabled. *)
Theorem position_figures (v : Panel) :
  (canSell v = true ->
     exists cp, currentPrice v = Some cp /\ JS.gt (qtyHeld v) 0 = true /\
                pnl v = (cp - avgEntry v) * qtyHeld v) /\
  (forall x, pnlPct v = Some x ->
     exists cp, currentPrice v = Some cp /\ JS.gt (avgEntry v) 0 = true /\
                x = ((cp - avgEntry v) / avgEntry v) * 100 /\
                pnl v = (cp - avgEntry v) * qtyHeld v) /\
  (pos v = None -> pnl v = 0 /\ pnlPct v = None /\ canSell v = false).
Proof.
  split; [|split].
  - unfold canSell, pnl. rewrite andb_true_iff. intros [Hq Hc].
    destruct (currentPrice v) as [cp|]; [|discriminate]. cbn [JS.truthyOpt] in Hc.
    exists cp. rewrite Hc, (gt_zero_truthy _ Hq). auto.
  - intros x. unfold pnlPct, pnl.
    destruct (currentPrice v) as [cp|]; [|discriminate].
    destruct (JS.truthy (qtyHeld v)) eqn:Eq; [|discriminate].
    destruct (JS.truthy cp) eqn:Ec; [|discriminate].
    destruct (JS.truthy (avgEntry v)) eqn:Ea; [|discriminate].
    cbn [negb orb].
    destruct (JS.le (avgEntry v) 0) eqn:El; [discriminate|].
    intros [= <-]. exists cp. repeat split.
    assert (Hn : is_nan (avgEntry v) = false).
    { unfold JS.truthy in Ea. destruct (is_nan (avgEntry v)); [|reflexivity].
      now rewrite orb_true_r in Ea. }
    assert (H0 : is_nan 0 = false) by reflexivity.
    rewrite (le_is_not_gt _ _ Hn H0) in El.
    unfold JS.gt. unfold JS.lt in El. now destruct (0 <? avgEntry v).
  - intros Hp.
    assert (Hq : qtyHeld v = 0) by (unfold qtyHeld; now rewrite Hp).
    repeat split.
    + unfold pnl. rewrite Hq. destruct (currentPrice v); [|reflexivity].
      change (JS.truthy 0) with false. now rewrite orb_true_r.
    + unfold pnlPct. rewrite Hq. now destruct (currentPrice v).
    + unfold canSell. rewrite Hq. reflexivity.
Qed.

End TradeViewFacts.

(** ** Binary64 subtraction: the sign of a difference

    The comparators of the sorts are differences, [b.ts - a.ts]; the sign
    of a difference is the order of its operands, for every pair of
    numbers: gradual underflow leaves no two different numbers with a
    difference of 0. *)

Lemma iter_xO m d : Zpos (Pos.iter xO m d) = (Zpos m * 2 ^ Zpos d)%Z.
Proof.
  induction d as [|d IH] using Pos.peano_ind.
  - simpl. lia.
  - rewrite Pos.iter_succ, Pos2Z.inj_xO, IH, Pos2Z.inj_succ, Z.pow_succ_r by lia.
    lia.
Qed.

Lemma shl_align_value m e e' :
  (e' <= e)%Z -> Zpos (fst (shl_align m e e')) = (Zpos m * 2 ^ (e - e'))%Z.
Proof.
  intros H. unfold shl_align.
  destruct (e' - e)%Z as [|p|p] eqn:E; simpl fst.
  - replace (e - e')%Z with 0%Z by lia. simpl. lia.
  - lia.
  - rewrite iter_xO. f_equal. f_equal. lia.
Qed.

Lemma digits2_bounds m :
  (2 ^ Zpos (digits2_pos m) <= 2 * Zpos m /\ Zpos m < 2 ^ Zpos (digits2_pos m))%Z.
Proof.
  induction m as [p IH|p IH|]; simpl digits2_pos.
  - rewrite Pos2Z.inj_succ, Z.pow_succ_r by lia. lia.
  - rewrite Pos2Z.inj_succ, Z.pow_succ_r by lia. lia.
  - simpl. lia.
Qed.

Lemma canonical_digits m e :
  canonical_mantissa prec emax m e = true ->
  (emin64 <= e /\ Zpos (digits2_pos m) <= 53
   /\ (emin64 < e -> Zpos (digits2_pos m) = 53))%Z.
Proof.
  unfold canonical_mantissa, fexp, emin64, SpecFloat.emin, prec, emax.
  intros H. apply Z.eqb_eq in H. lia.
Qed.

(** Two canonical mantissas, aligned on the smaller exponent, compare as
    the numbers do. *)
Lemma aligned_compare m1 e1 m2 e2 :
  canonical_mantissa prec emax m1 e1 = true ->
  canonical_mantissa prec emax m2 e2 = true ->
  (Zpos (fst (shl_align m1 e1 (Z.min e1 e2)))
   ?= Zpos (fst (shl_align m2 e2 (Z.min e1 e2))))%Z
  = lexcmp e1 m1 e2 m2.
Proof.
  intros H1 H2.
  destruct (canonical_digits _ _ H1) as (Hm1 & Hd1 & Hn1).
  destruct (canonical_digits _ _ H2) as (Hm2 & Hd2 & Hn2).
  destruct (digits2_bounds m1) as [Hl1 Hu1].
  destruct (digits2_bounds m2) as [Hl2 Hu2].
  rewrite !shl_align_value by lia.
  unfold lexcmp. destruct (Z.compare_spec e1 e2) as [E|E|E].
  - subst e2. rewrite Z.min_id, Z.sub_diag. simpl (2 ^ 0)%Z.
    rewrite !Z.mul_1_r. reflexivity.
  - rewrite Z.min_l by lia. rewrite Z.sub_diag. simpl (2 ^ 0)%Z.
    rewrite Z.mul_1_r. apply Z.compare_lt_iff.
    rewrite (Hn2 ltac:(lia)) in Hl2.
    assert (Hp : (2 ^ 1 <= 2 ^ (e2 - e1))%Z) by (apply Z.pow_le_mono_r; lia).
    assert (Hq : (2 ^ Zpos (digits2_pos m1) <= 2 ^ 53)%Z)
      by (apply Z.pow_le_mono_r; lia).
    change (2 ^ 1)%Z with 2%Z in Hp. nia.
  - rewrite Z.min_r by lia. rewrite Z.sub_diag. simpl (2 ^ 0)%Z.
    rewrite Z.mul_1_r. apply Z.compare_gt_iff.
    rewrite (Hn1 ltac:(lia)) in Hl1.
    assert (Hp : (2 ^ 1 <= 2 ^ (e1 - e2))%Z) by (apply Z.pow_le_mono_r; lia).
    assert (Hq : (2 ^ Zpos (digits2_pos m2) <= 2 ^ 53)%Z)
      by (apply Z.pow_le_mono_r; lia).
    change (2 ^ 1)%Z with 2%Z in Hp. nia.
Qed.

(** Rounding a mantissa that is not 0 gives a number of its sign, not 0. *)
Lemma binary_round_aux_signed sx m e l :
  (emin64 <= e)%Z ->
  SFltb (S754_zero false) (binary_round_aux prec emax sx (Zpos m) e l) = negb sx.
Proof.
  intros He. unfold binary_round_aux.
  destruct (shr_fexp_positive m e l He) as (m1 & e1 & H1 & He1 & Hge1).
  destruct (shr_fexp prec emax (Z.pos m) e l) as [mrs1 e1'].
  simpl in H1, He1. subst e1'. rewrite H1.
  destruct (round_nearest_even_positive m1 (loc_of_shr_record mrs1)) as (m2 & H2).
  rewrite H2.
  destruct (shr_fexp_positive m2 e1 loc_Exact Hge1) as (m3 & e3 & H3 & He3 & _).
  destruct (shr_fexp prec emax (Z.pos m2) e1 loc_Exact) as [mrs3 e3'].
  simpl in H3, He3. subst e3'. rewrite H3.
  destruct (e3 <=? emax - prec)%Z; destruct sx; reflexivity.
Qed.

Lemma binary_round_signed sx m e :
  (emin64 <= e)%Z ->
  SFltb (S754_zero false) (binary_round prec emax sx m e) = negb sx.
Proof.
  intros He. unfold binary_round.
  destruct (shl_align m e (fexp prec emax (Z.pos (digits2_pos m) + e))) as [mz ez] eqn:E.
  apply binary_round_aux_signed.
  unfold shl_align in E.
  destruct (fexp prec emax (Z.pos (digits2_pos m) + e) - e)%Z eqn:En;
    inversion E; subst; try assumption.
  unfold fexp, emin64. lia.
Qed.

Lemma binary_normalize_signed z e :
  (emin64 <= e)%Z ->
  SFltb (S754_zero false) (binary_normalize prec emax z e false) = (0 <? z)%Z.
Proof.
  intros He. destruct z as [|p|p]; simpl binary_normalize.
  - reflexivity.
  - now rewrite binary_round_signed.
  - now rewrite binary_round_signed.
Qed.

Lemma SFsub_sign x y :
  valid_binary x = true -> valid_binary y = true ->
  SFltb (S754_zero false) (SF64sub x y) = SFltb y x.
Proof.
  intros Hx Hy. unfold SF64sub, SFsub.
  destruct x as [sx|sx| |sx mx ex], y as [sy|sy| |sy my ey];
    try reflexivity;
    try (destruct sx, sy; reflexivity);
    try (destruct sx; reflexivity);
    try (destruct sy; reflexivity).
  pose proof (valid_finite_emin _ _ _ Hx) as Hex.
  pose proof (valid_finite_emin _ _ _ Hy) as Hey.
  simpl in Hx, Hy. unfold bounded in Hx, Hy.
  apply andb_true_iff in Hx. destruct Hx as [Hx _].
  apply andb_true_iff in Hy. destruct Hy as [Hy _].
  cbv zeta. rewrite binary_normalize_signed by lia.
  pose proof (aligned_compare my ey mx ex Hy Hx) as Hc.
  rewrite (Z.min_comm ey ex) in Hc.
  unfold SFltb. cbn [SFcompare]. fold (lexcmp ey my ex mx).
  set (X := Zpos (fst (shl_align mx ex (Z.min ex ey)))) in *.
  set (Y := Zpos (fst (shl_align my ey (Z.min ex ey)))) in *.
  assert (HX : (0 < X)%Z) by (unfold X; lia).
  assert (HY : (0 < Y)%Z) by (unfold Y; lia).
  destruct sx, sy; unfold cond_Zopp.
  - replace (match (ey ?= ex)%Z with
             | Eq => CompOpp (Pos.compare_cont Eq my mx)
             | Lt => Gt
             | Gt => Lt
             end) with (CompOpp (lexcmp ey my ex mx))
      by (unfold lexcmp; destruct (ey ?= ex)%Z; reflexivity).
    rewrite <- Hc.
    destruct (Z.compare_spec Y X); cbn [CompOpp];
      apply Z.ltb_lt || apply Z.ltb_ge; lia.
  - apply Z.ltb_ge. lia.
  - apply Z.ltb_lt. lia.
  - rewrite <- Hc.
    destruct (Z.compare_spec Y X); cbn [CompOpp];
      apply Z.ltb_lt || apply Z.ltb_ge; lia.
Qed.

(** [x - y > 0] is [x > y], whatever the numbers. *)
Lemma sub_pos_gt x y : JS.gt (x - y) 0 = JS.gt x y.
Proof.
  unfold JS.gt. rewrite !FloatAxioms.ltb_spec, sub_spec.
  change (Prim2SF 0) with (S754_zero false).
  apply SFsub_sign; apply Prim2SF_valid.
Qed.

(** ** Sorting by a key, latest first *)

Section SortFacts.
Context {A : Type}.
Variable key : A -> float.

Lemma insertBy_desc x l :
  is_nan (key x) = false -> keyed key l -> StronglySorted (noEarlier key) l ->
  StronglySorted (noEarlier key) (Ledger.insertBy (fun a b => key b - key a) x l).
Proof.
  intros Hx Hl Hs. induction l as [|y rest IH]; simpl.
  - repeat constructor.
  - inversion Hs as [|? ? Hrest Hy]; subst.
    inversion Hl as [|? ? Hny Hnrest]; subst.
    rewrite sub_pos_gt. destruct (JS.gt (key x) (key y)) eqn:E.
    + constructor; [exact Hs|].
      assert (Hxy : JS.le (key y) (key x) = true) by (apply lt_le; exact E).
      constructor; [exact Hxy|].
      rewrite Forall_forall in Hy |- *. intros z Hz.
      apply (le_trans _ (key y)); [apply (Hy z Hz)|exact Hxy].
    + constructor; [now apply IH|].
      apply (Permutation_Forall (Permutation_sym (insertBy_perm _ x rest))).
      constructor; [|exact Hy].
      unfold noEarlier, JS.ge. fold (JS.le (key x) (key y)).
      rewrite (le_is_not_gt _ _ Hx Hny). unfold JS.gt in E. unfold JS.lt.
      now rewrite E.
Qed.

(** Sorting with the comparator [key b - key a] puts the keys in
    descending order, when none of them is NaN. *)
Lemma sortBy_desc l :
  keyed key l -> StronglySorted (noEarlier key) (Ledger.sortBy (fun a b => key b - key a) l).
Proof.
  unfold Ledger.sortBy. intros Hl.
  assert (H : forall acc, keyed key acc -> StronglySorted (noEarlier key) acc ->
            StronglySorted (noEarlier key)
              (fold_left (fun acc x => Ledger.insertBy (fun a b => key b - key a) x acc)
                 l acc)).
  { induction l as [|x rest IH]; intros acc Hacc Hs; simpl; [exact Hs|].
    inversion Hl as [|? ? Hx Hrest]; subst.
    apply (IH Hrest).
    - apply (Permutation_Forall (Permutation_sym (insertBy_perm _ x acc))).
      now constructor.
    - now apply insertBy_desc. }
  apply H; constructor.
Qed.

(** The head of the sorted array is an element no other is later than. *)
Lemma sortBy_head l :
  keyed key l ->
  (hd_error (Ledger.sortBy (fun a b => key b - key a) l) = None <-> l = []) /\
  (forall x, hd_error (Ledger.sortBy (fun a b => key b - key a) l) = Some x ->
     In x l /\ forall y, In y l -> JS.le (key y) (key x) = true).
Proof.
  intros Hl. pose proof (sortBy_desc l Hl) as Hs.
  pose proof (sortBy_perm (fun a b => key b - key a) l) as Hp.
  destruct (Ledger.sortBy (fun a b => key b - key a) l) as [|x rest].
  - apply Permutation_nil in Hp. subst l.
    split; [tauto|discriminate].
  - split.
    + split; [discriminate|]. intros ->.
      apply Permutation_sym, Permutation_nil in Hp. discriminate.
    + intros x' [= <-]. split.
      * apply (Permutation_in _ Hp). now left.
      * intros y Hy. apply (Permutation_in _ (Permutation_sym Hp)) in Hy.
        inversion Hs as [|? ? _ Hx]; subst.
        destruct Hy as [<-|Hy].
        -- apply le_refl. unfold keyed in Hl. rewrite Forall_forall in Hl.
           apply Hl. apply (Permutation_in _ Hp). now left.
        -- rewrite Forall_forall in Hx. apply (Hx y Hy).
Qed.

End SortFacts.

(** ** ActivityAggregator: latest activity *)

Section LatestFacts.
Import App.

Lemma absorb_latest g seen h :
  is_nan (Ledger.ts h) = false -> latestOf g seen ->
  latestOf (absorb h g) (seen ++ [h]).
Proof.
  intros Hh (Hn & (h1 & Hin1 & Hts1) & Hall & (h2 & Hin2 & Hact & Hge)).
  unfold latestOf, absorb. cbn [lastTs lastAction].
  destruct (JS.gt (Ledger.ts h) (lastTs g)) eqn:E.
  - assert (Hlt : JS.le (lastTs g) (Ledger.ts h) = true) by (apply lt_le; exact E).
    assert (Hself : JS.ge (Ledger.ts h) (Ledger.ts h) = true) by (now apply le_refl).
    rewrite Hself.
    split; [exact Hh|]. split; [|split].
    + exists h. split; [apply in_or_app; right; now left|reflexivity].
    + intros h' Hin. apply in_app_or in Hin. destruct Hin as [Hin|[<-|[]]].
      * apply (le_trans _ (lastTs g)); [now apply Hall|exact Hlt].
      * now apply le_refl.
    + exists h. split; [apply in_or_app; right; now left|]. auto.
  - assert (Hle : JS.le (Ledger.ts h) (lastTs g) = true).
    { rewrite (le_is_not_gt _ _ Hh Hn). unfold JS.gt in E. unfold JS.lt.
      now rewrite E. }
    split; [exact Hn|]. split; [|split].
    + exists h1. split; [apply in_or_app; now left|exact Hts1].
    + intros h' Hin. apply in_app_or in Hin. destruct Hin as [Hin|[<-|[]]].
      * now apply Hall.
      * exact Hle.
    + destruct (JS.ge (Ledger.ts h) (lastTs g)) eqn:F.
      * exists h. split; [apply in_or_app; right; now left|]. auto.
      * exists h2. split; [apply in_or_app; now left|]. auto.
Qed.

Lemma absorb_run_latest hs : forall g seen,
  (forall h, In h hs -> is_nan (Ledger.ts h) = false) ->
  latestOf g seen ->
  latestOf (fold_left (fun g h => absorb h g) hs g) (seen ++ hs).
Proof.
  induction hs as [|h rest IH]; intros g seen Hts Hg; simpl.
  - now rewrite app_nil_r.
  - replace (seen ++ h :: rest) with ((seen ++ [h]) ++ rest)
      by (rewrite <- app_assoc; reflexivity).
    apply IH.
    + intros h' Hin. apply Hts. now right.
    + apply absorb_latest; [apply Hts; now left|exact Hg].
Qed.

Lemma absorbAll_first h0 rest :
  absorbAll None (h0 :: rest)
  = Some (fold_left (fun g h => absorb h g) (h0 :: rest) (fresh h0)).
Proof.
  unfold absorbAll. cbn [fold_left].
  change (fold_left _ rest (Some (absorb h0 (fresh h0))))
    with (absorbAll (Some (absorb h0 (fresh h0))) rest).
  now rewrite absorbAll_some.
Qed.

Lemma absorbAll_latest hs g :
  (forall h, In h hs -> is_nan (Ledger.ts h) = false) ->
  absorbAll None hs = Some g -> latestOf g hs.
Proof.
  intros Hts. destruct hs as [|h0 rest]; [discriminate|].
  rewrite absorbAll_first. intros [= <-].
  assert (Hh0 : is_nan (Ledger.ts h0) = false) by (apply Hts; now left).
  assert (H0 : latestOf (fresh h0) [h0]).
  { unfold latestOf. cbn [fresh lastTs lastAction].
    split; [exact Hh0|]. split; [|split].
    - exists h0. split; [now left|reflexivity].
    - intros h [<-|[]]. now apply le_refl.
    - exists h0. split; [now left|]. split; [reflexivity|]. now apply le_refl. }
  destruct (absorb_run_latest (h0 :: rest) (fresh h0) [h0] Hts H0)
    as (Hn & (h1 & Hin1 & Hts1) & Hall & (h2 & Hin2 & Hact)).
  assert (Hsame : forall h, In h ([h0] ++ h0 :: rest) -> In h (h0 :: rest)).
  { intros h [<-|Hin]; [now left|exact Hin]. }
  split; [exact Hn|]. split; [|split].
  - exists h1. auto.
  - intros h Hin. apply Hall. now right.
  - exists h2. auto.
Qed.

Lemma item_latest hist it :
  (forall h, In h hist -> is_nan (Ledger.ts h) = false) ->
  In it (groupedActivity hist) ->
  latestOf (group it) (entriesOf (mint (group it)) hist).
Proof.
  intros Hts Hin. destruct (item_group hist it Hin) as [_ Hg].
  apply absorbAll_latest; [|exact Hg].
  intros h Hh. apply filter_In in Hh. now apply Hts.
Qed.

(** X21. When no timestamp of the history is NaN, the [lastTs] of an item
    is the timestamp of one of the mint's entries and no entry of the mint
    is later; and its [lastAction] is the side of an entry that carries
    that latest timestamp. *)
Theorem group_latest (hist : list Ledger.HistoryItem) (it : Item)
    (Hts : forall h, In h hist -> is_nan (Ledger.ts h) = false)
    (Hin : In it (groupedActivity hist)) :
  (exists h, In h hist /\ Ledger.mint h = mint (group it)
             /\ lastTs (group it) = Ledger.ts h) /\
  (forall h, In h hist -> Ledger.mint h = mint (group it) ->
     JS.le (Ledger.ts h) (lastTs (group it)) = true) /\
  (exists h, In h hist /\ Ledger.mint h = mint (group it)
             /\ lastAction (group it) = Some (Ledger.side h)
             /\ JS.ge (Ledger.ts h) (lastTs (group it)) = true
             /\ JS.le (Ledger.ts h) (lastTs (group it)) = true).
Proof.
  destruct (item_latest hist it Hts Hin)
    as (_ & (h1 & Hin1 & Hts1) & Hall & (h2 & Hin2 & Hact & Hge)).
  assert (Hentry : forall h, In h (entriesOf (mint (group it)) hist)
            <-> In h hist /\ Ledger.mint h = mint (group it)).
  { intros h. unfold entriesOf. rewrite filter_In.
    now rewrite String.eqb_eq. }
  split; [|split].
  - exists h1. apply Hentry in Hin1. tauto.
  - intros h Hh Hm. apply Hall. apply Hentry. auto.
  - exists h2. pose proof (Hall h2 Hin2). apply Hentry in Hin2.
    repeat split; tauto.
Qed.

(** X22. When no timestamp of the history is NaN, [groupedActivity] returns
    its items latest activity first: no item's [lastTs] is below that of
    an item after it. *)
Theorem groupedActivity_sorted (hist : list Ledger.HistoryItem)
    (Hts : forall h, In h hist -> is_nan (Ledger.ts h) = false) :
  StronglySorted (fun a b => JS.ge (lastTs (group a)) (lastTs (group b)) = true)
    (groupedActivity hist).
Proof.
  unfold groupedActivity. cbv zeta.
  apply (sortBy_desc (fun it => lastTs (group it))).
  unfold keyed. apply Forall_forall. intros it Hin.
  assert (Hin' : In it (groupedActivity hist)).
  { apply (Permutation_in _ (Permutation_sym (groupedActivity_perm hist))).
    exact Hin. }
  now destruct (item_latest hist it Hts Hin').
Qed.

(** X23. When no timestamp of the history is NaN, the [lastBuy] of an item
    is a buy of the item's mint and no buy of that mint is later; an item
    has no [lastBuy] exactly when the mint has no buy; and likewise
    [lastSell] for the sells. *)
Theorem last_trades (hist : list Ledger.HistoryItem) (it : Item)
    (Hts : forall h, In h hist -> is_nan (Ledger.ts h) = false)
    (Hin : In it (groupedActivity hist)) :
  (lastBuy it = None <-> buys (group it) = []) /\
  (lastSell it = None <-> sells (group it) = []) /\
  (forall h, lastBuy it = Some h ->
     In h hist /\ Ledger.mint h = mint (group it) /\ Ledger.isBuy h = true /\
     forall h', In h' (buys (group it)) -> JS.le (Ledger.ts h') (Ledger.ts h) = true) /\
  (forall h, lastSell it = Some h ->
     In h hist /\ Ledger.mint h = mint (group it) /\ Ledger.isSell h = true /\
     forall h', In h' (sells (group it)) -> JS.le (Ledger.ts h') (Ledger.ts h) = true).
Proof.
  destruct (item_group hist it Hin) as [Hit Hg].
  destruct (absorbAll_group _ hist _ Hg) as (_ & _ & Hb & Hs & _).
  assert (Hside : forall (side : Ledger.HistoryItem -> bool) h,
            In h (filter side (entriesOf (mint (group it)) hist)) ->
            In h hist /\ Ledger.mint h = mint (group it) /\ side h = true).
  { intros side h Hh. apply filter_In in Hh. destruct Hh as [Hh Hsd].
    unfold entriesOf in Hh. apply filter_In in Hh. destruct Hh as [Hh Hm].
    apply String.eqb_eq in Hm. auto. }
  assert (Hkb : keyed Ledger.ts (buys (group it))).
  { apply Forall_forall. intros h Hh. rewrite Hb in Hh.
    apply Hts. now apply (Hside Ledger.isBuy). }
  assert (Hks : keyed Ledger.ts (sells (group it))).
  { apply Forall_forall. intros h Hh. rewrite Hs in Hh.
    apply Hts. now apply (Hside Ledger.isSell). }
  destruct (sortBy_head Ledger.ts _ Hkb) as [Hbn Hbs].
  destruct (sortBy_head Ledger.ts _ Hks) as [Hsn Hss].
  rewrite Hit. cbn [lastBuy lastSell summarize group]. unfold latest.
  split; [exact Hbn|]. split; [exact Hsn|]. split.
  - intros h Hh. destruct (Hbs h Hh) as [Hhin Hmax].
    rewrite Hb in Hhin. destruct (Hside _ _ Hhin) as (H1 & H2 & H3). auto.
  - intros h Hh. destruct (Hss h Hh) as [Hhin Hmax].
    rewrite Hs in Hhin. destruct (Hside _ _ Hhin) as (H1 & H2 & H3). auto.
Qed.

End LatestFacts.

(** ** Instances *)

Lemma verdict_without_price_witness :
  ScannerView.priceUsd unpriced = None /\
  ScannerView.health (fun _ _ => 1) (fun x => x) unpriced
  = ScannerV1.computeHealthVerdict (baseParams unpriced).
Proof.
  split; [reflexivity|].
  apply (verdict_without_price (fun _ _ => 1) (fun x => x) unpriced).
  reflexivity.
Defined.

Lemma lastPriceByMint_latest_witness :
  protoKeys "MintA" = false /\
  (Positions.lastOf protoKeys
     (Positions.lastPriceByMint protoKeys [exampleSell; exampleBuy]) "MintA" = None
   <-> priced "MintA" [exampleSell; exampleBuy] = []).
Proof.
  split; [reflexivity|].
  apply (lastPriceByMint_latest protoKeys [exampleSell; exampleBuy] "MintA").
  - reflexivity.
  - intros h [<-|[<-|[]]]; reflexivity.
Defined.

Lemma lastPriceByMint_inherited_witness :
  protoKeys "constructor" = true /\
  Positions.lastOf protoKeys
    (Positions.lastPriceByMint protoKeys
       [ {| Ledger.id := "t1"; Ledger.ts := 1700000000000; Ledger.side := Ledger.buy;
            Ledger.mint := "constructor"; Ledger.name := None; Ledger.symbol := None;
            Ledger.price := 2; Ledger.qty := 10; Ledger.value := 20;
            Ledger.fee := None; Ledger.marketCap := None |} ])
    "constructor" = None.
Proof.
  split; [reflexivity|].
  apply (lastPriceByMint_inherited protoKeys _ "constructor"
           {| TradePanel.qty := 10; TradePanel.avgPrice := 2 |}).
  reflexivity.
Defined.

Lemma shortAddress_shape_witness :
  Text.shortAddress (ofAscii "So11111111111111111111111111111111111111112") 4 4
  = ofAscii "So11" ++ [Text.ellipsis] ++ ofAscii "1112".
Proof.
  apply (shortAddress_shape
           (ofAscii "So11111111111111111111111111111111111111112") 4 4);
    vm_compute; (reflexivity || discriminate).
Defined.

Lemma truncate_shape_witness :
  Text.truncate (ofAscii "Imported wallet") 12
  = ofAscii "Imported wa" ++ [Text.ellipsis].
Proof.
  apply (truncate_shape (ofAscii "Imported wallet") 12);
    vm_compute; (reflexivity || discriminate).
Defined.

Lemma group_latest_witness :
  exists h, In h [exampleBuy; otherBuy; exampleSell]
            /\ Ledger.mint h = "MintA"%string
            /\ App.lastAction (App.group tradedItem) = Some (Ledger.side h)
            /\ JS.ge (Ledger.ts h) (App.lastTs (App.group tradedItem)) = true
            /\ JS.le (Ledger.ts h) (App.lastTs (App.group tradedItem)) = true.
Proof.
  apply (group_latest [exampleBuy; otherBuy; exampleSell] tradedItem).
  - intros h [<-|[<-|[<-|[]]]]; reflexivity.
  - left. reflexivity.
Defined.

Lemma groupedActivity_sorted_witness :
  StronglySorted
    (fun a b => JS.ge (App.lastTs (App.group a)) (App.lastTs (App.group b)) = true)
    (App.groupedActivity [exampleBuy; otherBuy; exampleSell]).
Proof.
  apply (groupedActivity_sorted [exampleBuy; otherBuy; exampleSell]).
  intros h [<-|[<-|[<-|[]]]]; reflexivity.
Defined.

Lemma last_trades_witness :
  App.lastBuy tradedItem = None <-> App.buys (App.group tradedItem) = [].
Proof.
  apply (last_trades [exampleBuy; otherBuy; exampleSell] tradedItem).
  - intros h [<-|[<-|[<-|[]]]]; reflexivity.
  - left. reflexivity.
Defined.
